(** * StrictRedux: slice registry and query router over a Redux store

    A shallow embedding of [src/StrictRedux.js] and of the part of Redux
    it drives, followed by the properties of the reducers, bound actions,
    selectors and queries.

    Modelling conventions.
    - A JavaScript object used as a record or as a map is the association
      list of its own enumerable properties in the order of insertion
      (assigning to an existing key keeps its position).  That is the
      order of [Object.keys] for names that are not numerals
      ([integerLike]); the full names [slice_key] never are, and what is
      stated about the order of slice names is stated for such names.
    - Members inherited from [Object.prototype] ([objectPrototypeNames]).
      The truthiness test of the query router finds them ([registryHas]).
      The lookups by name in [getAction], in [getSelector], of a handler
      in [actionReducers] and of a property of a state object are
      modelled on own properties: under an inherited name the source
      finds a function of the host where the model finds nothing, so
      what is stated about a miss of these lookups is stated for the
      other names ([ownName]).
    - Objects with an identity live in a heap; a reference is an address.
      The program never writes to an object it has read from the state
      tree, so the heap is append-only.
    - A function value is the data its closure captures.  The mutable
      [prevState] property of a selector function is kept next to that
      data in the [_selectors] registry, through which the source reaches
      it ([this._selectors[fullName].prevState]).
    - Strings are sequences of the characters U+0000 to U+00FF; [trim]
      strips the white space and line terminators among them.
    - Numbers are the integers. *)

From Stdlib Require Import String Ascii List ZArith Bool Arith Lia DecimalString.
Import ListNotations.
Open Scope string_scope.
Open Scope list_scope.

(* ===================================================================== *)
(** ** JavaScript strings, values and objects                             *)
(* ===================================================================== *)

Module JS.

(** [s.startsWith(p)] *)
Definition startsWith (s p : string) : bool := String.prefix p s.

(** [s.includes(c)] for a one-character string [c]. *)
Fixpoint includes (s : string) (c : ascii) : bool :=
  match s with
  | EmptyString => false
  | String a s' => Ascii.eqb a c || includes s' c
  end.

(** [s.split(sep)] for a one-character separator: the pieces between the
    occurrences of [sep]; never empty, [""] splits into [[""]]. *)
Fixpoint split (s : string) (sep : ascii) : list string :=
  match s with
  | EmptyString => [EmptyString]
  | String a s' =>
      if Ascii.eqb a sep then EmptyString :: split s' sep
      else match split s' sep with
           | [] => [String a EmptyString]
           | piece :: pieces => String a piece :: pieces
           end
  end.

(** [pieces.join(sep)] *)
Fixpoint join (pieces : list string) (sep : ascii) : string :=
  match pieces with
  | [] => EmptyString
  | [piece] => piece
  | piece :: rest => piece ++ String sep (join rest sep)
  end.

(** The white space and line terminators that [trim] removes, among the
    characters U+0000 to U+00FF: TAB, LF, VT, FF, CR, SPACE and the
    no-break space U+00A0. *)
Definition isWhiteSpace (a : ascii) : bool :=
  match nat_of_ascii a with
  | 9 | 10 | 11 | 12 | 13 | 32 | 160 => true
  | _ => false
  end.

Fixpoint trimStart (s : string) : string :=
  match s with
  | EmptyString => EmptyString
  | String a s' => if isWhiteSpace a then trimStart s' else s
  end.

Fixpoint trimEnd (s : string) : string :=
  match s with
  | EmptyString => EmptyString
  | String a s' =>
      match trimEnd s' with
      | EmptyString => if isWhiteSpace a then EmptyString else String a EmptyString
      | t => String a t
      end
  end.

(** [s.trim()] *)
Definition trim (s : string) : string := trimEnd (trimStart s).

Definition allWhiteSpace (s : string) : bool :=
  forallb isWhiteSpace (list_ascii_of_string s).

(** Addresses of heap objects. *)
Definition loc := nat.

(** Primitive values and references. *)
Inductive value : Type :=
| VUndefined
| VNull
| VBool (b : bool)
| VNum (n : Z)
| VStr (s : string)
| VObj (l : loc).

(** ToBoolean *)
Definition truthy (v : value) : bool :=
  match v with
  | VUndefined | VNull => false
  | VBool b => b
  | VNum n => negb (n =? 0)%Z
  | VStr s => negb (s =? "")
  | VObj _ => true
  end.

(** [a === b]: primitives by value, objects by reference. *)
Definition strict_eq (a b : value) : bool :=
  match a, b with
  | VUndefined, VUndefined => true
  | VNull, VNull => true
  | VBool x, VBool y => Bool.eqb x y
  | VNum x, VNum y => (x =? y)%Z
  | VStr x, VStr y => (x =? y)
  | VObj x, VObj y => Nat.eqb x y
  | _, _ => false
  end.

(** Own enumerable properties, in [Object.keys] order. *)
Definition props : Type := list (string * value).

(** The prototypes an object can have above it. *)
Inductive prototype : Type :=
| ObjectPrototype
| ErrorPrototype
| ClassPrototype (id : nat).

(** A heap object: its prototype chain, from [Object.getPrototypeOf]
    upwards, and its own properties. *)
Record object : Type := mkObject {
  protoChain : list prototype;
  own : props
}.

Definition heap : Type := list object.

(** An object literal: [{ k1: v1, ... }]. *)
Definition plain (p : props) : object :=
  {| protoChain := [ObjectPrototype]; own := p |}.

Definition alloc (o : object) (m : heap) : loc * heap := (length m, m ++ [o]).

(** [o[k]] on an association list. *)
Fixpoint lookup {A : Type} (k : string) (o : list (string * A)) : option A :=
  match o with
  | [] => None
  | (k', v) :: o' => if k' =? k then Some v else lookup k o'
  end.

(** [o[k] = v]: overwrite in place, or append a new key (the place of a
    key that is not a numeral). *)
Fixpoint set {A : Type} (k : string) (v : A) (o : list (string * A)) : list (string * A) :=
  match o with
  | [] => [(k, v)]
  | (k', v') :: o' => if k' =? k then (k', v) :: o' else (k', v') :: set k v o'
  end.

(** [Object.keys(o)] *)
Definition keys {A : Type} (o : list (string * A)) : list string := map fst o.

(** [{ ...target, ...source }] *)
Definition assign {A : Type} (target source : list (string * A)) : list (string * A) :=
  fold_left (fun acc kv => set (fst kv) (snd kv) acc) source target.

(** [names.includes(x)] on an array of strings. *)
Definition arrayIncludes (names : list string) (x : string) : bool :=
  existsb (String.eqb x) names.

(** The property names every object inherits from [Object.prototype].
    Under such a name [o[name]] is never [undefined], also when [o] has no
    own property of that name. *)
Definition objectPrototypeNames : list string :=
  [ "constructor"; "hasOwnProperty"; "isPrototypeOf"; "propertyIsEnumerable";
    "toLocaleString"; "toString"; "valueOf"; "__proto__";
    "__defineGetter__"; "__defineSetter__"; "__lookupGetter__"; "__lookupSetter__" ].

(** [o[name]] finds a member of [Object.prototype] when [o] has no own
    property [name].  Each of these members is truthy: [__proto__] reads
    as [Object.prototype] itself and the others are functions. *)
Definition inherited (name : string) : bool := arrayIncludes objectPrototypeNames name.

(** The own properties that an object spread [{ ...v }] copies; a
    primitive contributes none. *)
Definition ownProps (m : heap) (v : value) : props :=
  match v with
  | VObj l => match nth_error m l with Some o => own o | None => [] end
  | _ => []
  end.

(** The prototype chain above a value, empty for primitives (their
    wrapper prototypes never derive from [Error]). *)
Definition chainOf (m : heap) (v : value) : list prototype :=
  match v with
  | VObj l => match nth_error m l with Some o => protoChain o | None => [] end
  | _ => []
  end.

Definition isErrorPrototype (p : prototype) : bool :=
  match p with ErrorPrototype => true | _ => false end.

(** [v instanceof Error]: [Error.prototype] occurs in the chain of [v]. *)
Definition instanceofError (m : heap) (v : value) : bool :=
  existsb isErrorPrototype (chainOf m v).

(** [Object.getPrototypeOf(v) instanceof Error]: [Error.prototype] occurs
    strictly above the immediate prototype of [v]. *)
Definition prototypeInstanceofError (m : heap) (v : value) : bool :=
  existsb isErrorPrototype (tl (chainOf m v)).

End JS.
Export JS.

(* ===================================================================== *)
(** ** Errors, outcomes and the state-passing monad                       *)
(* ===================================================================== *)

(** A thrown value: [new Error(message)], raised by [throwError], or a
    [TypeError] raised by the engine (reading a property of [undefined],
    calling something that is not a function). *)
Inductive error : Type :=
| Error (message : string)
| TypeError.

(** How a call ends.  [Timeout] is the bound on nested selector calls
    running out; it does not occur in the source. *)
Inductive outcome (A : Type) : Type :=
| Ok (a : A)
| Throw (e : error)
| Timeout.
Arguments Ok {A} a.
Arguments Throw {A} e.
Arguments Timeout {A}.

(** [function throwError (message) { throw new Error(message) }] *)
Definition throwError {A : Type} (message : string) : outcome A :=
  Throw (Error message).

(** [o[k]] on a value: a [TypeError] on [undefined] and [null], the own
    property of an object or [undefined].  (What [o] inherits under [k]
    is not modelled: the reads of the program are of own properties, or
    are stated for an [ownName] of a plain object.) *)
Definition getprop (m : heap) (o : value) (k : string) : outcome value :=
  match o with
  | VUndefined | VNull => Throw TypeError
  | VObj _ => Ok (match lookup k (ownProps m o) with Some v => v | None => VUndefined end)
  | _ => Ok VUndefined
  end.

(** The body of a selector supplied by a slice: it returns, throws, reads
    a property, or calls the [selectOne] and [select] it was given when
    the selectors were created. *)
Inductive code : Type :=
| Return (v : value)
| Raise (e : error)
| Get (o : value) (k : string) (cont : value -> code)
| CallSelectOne (selectorName : string) (options state : value) (cont : value -> code)
| CallSelect (queryString : string) (options state : value) (cont : value -> code).

(** [(stateSlice, options) => ...] *)
Definition selectorFn : Type := value -> value -> code.

(** The shape of [select] and [selectOne] as a selector factory sees them. *)
Definition selectApi : Type := string -> value -> value -> (value -> code) -> code.

(** An action reducer [(stateSlice, payload) => partial]: a pure function
    of the heap it reads; the result is the own properties of the object
    it returns. *)
Definition handler : Type := heap -> value -> value -> props.

(* ===================================================================== *)
(** ** Slice descriptors and the StrictRedux instance                     *)
(* ===================================================================== *)

Definition SliceSeparator : ascii := "_"%char.
Definition QuerySeparator : ascii := ","%char.

(** The [sliceDescriptor] namespace of the source. *)
Record sliceDescriptor : Type := mkSlice {
  sliceName : string;
  initialState : loc;
  actionReducers : list (string * handler);
  createSelectors : option (selectApi -> selectApi -> list (string * selectorFn))
}.

(** The function made by [_createBoundAction(type)], with the [type]
    property that [_registerStateSlice] attaches to it. *)
Record boundAction : Type := mkBoundAction {
  boundType : string;
  typeProperty : string
}.

(** The function stored at [this._selectors[fullName]]: it captures
    [sliceName], [sliceSelectorName] and [allSelectors]. *)
Record selectorFunction : Type := mkSelectorFunction {
  capturedSliceName : string;
  capturedSelectorName : string;
  underlying : selectorFn
}.

(** A registry entry: the function and its [prevState] property. *)
Record selectorEntry : Type := mkSelectorEntry {
  fn : selectorFunction;
  prevState : value
}.

(** The fields set by the constructor.  [_reducers] holds the descriptor
    each reducer closes over; [_store] is [None] while it is still the
    empty placeholder object and holds Redux's [currentState] once the
    store is created. *)
Record StrictRedux : Type := mkStrictRedux {
  _selectors : list (string * selectorEntry);
  _reducers : list (string * sliceDescriptor);
  _actionCreators : list (string * boundAction);
  _store : option value
}.

Record world : Type := mkWorld {
  mem : heap;
  this : StrictRedux
}.

Definition M (A : Type) : Type := world -> outcome A * world.

Definition ret {A : Type} (a : A) : M A := fun w => (Ok a, w).

Definition bind {A B : Type} (c : M A) (k : A -> M B) : M B :=
  fun w =>
    match c w with
    | (Ok a, w') => k a w'
    | (Throw e, w') => (Throw e, w')
    | (Timeout, w') => (Timeout, w')
    end.

Definition lift {A : Type} (r : outcome A) : M A := fun w => (r, w).

Declare Scope js_scope.
Delimit Scope js_scope with js.
Notation "x <- c ;; k" := (bind c (fun x => k))
  (at level 61, c at next level, right associativity) : js_scope.
Open Scope js_scope.

(** [new] for an object literal. *)
Definition new (p : props) : M value :=
  fun w =>
    let '(l, m') := alloc (plain p) (mem w) in
    (Ok (VObj l), {| mem := m'; this := this w |}).

Definition read (o : value) (k : string) : M value :=
  fun w => (getprop (mem w) o k, w).

Definition fullNameOf (slice name : string) : string :=
  slice ++ String SliceSeparator name.

(* ===================================================================== *)
(** ** Reducers and bound actions                                         *)
(* ===================================================================== *)

(** [action.type.split(SliceSeparator)[1]], used as a property key:
    [undefined] names the property ["undefined"]. *)
Definition sliceActionTypeOf (actionType : string) : string :=
  match nth_error (split actionType SliceSeparator) 1 with
  | Some k => k
  | None => "undefined"
  end.

(** The first test of the reducer: the type is a key of
    [_actionCreators] or starts with ["@@"]. *)
Definition knownType (t : StrictRedux) (actionType : string) : bool :=
  arrayIncludes (keys (_actionCreators t)) actionType || startsWith actionType "@@".

(** The second test: the handler the reducer applies, if any.  The
    lookup [sliceDescriptor.actionReducers[sliceActionType]] is the one
    of an own property: for a segment that is a name of
    [Object.prototype] the source finds the inherited function also in a
    slice without such a handler. *)
Definition ownedHandler (d : sliceDescriptor) (actionType : string) : option handler :=
  if startsWith actionType (sliceName d)
  then lookup (sliceActionTypeOf actionType) (actionReducers d)
  else None.

(** The default parameter [state = sliceDescriptor.initialState]. *)
Definition stateOrInitial (d : sliceDescriptor) (stateArg : value) : value :=
  match stateArg with
  | VUndefined => VObj (initialState d)
  | _ => stateArg
  end.

(** [_createReducer = (sliceDescriptor) =>
      (state = sliceDescriptor.initialState, action) => ...] *)
Definition _createReducer (d : sliceDescriptor) (stateArg action : value) : M value :=
  let state := stateOrInitial d stateArg in
  ty <- read action "type" ;;
  match ty with
  | VStr actionType =>
      fun w =>
        if negb (knownType (this w) actionType)
        then (throwError ("Unknown action type " ++ actionType), w)
        else
          match ownedHandler d actionType with
          | Some h =>
              (payload <- read action "payload" ;;
               fun w' => new (assign (ownProps (mem w') state) (h (mem w') state payload)) w') w
          | None => (Ok state, w)
          end
  | _ => lift (Throw TypeError)
  end.

(** The reducer of the compiled build kept beside the source
    ([src/unnamed/part_001], lines 250-267).  It differs from the source
    in one argument: the handler is called with the action itself. *)
Module Compiled.

Definition _createReducer (d : sliceDescriptor) (stateArg action : value) : M value :=
  let state := stateOrInitial d stateArg in
  ty <- read action "type" ;;
  match ty with
  | VStr actionType =>
      fun w =>
        if negb (knownType (this w) actionType)
        then (throwError ("Unknown action type " ++ actionType), w)
        else
          match ownedHandler d actionType with
          | Some h =>
              new (assign (ownProps (mem w) state) (h (mem w) state action)) w
          | None => (Ok state, w)
          end
  | _ => lift (Throw TypeError)
  end.

End Compiled.

(** Modelled from the spec: Redux's [combineReducers], an external library
    that is not under [src/].  The slice reducers are combined "into a
    single top-level reducer keyed by slice name"; this is its loop over
    the reducer keys, as Redux runs it: each reducer gets the entry of its
    key, its result becomes the entry of the next state, and a reducer
    that returns [undefined] makes Redux throw. *)
Fixpoint combineLoop (reducers : list (string * sliceDescriptor))
    (state action : value) (nextState : props) (hasChanged : bool) : M (props * bool) :=
  match reducers with
  | [] => ret (nextState, hasChanged)
  | (key, d) :: rest =>
      previousStateForKey <- read state key ;;
      nextStateForKey <- _createReducer d previousStateForKey action ;;
      match nextStateForKey with
      | VUndefined => lift (throwError "Reducer returned undefined")
      | _ =>
          combineLoop rest state action (set key nextStateForKey nextState)
            (hasChanged || negb (strict_eq nextStateForKey previousStateForKey))
      end
  end.

(** Modelled from the spec: Redux's combined reducer
    [combination(state = {}, action)], not under [src/].  It returns the
    previous state object when no slice returned a new reference (the
    "change-detection by the host store" the slices keep their references
    for), and a new object otherwise. *)
Definition combination (reducers : list (string * sliceDescriptor))
    (stateArg action : value) : M value :=
  state <- match stateArg with
           | VUndefined => new []
           | _ => ret stateArg
           end ;;
  r <- combineLoop reducers state action [] false ;;
  if snd r then new (fst r) else ret state.

(** Modelled from the spec: Redux's [store.getState()], not under [src/],
    reached through [this._store]: "the current whole-state snapshot". *)
Definition getState : M value :=
  fun w =>
    match _store (this w) with
    | Some s => (Ok s, w)
    | None => (Throw TypeError, w)
    end.

(** Redux's assignment [currentState = currentReducer(currentState, action)]. *)
Definition setStore (s : value) : M unit :=
  fun w =>
    (Ok tt, {| mem := mem w;
               this := {| _selectors := _selectors (this w);
                          _reducers := _reducers (this w);
                          _actionCreators := _actionCreators (this w);
                          _store := Some s |} |}).

(** Modelled from the spec: Redux's [store.dispatch(action)], not under
    [src/], for a store without middleware.  The root reducer runs to
    completion on the current state; an error raised inside a reducer
    comes out of [dispatch] ("the underlying store surfaces [it]
    synchronously during dispatch") and the state is replaced only when
    the reducer returns; the action is the result. *)
Definition dispatch (action : value) : M value :=
  currentState <- getState ;;
  match action with
  | VObj _ =>
      ty <- read action "type" ;;
      match ty with
      | VUndefined => lift (throwError "Actions may not have an undefined type property")
      | _ =>
          fun w =>
            (next <- combination (_reducers (this w)) currentState action ;;
             _ <- setStore next ;;
             ret action) w
      end
  | _ => lift (throwError "Actions must be plain objects")
  end.

(** [_createBoundAction = (type) => (payload, meta) => ...] *)
Definition actionProps (m : heap) (type : string) (payload meta : value) : props :=
  let action := [("type", VStr type); ("payload", payload)] in
  let action := if truthy meta then set "meta" meta action else action in
  if truthy payload && (instanceofError m payload || prototypeInstanceofError m payload)
  then set "error" (VBool true) action
  else action.

Definition _createBoundAction (dispatchFn : value -> M value) (type : string)
    (payload meta : value) : M value :=
  fun w =>
    (action <- new (actionProps (mem w) type payload meta) ;;
     dispatchFn action) w.

(** Calling a registered action creator. *)
Definition callAction (a : boundAction) (payload meta : value) : M value :=
  _createBoundAction dispatch (boundType a) payload meta.

(* ===================================================================== *)
(** ** Selectors                                                          *)
(* ===================================================================== *)

(** [stateSlice => stateSlice[stateProperty]] *)
Definition defaultSelector (stateProperty : string) : selectorFn :=
  fun stateSlice _ => Get stateSlice stateProperty Return.

(** [function createDefaultSelectors (sliceDescriptor)]: one getter per
    key of the initial state. *)
Definition createDefaultSelectors (m : heap) (d : sliceDescriptor) : list (string * selectorFn) :=
  fold_left
    (fun acc stateProperty => set stateProperty (defaultSelector stateProperty) acc)
    (keys (ownProps m (VObj (initialState d))))
    [].

(** [allSelectors] of [_createSelectors]: the factory, when there is one,
    receives [this.select] and [this.selectOne]. *)
Definition allSelectorsOf (m : heap) (d : sliceDescriptor) : list (string * selectorFn) :=
  let defaultSelectors := createDefaultSelectors m d in
  match createSelectors d with
  | Some factory => assign defaultSelectors (factory CallSelect CallSelectOne)
  | None => defaultSelectors
  end.

(** A new selector function, closed over the slice name, the selector
    key and the selector; it has no [prevState] yet. *)
Definition freshEntry (slice key : string) (f : selectorFn) : selectorEntry :=
  {| fn := {| capturedSliceName := slice; capturedSelectorName := key; underlying := f |};
     prevState := VUndefined |}.

(** The [forEach] of [_createSelectors]: every key of [allSelectors]
    gets a new function under its full name. *)
Definition registerSelectors (slice : string) (allSelectors : list (string * selectorFn))
    (registry : list (string * selectorEntry)) : list (string * selectorEntry) :=
  fold_left
    (fun acc sliceSelectorName =>
       match lookup sliceSelectorName allSelectors with
       | Some f => set (fullNameOf slice sliceSelectorName)
                     (freshEntry slice sliceSelectorName f) acc
       | None => acc
       end)
    (keys allSelectors)
    registry.

Definition _createSelectors (d : sliceDescriptor) (w : world) : world :=
  {| mem := mem w;
     this := {| _selectors := registerSelectors (sliceName d) (allSelectorsOf (mem w) d)
                                (_selectors (this w));
                _reducers := _reducers (this w);
                _actionCreators := _actionCreators (this w);
                _store := _store (this w) |} |}.

(** [this._selectors[fullName].prevState = state] *)
Fixpoint setPrevState (fullName : string) (state : value)
    (registry : list (string * selectorEntry)) : list (string * selectorEntry) :=
  match registry with
  | [] => []
  | (k, e) :: rest =>
      if k =? fullName
      then (k, {| fn := fn e; prevState := state |}) :: rest
      else (k, e) :: setPrevState fullName state rest
  end.

Definition writePrevState (fullName : string) (state : value) : M unit :=
  fun w =>
    (Ok tt, {| mem := mem w;
               this := {| _selectors := setPrevState fullName state (_selectors (this w));
                          _reducers := _reducers (this w);
                          _actionCreators := _actionCreators (this w);
                          _store := _store (this w) |} |}).

(** The first half of a selector function: the state it reads, the memo
    test, the slice it hands on, and the memo update.
<<
    const state = maybeState || this._store.getState()
    const stateSlice = (this._selectors[fullName].prevState === state)
      ? state[sliceName] : { ...state[sliceName] }
    this._selectors[fullName].prevState = state
>> *)
Definition stateSliceFor (f : selectorFunction) (maybeState : value) : M value :=
  let fullName := fullNameOf (capturedSliceName f) (capturedSelectorName f) in
  state <- (if truthy maybeState then ret maybeState else getState) ;;
  fun w =>
    match lookup fullName (_selectors (this w)) with
    | None => (Throw TypeError, w)
    | Some entry =>
        (slice <- read state (capturedSliceName f) ;;
         stateSlice <- (if strict_eq (prevState entry) state
                        then ret slice
                        else fun w' => new (ownProps (mem w') slice) w') ;;
         _ <- writePrevState fullName state ;;
         ret stateSlice) w
    end.

(** What runs the body of a selector. *)
Definition runner : Type := code -> M value.

(** The function stored at [this._selectors[fullName]]:
    [(options, maybeState) => ... allSelectors[sliceSelectorName](stateSlice, options)]. *)
Definition callSelector (run : runner) (f : selectorFunction) (options maybeState : value) : M value :=
  stateSlice <- stateSliceFor f maybeState ;;
  run (underlying f stateSlice options).

(* ===================================================================== *)
(** ** The query router                                                   *)
(* ===================================================================== *)

(** The two registries a query can address. *)
Inductive propertyName : Type :=
| Selectors
| ActionCreators.

Definition propertyNameString (p : propertyName) : string :=
  match p with
  | Selectors => "_selectors"
  | ActionCreators => "_actionCreators"
  end.

(** [Object.keys(this[propertyName])] *)
Definition registryKeys (t : StrictRedux) (p : propertyName) : list string :=
  match p with
  | Selectors => keys (_selectors t)
  | ActionCreators => keys (_actionCreators t)
  end.

(** Whether [this[propertyName][name]] is truthy: a registered function
    is, and so is the member of [Object.prototype] that the registry, a
    plain object, inherits under [name] when it has no such property of
    its own. *)
Definition registryHas (t : StrictRedux) (p : propertyName) (name : string) : bool :=
  match p with
  | Selectors =>
      match lookup name (_selectors t) with Some _ => true | None => inherited name end
  | ActionCreators =>
      match lookup name (_actionCreators t) with Some _ => true | None => inherited name end
  end.

(** The names one clause contributes. *)
Definition clauseNames (t : StrictRedux) (p : propertyName) (queryClause : string) : list string :=
  if negb (includes queryClause SliceSeparator)
  then filter (fun fieldName => startsWith fieldName queryClause) (registryKeys t p)
  else if registryHas t p queryClause then [queryClause] else [].

Definition badQueryMessage (p : propertyName) (queryString queryClause : string) : string :=
  "Bad store query " ++ propertyNameString p ++ ": " ++ queryString
    ++ ". Could not resolve " ++ queryClause.

(** [_normalizeQuery = (queryString, propertyName) => ...] for a string
    [queryString]; the [reduce] stops at the first clause that throws. *)
Definition _normalizeQuery (t : StrictRedux) (queryString : string) (p : propertyName)
    : outcome (list string) :=
  fold_left
    (fun acc queryPart =>
       match acc with
       | Ok acc =>
           let queryClause := trim queryPart in
           let names := clauseNames t p queryClause in
           match names with
           | [] => throwError (badQueryMessage p queryString queryClause)
           | _ => Ok (acc ++ names)
           end
       | failed => failed
       end)
    (split queryString QuerySeparator)
    (Ok []).

(* ===================================================================== *)
(** ** The public methods                                                 *)
(* ===================================================================== *)

(** [getSelector = (selectorName) =>
      this._selectors[selectorName] || throwError(...)], for a name that
    is not inherited from [Object.prototype]: under an inherited name the
    source returns the inherited member and does not throw. *)
Definition getSelector (t : StrictRedux) (selectorName : string) : outcome selectorFunction :=
  match lookup selectorName (_selectors t) with
  | Some e => Ok (fn e)
  | None => throwError ("Selector " ++ selectorName ++ " not found")
  end.

(** [getSelectors]: the object built by the [reduce], a property per
    resolved name holding [this._selectors[selectorName]]: the registered
    function, or [None] for the member of [Object.prototype] that a clause
    such as [__proto__] resolved to. *)
Definition getSelectors (t : StrictRedux) (queryString : string)
    : outcome (list (string * option selectorFunction)) :=
  match _normalizeQuery t queryString Selectors with
  | Ok names =>
      Ok (fold_left
            (fun acc selectorName =>
               set selectorName (option_map fn (lookup selectorName (_selectors t))) acc)
            names [])
  | Throw e => Throw e
  | Timeout => Timeout
  end.

(** [selectOne = (selectorName, options, state) =>
      this.getSelector(selectorName)(options, state)] *)
Definition selectOne (run : runner) (selectorName : string) (options state : value) : M value :=
  fun w =>
    match getSelector (this w) selectorName with
    | Ok f => callSelector run f options state w
    | Throw e => (Throw e, w)
    | Timeout => (Timeout, w)
    end.

(** [selectors[name](options, state)] when the property holds a member
    of [Object.prototype] and no selector: [__lookupGetter__] and
    [__lookupSetter__] look for an accessor property named by [options]
    and return [undefined] when there is none; [__defineGetter__] and
    [__defineSetter__] throw a [TypeError] since [state] is not a
    function, and so does the call of [__proto__], which reads as an
    object.  (The one accessor in reach of the first two is [__proto__]
    itself, for [options] equal to that name; the function they return
    then has no counterpart among the values modelled.) *)
Definition callInherited (name : string) : outcome value :=
  if (name =? "__lookupGetter__") || (name =? "__lookupSetter__")
  then Ok VUndefined
  else Throw TypeError.

(** The [reduce] of [select] over [Object.keys(selectors)]; each step
    builds [{ ...acc, [name]: selectors[name](options, state) }]. *)
Fixpoint selectLoop (run : runner) (selectors : list (string * option selectorFunction))
    (names : list string) (options state : value) (acc : value) : M value :=
  match names with
  | [] => ret acc
  | name :: rest =>
      v <- match lookup name selectors with
           | Some (Some f) => callSelector run f options state
           | Some None => lift (callInherited name)
           | None => lift (Throw TypeError)
           end ;;
      acc' <- (fun w => new (set name v (ownProps (mem w) acc)) w) ;;
      selectLoop run selectors rest options state acc'
  end.

Definition select (run : runner) (queryString : string) (options state : value) : M value :=
  fun w =>
    match getSelectors (this w) queryString with
    | Ok selectors =>
        (acc <- new [] ;;
         selectLoop run selectors (keys selectors) options state acc) w
    | Throw e => (Throw e, w)
    | Timeout => (Timeout, w)
    end.

(** Running the body of a selector.  [fuel] bounds the nesting of
    selector calls and property reads. *)
Fixpoint run (fuel : nat) (c : code) : M value :=
  match fuel with
  | 0 => lift Timeout
  | S fuel' =>
      match c with
      | Return v => ret v
      | Raise e => lift (Throw e)
      | Get o k cont => v <- read o k ;; run fuel' (cont v)
      | CallSelectOne selectorName options state cont =>
          v <- selectOne (run fuel') selectorName options state ;; run fuel' (cont v)
      | CallSelect queryString options state cont =>
          v <- select (run fuel') queryString options state ;; run fuel' (cont v)
      end
  end.

(** [getAction = (actionName) =>
      this._actionCreators[actionName] || throwError(...)], for a name that
    is not inherited from [Object.prototype]: under an inherited name the
    source returns the inherited member and does not throw. *)
Definition getAction (t : StrictRedux) (actionName : string) : outcome boundAction :=
  match lookup actionName (_actionCreators t) with
  | Some a => Ok a
  | None => throwError ("Action " ++ actionName ++ " not found")
  end.

(** [getActions]: a property per resolved name holding
    [this._actionCreators[name]]: the registered function, or [None] for
    the member of [Object.prototype] that a clause such as [__proto__]
    resolved to. *)
Definition getActions (t : StrictRedux) (queryString : string)
    : outcome (list (string * option boundAction)) :=
  match _normalizeQuery t queryString ActionCreators with
  | Ok names =>
      Ok (fold_left
            (fun acc name => set name (lookup name (_actionCreators t)) acc)
            names [])
  | Throw e => Throw e
  | Timeout => Timeout
  end.

(** [createMapStateToProps = queryString => (state, ownProps) =>
      this.select(queryString, ownProps, state)] *)
Definition createMapStateToProps (run : runner) (queryString : string)
    : value -> value -> M value :=
  fun state ownProps => select run queryString ownProps state.

(** [createMapDispatchToProps = queryString => () => this.getActions(queryString)] *)
Definition createMapDispatchToProps (queryString : string)
    : StrictRedux -> outcome (list (string * option boundAction)) :=
  fun t => getActions t queryString.

(** ToString of a value, as a template literal and a property key use
    it; objects print as plain objects do. *)
Definition toString (v : value) : string :=
  match v with
  | VUndefined => "undefined"
  | VNull => "null"
  | VBool true => "true"
  | VBool false => "false"
  | VNum n => NilZero.string_of_int (Z.to_int n)
  | VStr s => s
  | VObj _ => "[object Object]"
  end.

(** [strictDispatch = (action) =>
      this.getAction(action.type)(action.payload, action.meta)] *)
Definition strictDispatch (action : value) : M value :=
  ty <- read action "type" ;;
  fun w =>
    match getAction (this w) (toString ty) with
    | Ok a =>
        (payload <- read action "payload" ;;
         meta <- read action "meta" ;;
         callAction a payload meta) w
    | Throw e => (Throw e, w)
    | Timeout => (Timeout, w)
    end.

(** [getActionTypes = (queryString) => ...]; [None] is the omitted
    argument, and the empty string is falsy as well. *)
Definition getActionTypes (t : StrictRedux) (queryString : option string)
    : outcome (list (string * string)) :=
  let asTypes := fun names => fold_left (fun acc name => set name name acc) names [] in
  match queryString with
  | Some (String a q) =>
      match _normalizeQuery t (String a q) ActionCreators with
      | Ok names => Ok (asTypes names)
      | Throw e => Throw e
      | Timeout => Timeout
      end
  | _ => Ok (asTypes (keys (_actionCreators t)))
  end.

(** [getStore = () => this._store] *)
Definition getStore (t : StrictRedux) : option value := _store t.

(* ===================================================================== *)
(** ** Construction                                                       *)
(* ===================================================================== *)

(** The [forEach] over [Object.keys(sliceDescriptor.actionReducers)]. *)
Definition registerActions (slice : string) (actionNames : list string)
    (registry : list (string * boundAction)) : list (string * boundAction) :=
  fold_left
    (fun acc actionName =>
       let fullName := fullNameOf slice actionName in
       set fullName {| boundType := fullName; typeProperty := fullName |} acc)
    actionNames registry.

Definition _registerStateSlice (d : sliceDescriptor) (w : world) : world :=
  _createSelectors d
    {| mem := mem w;
       this := {| _selectors := _selectors (this w);
                  _reducers := set (sliceName d) d (_reducers (this w));
                  _actionCreators := registerActions (sliceName d) (keys (actionReducers d))
                                       (_actionCreators (this w));
                  _store := _store (this w) |} |}.

(** Modelled from the spec: the type of Redux's "store-internal bootstrap
    action", which starts with the reserved prefix ["@@"]. *)
Definition reduxInit : string := "@@redux/INIT".

(** Modelled from the spec: Redux's
    [createStore(combineReducers(this._reducers), middleware)], not under
    [src/], with no middleware: the state starts undefined and the
    bootstrap action is dispatched once.  (The calls by which
    [combineReducers] probes each reducer use types that start with ["@@"]
    as well; what they return is dropped.) *)
Definition createStore : M unit :=
  action <- new [("type", VStr reduxInit)] ;;
  fun w =>
    (next <- combination (_reducers (this w)) VUndefined action ;;
     setStore next) w.

(** [_buildStore] with the default [middlewareFactories = []] and no
    development tools in the host. *)
Definition _buildStore (slices : list sliceDescriptor) : M unit :=
  fun w => createStore (fold_left (fun w' slice => _registerStateSlice slice w') slices w).

(** The fields as the constructor first sets them:
    [{ _selectors: {}, _reducers: {}, _actionCreators: {}, _store: {} }]. *)
Definition blank (m : heap) : world :=
  {| mem := m;
     this := {| _selectors := []; _reducers := []; _actionCreators := []; _store := None |} |}.

(** [new StrictRedux(slices)], in a heap that holds the initial states. *)
Definition construct (slices : list sliceDescriptor) (m : heap) : outcome unit * world :=
  _buildStore slices (blank m).

(** [getAction(name)(payload)] *)
Definition dispatchNamed (name : string) (payload : value) : M value :=
  fun w =>
    match getAction (this w) name with
    | Ok a => callAction a payload VUndefined w
    | Throw e => (Throw e, w)
    | Timeout => (Timeout, w)
    end.

(** A call of a public method after construction. *)
Inductive call : Type :=
| GetSelector (selectorName : string)
| GetSelectors (queryString : string)
| Select (queryString : string) (options state : value)
| SelectOne (selectorName : string) (options state : value)
| GetAction (actionName : string)
| GetActions (queryString : string)
| StrictDispatch (action : value)
| GetActionTypes (queryString : option string)
| MapStateToProps (queryString : string) (state componentProps : value)
| MapDispatchToProps (queryString : string).

(** What a call hands back. *)
Inductive returned : Type :=
| RSelector (r : outcome selectorFunction)
| RSelectors (r : outcome (list (string * option selectorFunction)))
| RValue (r : outcome value)
| RAction (r : outcome boundAction)
| RActions (r : outcome (list (string * option boundAction)))
| RTypes (r : outcome (list (string * string))).

Definition perform (fuel : nat) (c : call) (w : world) : returned * world :=
  match c with
  | GetSelector selectorName => (RSelector (getSelector (this w) selectorName), w)
  | GetSelectors queryString => (RSelectors (getSelectors (this w) queryString), w)
  | Select queryString options state =>
      let '(r, w') := select (run fuel) queryString options state w in (RValue r, w')
  | SelectOne selectorName options state =>
      let '(r, w') := selectOne (run fuel) selectorName options state w in (RValue r, w')
  | GetAction actionName => (RAction (getAction (this w) actionName), w)
  | GetActions queryString => (RActions (getActions (this w) queryString), w)
  | StrictDispatch action =>
      let '(r, w') := strictDispatch action w in (RValue r, w')
  | GetActionTypes queryString => (RTypes (getActionTypes (this w) queryString), w)
  | MapStateToProps queryString state componentProps =>
      let '(r, w') :=
        createMapStateToProps (run fuel) queryString state componentProps w in
      (RValue r, w')
  | MapDispatchToProps queryString =>
      (RActions (createMapDispatchToProps queryString (this w)), w)
  end.

(** The world after a sequence of calls. *)
Definition performAll (fuel : nat) (calls : list call) (w : world) : world :=
  fold_left (fun w' c => snd (perform fuel c w')) calls w.

(* ===================================================================== *)
(** ** Example slices                                                     *)
(* ===================================================================== *)

Module Examples.

(** [a + b]: the sum of two numbers; the concatenation of the strings of
    the operands when one of them is a string or an object.  The numeric
    coercion of the other primitives is left out ([undefined]). *)
Definition plus (a b : value) : value :=
  match a, b with
  | VNum x, VNum y => VNum (x + y)
  | VStr _, _ | _, VStr _ | VObj _, _ | _, VObj _ => VStr (toString a ++ toString b)
  | _, _ => VUndefined
  end.

Definition member (m : heap) (o : value) (k : string) : value :=
  match getprop m o k with
  | Ok v => v
  | _ => VUndefined
  end.

(** [increment: (state, payload) => ({ value: state.value + payload })] *)
Definition increment : handler :=
  fun m state payload => [("value", plus (member m state "value") payload)].

(** The heap the example descriptors point into:
    0: [{ value: 0 }], 1: [{ x: 1 }], 2: [{ y: 2 }], 3: [{ a: 1, b: 2 }]. *)
Definition heap0 : heap :=
  [ plain [("value", VNum 0)];
    plain [("x", VNum 1)];
    plain [("y", VNum 2)];
    plain [("a", VNum 1); ("b", VNum 2)] ].

Definition counter : sliceDescriptor :=
  {| sliceName := "counter";
     initialState := 0;
     actionReducers := [("increment", increment)];
     createSelectors := None |}.

(** [x: (state, payload) => ({ x: payload })] *)
Definition setX : handler := fun _ _ payload => [("x", payload)].

(** Two slices, the name of the first a prefix of the name of the second,
    with a handler under the same key. *)
Definition sliceA : sliceDescriptor :=
  {| sliceName := "a";
     initialState := 1;
     actionReducers := [("x", setX)];
     createSelectors := None |}.

Definition sliceAB : sliceDescriptor :=
  {| sliceName := "ab";
     initialState := 2;
     actionReducers := [("x", setX)];
     createSelectors := None |}.

(** A slice whose only handler key contains the separator. *)
Definition sliceU : sliceDescriptor :=
  {| sliceName := "s";
     initialState := 1;
     actionReducers := [("a_b", setX)];
     createSelectors := None |}.

Definition sliceB : sliceDescriptor :=
  {| sliceName := "b";
     initialState := 2;
     actionReducers := [("y", fun _ _ payload => [("y", payload)])];
     createSelectors := None |}.


Definition sliceP : sliceDescriptor :=
  {| sliceName := "slice";
     initialState := 3;
     actionReducers := [];
     createSelectors := None |}.

(** The world after [new StrictRedux(slices)]. *)
Definition built (slices : list sliceDescriptor) : world := snd (construct slices heap0).

Definition counterWorld : world := built [counter].

(** The function registered as [counter_value]. *)
Definition counterValue : selectorFunction :=
  {| capturedSliceName := "counter";
     capturedSelectorName := "value";
     underlying := defaultSelector "value" |}.

(** The counter after [counter_increment] was dispatched twice with 5. *)
Definition afterTwoIncrements : world :=
  snd (dispatchNamed "counter_increment" (VNum 5)
         (snd (dispatchNamed "counter_increment" (VNum 5) counterWorld))).


(** The counter world with the action
    [{ type: "counter_increment", payload: 5 }] in its heap, at address 7. *)
Definition incrementWorld : world :=
  snd (new [("type", VStr "counter_increment"); ("payload", VNum 5)] counterWorld).

(** Slices [a] and [b] with the action [{ type: "a_nonexistent" }] in
    the heap, at address 7. *)
Definition unknownWorld : world :=
  snd (new [("type", VStr "a_nonexistent")] (built [sliceA; sliceB])).

(** Slices [a] and [b] with the action [{ type: "a_x", payload: 7 }] in
    the heap, at address 7. *)
Definition routedWorld : world :=
  snd (new [("type", VStr "a_x"); ("payload", VNum 7)] (built [sliceA; sliceB])).


(** The slice [s], whose handler key contains the separator, with the
    action [{ type: "s_a_b", payload: 7 }] in the heap, at address 7. *)
Definition slipWorld : world :=
  snd (new [("type", VStr "s_a_b"); ("payload", VNum 7)] (built [sliceU])).

(** The query [a,b_y] written over two lines, with indentation: a line
    feed and a tab after the comma. *)
Definition multiline : string :=
  " a ," ++ String (ascii_of_nat 10) (String (ascii_of_nat 9) "b_y  ").

(** The getters of the properties [a] and [b] of the slice [slice]. *)
Definition sliceGetter (k : string) : selectorFunction :=
  {| capturedSliceName := "slice"; capturedSelectorName := k; underlying := defaultSelector k |}.

End Examples.

(* ===================================================================== *)
(** ** Specification-level definitions                                    *)
(* ===================================================================== *)

(** A string begins, or ends, with a white-space character. *)
Definition startsWithSpace (s : string) : bool :=
  match s with
  | EmptyString => false
  | String a _ => isWhiteSpace a
  end.

Fixpoint endsWithSpace (s : string) : bool :=
  match s with
  | EmptyString => false
  | String a EmptyString => isWhiteSpace a
  | String _ s' => endsWithSpace s'
  end.

(** The clauses of a query: the comma-separated pieces, each trimmed. *)
Definition clausesOf (queryString : string) : list string :=
  map trim (split queryString QuerySeparator).

Definition isEmpty {A : Type} (l : list A) : bool :=
  match l with
  | [] => true
  | _ => false
  end.

(** Query resolution in the words of the specification: the first clause
    that resolves to no name raises the error naming it and the query;
    otherwise the names of all the clauses, in order. *)
Definition resolveQuery_spec (t : StrictRedux) (queryString : string) (p : propertyName)
    : outcome (list string) :=
  match find (fun clause => isEmpty (clauseNames t p clause)) (clausesOf queryString) with
  | Some clause => throwError (badQueryMessage p queryString clause)
  | None => Ok (flat_map (clauseNames t p) (clausesOf queryString))
  end.

(** [s] occurs inside [message]. *)
Definition mentions (message s : string) : Prop :=
  exists before after, message = (before ++ s ++ after)%string.

(** What a registry of selectors holds apart from the memos: the names
    and the function bound to each. *)
Definition selectorShape (registry : list (string * selectorEntry))
    : list (string * selectorFunction) :=
  map (fun e => (fst e, fn (snd e))) registry.

(** The heap only grows. *)
Definition extends (m m' : heap) : Prop := exists extra, m' = m ++ extra.

(** The registries hold the same names and the same functions. *)
Definition sameRegistry (t t' : StrictRedux) : Prop :=
  _actionCreators t' = _actionCreators t /\
  _reducers t' = _reducers t /\
  selectorShape (_selectors t') = selectorShape (_selectors t).

Definition evolves (w w' : world) : Prop :=
  extends (mem w) (mem w') /\ sameRegistry (this w) (this w').

(** A computation keeps a relation between the world it starts in and
    the world it leaves, however it ends. *)
Definition keeps (R : world -> world -> Prop) {A : Type} (c : M A) : Prop :=
  forall w, R w (snd (c w)).

(** A computation that leaves the registries as they are, and every
    allocated object in place. *)
Definition preserves {A : Type} (c : M A) : Prop := keeps evolves c.

(** The same, and the state of the store is left alone as well. *)
Definition quiet (w w' : world) : Prop :=
  evolves w w' /\ _store (this w') = _store (this w).

(** Every action creator is bound to the type it is registered under. *)
Definition boundToNames (t : StrictRedux) : Prop :=
  forall k a, lookup k (_actionCreators t) = Some a -> boundType a = k.

(** The address is allocated. *)
Definition allocated (m : heap) (v : value) : Prop :=
  match v with
  | VObj l => l < length m
  | _ => True
  end.

(** The full name under which a selector function is registered. *)
Definition registeredName (f : selectorFunction) : string :=
  fullNameOf (capturedSliceName f) (capturedSelectorName f).

(** The [prevState] memo of a selector function. *)
Definition memoOf (w : world) (f : selectorFunction) : option value :=
  option_map prevState (lookup (registeredName f) (_selectors (this w))).

(** The whole state a selector call works on:
    [maybeState || this._store.getState()]. *)
Definition stateSeen (maybeState : value) (w : world) : option value :=
  if truthy maybeState then Some maybeState else _store (this w).

(** The world once [this._selectors[fullName].prevState = state] ran. *)
Definition memoized (f : selectorFunction) (state : value) (w : world) : world :=
  snd (writePrevState (registeredName f) state w).

(** The memoization guard as the specification states its first half:
    two calls in a row on the same whole state hand the same reference
    to the underlying selector. *)
Definition sameStateSameSlice : Prop :=
  forall (f : selectorFunction) (state r1 r2 : value) (w w1 w2 : world),
    stateSliceFor f state w = (Ok r1, w1) ->
    stateSliceFor f state w1 = (Ok r2, w2) ->
    r1 = r2.

(** [o[k]] on the own properties of an object. *)
Definition field (p : props) (k : string) : value :=
  match lookup k p with
  | Some v => v
  | None => VUndefined
  end.

(** [getState()[name]]: the reference the store holds for a slice. *)
Definition sliceRef (w : world) (name : string) : outcome value :=
  match _store (this w) with
  | Some s => getprop (mem w) s name
  | None => Throw TypeError
  end.

(** A world as construction leaves it: the store holds an allocated state
    object with a defined entry for every slice, and no two reducers share
    a key. *)
Definition ready (w : world) : Prop :=
  exists l,
    _store (this w) = Some (VObj l) /\
    l < length (mem w) /\
    NoDup (keys (_reducers (this w))) /\
    forall key,
      In key (keys (_reducers (this w))) ->
      exists v, getprop (mem w) (VObj l) key = Ok v /\ v <> VUndefined.

(** The portion of a string after the first occurrence of a character. *)
Fixpoint afterFirst (s : string) (c : ascii) : option string :=
  match s with
  | EmptyString => None
  | String a s' => if Ascii.eqb a c then Some s' else afterFirst s' c
  end.

(** Ownership as the specification states it: the type starts with the
    name of the slice and the portion after the first separator is a
    handler key of the slice. *)
Definition ownershipBySuffix : Prop :=
  forall (d : sliceDescriptor) (actionType : string),
    ownedHandler d actionType <> None <->
    (startsWith actionType (sliceName d) = true /\
     exists key, afterFirst actionType SliceSeparator = Some key /\
                 In key (keys (actionReducers d))).

(** Routing as the specification states it: dispatching the action of a
    handler key of one slice leaves the reference of every other slice
    as it was. *)
Definition routesOnlyToOwner : Prop :=
  forall (slices : list sliceDescriptor) (m : heap) (d other : sliceDescriptor)
         (key : string) (payload : value),
    In d slices ->
    In other slices ->
    sliceName other <> sliceName d ->
    In key (keys (actionReducers d)) ->
    sliceRef (snd (dispatchNamed (fullNameOf (sliceName d) key) payload
                     (snd (construct slices m))))
      (sliceName other)
    = sliceRef (snd (construct slices m)) (sliceName other).


(* ===================================================================== *)
(** ** Further definitions: construction, dispatch and queries            *)
(* ===================================================================== *)

(** The [forEach] of [_buildStore]: every slice registered, in order. *)
Definition registerAll (slices : list sliceDescriptor) (w : world) : world :=
  fold_left (fun w' slice => _registerStateSlice slice w') slices w.

(** A dispatch leaves the registries as they are, the memos included. *)
Definition sameInstance (w w' : world) : Prop :=
  extends (mem w) (mem w') /\
  _selectors (this w') = _selectors (this w) /\
  _reducers (this w') = _reducers (this w) /\
  _actionCreators (this w') = _actionCreators (this w).

(** A name under which an object holds its own properties only. *)
Definition ownName (name : string) : Prop := ~ In name objectPrototypeNames.


(** Every selector function of the registry was made by [_createSelectors]
    for a key of [allSelectors] of one of the slices, and has no memo. *)
Definition madeFor (slices : list sliceDescriptor) (m : heap)
    (registry : list (string * selectorEntry)) : Prop :=
  forall name e,
    lookup name registry = Some e ->
    exists d key sel,
      In d slices /\ lookup key (allSelectorsOf m d) = Some sel /\
      name = fullNameOf (sliceName d) key /\
      e = freshEntry (sliceName d) key sel.

Definition isDigit (a : ascii) : bool :=
  ((48 <=? nat_of_ascii a) && (nat_of_ascii a <=? 57))%nat.

(** The decimal numerals without a leading zero.  The array indices are
    among them: the property names that [Object.keys] lists first, in
    numeric order, wherever they were inserted. *)
Definition integerLike (name : string) : bool :=
  match name with
  | EmptyString => false
  | String a rest =>
      isDigit a && forallb isDigit (list_ascii_of_string rest)
        && (negb (Ascii.eqb a "0") || (rest =? ""))
  end.

(** A property name that an assignment [o[name] = v] to a plain object
    adds as an own property which [Object.keys] lists in the order of
    insertion: not a numeral, and not [__proto__], the assignment to
    which sets the prototype of [o] instead. *)
Definition ordinaryKey (name : string) : Prop :=
  integerLike name = false /\ name <> "__proto__".

(** A computation that only allocates: the instance is left as it is. *)
Definition allocates (w w' : world) : Prop :=
  extends (mem w) (mem w') /\ this w' = this w.

(** [s'] is [s] with white space added before and after it. *)
Definition paddedPiece (s s' : string) : Prop :=
  exists l r, allWhiteSpace l = true /\ allWhiteSpace r = true /\ s' = (l ++ s ++ r)%string.

(** The state of the store has exactly one entry for every reducer key,
    in the order of the keys. *)
Definition shaped (w : world) : Prop :=
  exists l,
    _store (this w) = Some (VObj l) /\
    l < length (mem w) /\
    keys (ownProps (mem w) (VObj l)) = keys (_reducers (this w)).

(* ===================================================================== *)
(** ** Strings                                                            *)
(* ===================================================================== *)

Lemma split_not_nil (s : string) (c : ascii) : split s c <> [].
Proof.
  destruct s as [|a s]; simpl; [discriminate|].
  destruct (Ascii.eqb a c); [discriminate|].
  destruct (split s c); discriminate.
Qed.

Lemma join_split (s : string) (c : ascii) : join (split s c) c = s.
Proof.
  induction s as [|a s IH]; simpl; [reflexivity|].
  destruct (Ascii.eqb_spec a c) as [->|Hne].
  - pose proof (split_not_nil s c) as Hnil.
    simpl. destruct (split s c) as [|p ps] eqn:E; [contradiction|].
    simpl. f_equal. exact IH.
  - pose proof (split_not_nil s c) as Hnil.
    destruct (split s c) as [|p ps] eqn:E; [contradiction|].
    destruct ps as [|q qs]; simpl in *; rewrite <- IH; reflexivity.
Qed.

Lemma split_pieces_free (s : string) (c : ascii) :
  Forall (fun piece => includes piece c = false) (split s c).
Proof.
  induction s as [|a s IH]; simpl.
  - constructor; [reflexivity|constructor].
  - destruct (Ascii.eqb a c) eqn:E.
    + constructor; [reflexivity|exact IH].
    + destruct (split s c) as [|p ps]; [repeat constructor; simpl; rewrite E; reflexivity|].
      inversion IH; subst. constructor; [simpl; rewrite E; assumption|assumption].
Qed.

Lemma trimStart_trimmed (s : string) : startsWithSpace (trimStart s) = false.
Proof.
  induction s as [|a s IH]; simpl; [reflexivity|].
  destruct (isWhiteSpace a) eqn:E; [exact IH|simpl; exact E].
Qed.

Lemma trimStart_decompose (s : string) :
  exists l, s = (l ++ trimStart s)%string /\ allWhiteSpace l = true.
Proof.
  induction s as [|a s [l [Hl Hw]]]; simpl.
  - exists ""; split; reflexivity.
  - destruct (isWhiteSpace a) eqn:E.
    + exists (String a l). split; [simpl; f_equal; exact Hl|].
      unfold allWhiteSpace in *. simpl. rewrite E. exact Hw.
    + exists "". split; reflexivity.
Qed.

Lemma trimEnd_trimmed (s : string) : endsWithSpace (trimEnd s) = false.
Proof.
  induction s as [|a s IH]; simpl; [reflexivity|].
  destruct (trimEnd s) as [|b t] eqn:E.
  - destruct (isWhiteSpace a) eqn:Ea; simpl; [reflexivity|exact Ea].
  - simpl in *. exact IH.
Qed.

Lemma trimEnd_decompose (s : string) :
  exists r, s = (trimEnd s ++ r)%string /\ allWhiteSpace r = true.
Proof.
  induction s as [|a s [r [Hr Hw]]]; simpl.
  - exists ""; split; reflexivity.
  - destruct (trimEnd s) as [|b t] eqn:E.
    + destruct (isWhiteSpace a) eqn:Ea.
      * exists (String a r). split; [simpl in *; f_equal; exact Hr|].
        unfold allWhiteSpace in *. simpl. rewrite Ea. exact Hw.
      * exists r. split; [simpl; f_equal; exact Hr|exact Hw].
    + exists r. split; [simpl; f_equal; exact Hr|exact Hw].
Qed.

Lemma trimEnd_keeps_start (s : string) :
  startsWithSpace s = false -> startsWithSpace (trimEnd s) = false.
Proof.
  destruct s as [|a s]; simpl; [reflexivity|].
  intros Ha. destruct (trimEnd s); [rewrite Ha|]; simpl; auto.
Qed.

(** [trim] removes white space, and only white space, from both ends. *)
Lemma trim_spec (s : string) :
  startsWithSpace (trim s) = false /\
  endsWithSpace (trim s) = false /\
  exists l r, s = (l ++ trim s ++ r)%string /\ allWhiteSpace l = true /\ allWhiteSpace r = true.
Proof.
  unfold trim. split; [|split].
  - apply trimEnd_keeps_start, trimStart_trimmed.
  - apply trimEnd_trimmed.
  - destruct (trimStart_decompose s) as [l [Hl Hwl]].
    destruct (trimEnd_decompose (trimStart s)) as [r [Hr Hwr]].
    exists l, r. split; [|split; assumption].
    rewrite <- Hr. exact Hl.
Qed.

Lemma append_assoc (a b c : string) : ((a ++ b) ++ c = a ++ (b ++ c))%string.
Proof. induction a; simpl; congruence. Qed.

Lemma append_empty_r (a : string) : (a ++ "")%string = a.
Proof. induction a; simpl; congruence. Qed.


Lemma trim_empty_of_whitespace (s : string) : allWhiteSpace s = true -> trim s = "".
Proof.
  unfold trim, allWhiteSpace. induction s as [|a s IH]; simpl; [reflexivity|].
  intros H. apply andb_prop in H as [Ha Hs]. rewrite Ha. auto.
Qed.

(* ===================================================================== *)
(** ** Objects as association lists                                       *)
(* ===================================================================== *)

Section Assoc.
Context {A : Type}.
Implicit Types (o : list (string * A)) (k : string) (v : A).

Lemma lookup_set_eq k v o : lookup k (set k v o) = Some v.
Proof.
  induction o as [|[k' v'] o IH]; simpl.
  - rewrite String.eqb_refl. reflexivity.
  - destruct (k' =? k) eqn:E; simpl; rewrite E; auto.
Qed.

Lemma lookup_set_ne k k' v o : k <> k' -> lookup k' (set k v o) = lookup k' o.
Proof.
  intros Hne. induction o as [|[k0 v0] o IH]; simpl.
  - destruct (String.eqb_spec k k'); [contradiction|reflexivity].
  - destruct (String.eqb_spec k0 k) as [->|Hk]; simpl.
    + destruct (String.eqb_spec k k'); [contradiction|reflexivity].
    + destruct (k0 =? k'); auto.
Qed.

Lemma lookup_In_keys k o : In k (keys o) <-> lookup k o <> None.
Proof.
  induction o as [|[k' v'] o IH]; simpl.
  - split; [contradiction|congruence].
  - destruct (String.eqb_spec k' k) as [->|Hk].
    + split; [discriminate|auto].
    + rewrite <- IH. split; [intros [H|H]; [contradiction|exact H]|auto].
Qed.

Lemma lookup_Some_In k v o : lookup k o = Some v -> In k (keys o).
Proof. intros H. apply lookup_In_keys. congruence. Qed.


Lemma keys_set_present k v o : In k (keys o) -> keys (set k v o) = keys o.
Proof.
  induction o as [|[k' v'] o IH]; simpl; [contradiction|].
  intros H. destruct (String.eqb_spec k' k) as [->|Hk]; simpl; [reflexivity|].
  f_equal. apply IH. destruct H; [contradiction|assumption].
Qed.

Lemma keys_set_absent k v o : ~ In k (keys o) -> keys (set k v o) = keys o ++ [k].
Proof.
  induction o as [|[k' v'] o IH]; simpl; [reflexivity|].
  intros H. destruct (String.eqb_spec k' k) as [->|Hk]; [exfalso; auto|].
  simpl. f_equal. apply IH. auto.
Qed.

Lemma In_keys_set k k' v o : In k' (keys (set k v o)) <-> k' = k \/ In k' (keys o).
Proof.
  rewrite !lookup_In_keys. destruct (String.eqb_spec k k') as [->|Hne].
  - rewrite lookup_set_eq. split; [auto|discriminate].
  - rewrite lookup_set_ne by assumption. split; [auto|intros [H|H]; [congruence|exact H]].
Qed.

Lemma NoDup_keys_set k v o : NoDup (keys o) -> NoDup (keys (set k v o)).
Proof.
  intros Hnd. destruct (in_dec string_dec k (keys o)) as [Hin|Hout].
  - rewrite keys_set_present; assumption.
  - rewrite keys_set_absent by assumption.
    apply NoDup_app; [assumption|repeat constructor; simpl; tauto|].
    intros x Hx [<-|[]]. contradiction.
Qed.

End Assoc.

Lemma arrayIncludes_In (names : list string) (x : string) :
  arrayIncludes names x = true <-> In x names.
Proof.
  unfold arrayIncludes. rewrite existsb_exists. split.
  - intros [y [Hy E]]. apply String.eqb_eq in E. subst. exact Hy.
  - intros H. exists x. split; [exact H|apply String.eqb_refl].
Qed.

Lemma inherited_In (name : string) : inherited name = true <-> In name objectPrototypeNames.
Proof. apply arrayIncludes_In. Qed.

(** The truthiness test of the query router finds the registered names
    and the names of [Object.prototype], and no other. *)
Lemma registryHas_true (t : StrictRedux) (p : propertyName) (name : string) :
  registryHas t p name = true <->
  In name (registryKeys t p) \/ In name objectPrototypeNames.
Proof.
  rewrite <- inherited_In.
  destruct p; simpl; rewrite lookup_In_keys.
  - destruct (lookup name (_selectors t)).
    + split; [intros _; left; discriminate|reflexivity].
    + split; [auto|intros [H|H]; [congruence|exact H]].
  - destruct (lookup name (_actionCreators t)).
    + split; [intros _; left; discriminate|reflexivity].
    + split; [auto|intros [H|H]; [congruence|exact H]].
Qed.

Lemma registryHas_In (t : StrictRedux) (p : propertyName) (name : string) :
  ownName name ->
  (registryHas t p name = true <-> In name (registryKeys t p)).
Proof.
  intros Hown. rewrite registryHas_true. unfold ownName in Hown. tauto.
Qed.

(* ===================================================================== *)
(** ** The query router                                                   *)
(* ===================================================================== *)

Section Query.
Variables (t : StrictRedux) (p : propertyName) (queryString : string).

(** One step of the [reduce] in [_normalizeQuery]. *)
Let step (acc : outcome (list string)) (queryPart : string) : outcome (list string) :=
  match acc with
  | Ok acc =>
      match clauseNames t p (trim queryPart) with
      | [] => throwError (badQueryMessage p queryString (trim queryPart))
      | _ => Ok (acc ++ clauseNames t p (trim queryPart))
      end
  | failed => failed
  end.

Lemma reduce_failed (pieces : list string) (e : error) :
  fold_left step pieces (Throw e) = Throw e.
Proof. induction pieces; simpl; auto. Qed.

Lemma reduce_resolves (pieces : list string) (acc : list string) :
  fold_left step pieces (Ok acc) =
  match find (fun clause => isEmpty (clauseNames t p clause)) (map trim pieces) with
  | Some clause => throwError (badQueryMessage p queryString clause)
  | None => Ok (acc ++ flat_map (clauseNames t p) (map trim pieces))
  end.
Proof.
  revert acc. induction pieces as [|piece pieces IH]; intros acc; simpl.
  - rewrite app_nil_r. reflexivity.
  - destruct (clauseNames t p (trim piece)) as [|n ns] eqn:E; simpl.
    + apply reduce_failed.
    + rewrite IH. destruct (find _ _); [reflexivity|].
      rewrite <- app_assoc. reflexivity.
Qed.

Lemma normalizeQuery_resolveQuery :
  _normalizeQuery t queryString p = resolveQuery_spec t queryString p.
Proof.
  unfold _normalizeQuery, resolveQuery_spec, clausesOf.
  change (fold_left step (split queryString QuerySeparator) (Ok []) = 
          match find (fun clause => isEmpty (clauseNames t p clause))
                  (map trim (split queryString QuerySeparator)) with
          | Some clause => throwError (badQueryMessage p queryString clause)
          | None => Ok (flat_map (clauseNames t p) (map trim (split queryString QuerySeparator)))
          end).
  rewrite reduce_resolves. reflexivity.
Qed.

Lemma normalizeQuery_never_times_out : _normalizeQuery t queryString p <> Timeout.
Proof.
  rewrite normalizeQuery_resolveQuery. unfold resolveQuery_spec.
  destruct (find _ _); discriminate.
Qed.

Lemma badQueryMessage_mentions (clause : string) :
  mentions (badQueryMessage p queryString clause) clause /\
  mentions (badQueryMessage p queryString clause) queryString.
Proof.
  unfold mentions, badQueryMessage. split.
  - exists ("Bad store query " ++ propertyNameString p ++ ": " ++ queryString
              ++ ". Could not resolve ")%string, ""%string.
    rewrite append_empty_r, !append_assoc. reflexivity.
  - exists ("Bad store query " ++ propertyNameString p ++ ": ")%string,
           (". Could not resolve " ++ clause)%string.
    rewrite !append_assoc. reflexivity.
Qed.
End Query.

(** A clause with a separator is looked up by [this[propertyName][clause]]:
    it resolves to itself when it is registered, and also when it is one
    of the names of [Object.prototype], which the registry inherits; to
    nothing otherwise. *)
Lemma clauseNames_full_name (t : StrictRedux) (p : propertyName) (clause : string) :
  includes clause SliceSeparator = true ->
  (In clause (registryKeys t p) -> clauseNames t p clause = [clause]) /\
  (In clause objectPrototypeNames -> clauseNames t p clause = [clause]) /\
  (~ In clause (registryKeys t p) -> ownName clause -> clauseNames t p clause = []).
Proof.
  intros Hsep. unfold clauseNames. rewrite Hsep. simpl.
  pose proof (registryHas_true t p clause) as Hhas.
  destruct (registryHas t p clause).
  - split; [reflexivity|]. split; [reflexivity|].
    intros Hout Hown. exfalso.
    destruct (proj1 Hhas eq_refl) as [H|H]; [exact (Hout H)|exact (Hown H)].
  - split; [|split; [|reflexivity]]; intros H.
    + assert (E : false = true) by (apply Hhas; left; exact H). discriminate E.
    + assert (E : false = true) by (apply Hhas; right; exact H). discriminate E.
Qed.

Lemma clauseNames_prefix (t : StrictRedux) (p : propertyName) (clause : string) :
  includes clause SliceSeparator = false ->
  clauseNames t p clause =
  filter (fun fieldName => startsWith fieldName clause) (registryKeys t p).
Proof. intros Hsep. unfold clauseNames. rewrite Hsep. reflexivity. Qed.

Lemma getSelectors_throws (t : StrictRedux) (queryString : string) (e : error) :
  _normalizeQuery t queryString Selectors = Throw e ->
  getSelectors t queryString = Throw e.
Proof. intros H. unfold getSelectors. rewrite H. reflexivity. Qed.

Lemma getActions_throws (t : StrictRedux) (queryString : string) (e : error) :
  _normalizeQuery t queryString ActionCreators = Throw e ->
  getActions t queryString = Throw e.
Proof. intros H. unfold getActions. rewrite H. reflexivity. Qed.

Lemma select_throws (run : runner) (queryString : string) (options state : value)
    (w : world) (e : error) :
  _normalizeQuery (this w) queryString Selectors = Throw e ->
  select run queryString options state w = (Throw e, w).
Proof.
  intros H. unfold select. rewrite (getSelectors_throws _ _ _ H). reflexivity.
Qed.

(** C4.  For every string query given to [getSelectors], [getActions] or
    [select]: the query is split on commas and every piece is trimmed of
    the white space around it; a clause that contains the separator
    resolves to exactly that name when it is registered; when it is not
    registered it resolves to nothing, unless it is one of the names of
    [Object.prototype] ([__proto__], [__defineGetter__] and the like),
    which the truthiness test [this[propertyName][queryClause]] finds as
    well and which then resolve to themselves; a clause without a
    separator resolves to every registered name that starts with it; the
    first clause that resolves to no name raises an error whose message
    contains both the clause and the query string, and the three methods
    pass that error on. *)
Theorem C4_query_resolution (t : StrictRedux) (p : propertyName) (queryString : string) :
  (join (split queryString QuerySeparator) QuerySeparator = queryString /\
   Forall (fun piece => includes piece QuerySeparator = false)
     (split queryString QuerySeparator)) /\
  (clausesOf queryString = map trim (split queryString QuerySeparator) /\
   forall piece,
     startsWithSpace (trim piece) = false /\
     endsWithSpace (trim piece) = false /\
     exists l r, piece = (l ++ trim piece ++ r)%string /\
                 allWhiteSpace l = true /\ allWhiteSpace r = true) /\
  (forall clause,
     includes clause SliceSeparator = true ->
     (In clause (registryKeys t p) -> clauseNames t p clause = [clause]) /\
     (In clause objectPrototypeNames -> clauseNames t p clause = [clause]) /\
     (~ In clause (registryKeys t p) -> ownName clause -> clauseNames t p clause = [])) /\
  (forall clause,
     includes clause SliceSeparator = false ->
     clauseNames t p clause =
     filter (fun fieldName => startsWith fieldName clause) (registryKeys t p)) /\
  _normalizeQuery t queryString p = resolveQuery_spec t queryString p /\
  (forall clause,
     mentions (badQueryMessage p queryString clause) clause /\
     mentions (badQueryMessage p queryString clause) queryString) /\
  (forall e,
     _normalizeQuery t queryString Selectors = Throw e ->
     getSelectors t queryString = Throw e /\
     forall run options state w,
       this w = t -> select run queryString options state w = (Throw e, w)) /\
  (forall e,
     _normalizeQuery t queryString ActionCreators = Throw e ->
     getActions t queryString = Throw e).
Proof.
  repeat split.
  - apply join_split.
  - apply split_pieces_free.
  - apply trim_spec.
  - apply trim_spec.
  - apply trim_spec.
  - apply clauseNames_full_name. assumption.
  - apply clauseNames_full_name. assumption.
  - apply clauseNames_full_name. assumption.
  - apply clauseNames_prefix.
  - apply normalizeQuery_resolveQuery.
  - apply badQueryMessage_mentions.
  - apply badQueryMessage_mentions.
  - apply getSelectors_throws. assumption.
  - intros run options state w <-. apply select_throws. assumption.
  - apply getActions_throws.
Qed.

(* ===================================================================== *)
(** ** The heap and the monad                                             *)
(* ===================================================================== *)

Lemma extends_refl (m : heap) : extends m m.
Proof. exists []. symmetry. apply app_nil_r. Qed.

Lemma extends_trans (m1 m2 m3 : heap) : extends m1 m2 -> extends m2 m3 -> extends m1 m3.
Proof. intros [e1 ->] [e2 ->]. exists (e1 ++ e2). symmetry. apply app_assoc. Qed.

Lemma extends_alloc (m : heap) (o : object) : extends m (snd (alloc o m)).
Proof. exists [o]. reflexivity. Qed.

Lemma extends_length (m m' : heap) : extends m m' -> length m <= length m'.
Proof. intros [e ->]. rewrite length_app. lia. Qed.

Lemma extends_nth (m m' : heap) (l : loc) :
  extends m m' -> l < length m -> nth_error m' l = nth_error m l.
Proof. intros [e ->] H. apply nth_error_app1. exact H. Qed.

Lemma extends_ownProps (m m' : heap) (v : value) :
  extends m m' -> allocated m v -> ownProps m' v = ownProps m v.
Proof.
  intros He Ha. destruct v; simpl; try reflexivity.
  rewrite (extends_nth _ _ _ He Ha). reflexivity.
Qed.

Lemma extends_getprop (m m' : heap) (v : value) (k : string) :
  extends m m' -> allocated m v -> getprop m' v k = getprop m v k.
Proof.
  intros He Ha. destruct v; simpl; try reflexivity.
  simpl in Ha. rewrite (extends_nth _ _ _ He Ha). reflexivity.
Qed.

Lemma extends_allocated (m m' : heap) (v : value) :
  extends m m' -> allocated m v -> allocated m' v.
Proof.
  intros He Ha. destruct v; simpl in *; auto.
  pose proof (extends_length _ _ He). lia.
Qed.

Lemma ownProps_alloc (m : heap) (p : props) :
  ownProps (m ++ [plain p]) (VObj (length m)) = p.
Proof. simpl. rewrite nth_error_app2, Nat.sub_diag by lia. reflexivity. Qed.

Lemma sameRegistry_refl (t : StrictRedux) : sameRegistry t t.
Proof. repeat split. Qed.

Lemma sameRegistry_trans (t1 t2 t3 : StrictRedux) :
  sameRegistry t1 t2 -> sameRegistry t2 t3 -> sameRegistry t1 t3.
Proof. intros (A1 & R1 & S1) (A2 & R2 & S2). repeat split; congruence. Qed.

Lemma evolves_refl (w : world) : evolves w w.
Proof. split; [apply extends_refl|apply sameRegistry_refl]. Qed.

Lemma evolves_trans (w1 w2 w3 : world) : evolves w1 w2 -> evolves w2 w3 -> evolves w1 w3.
Proof.
  intros [H1 R1] [H2 R2].
  split; [eapply extends_trans|eapply sameRegistry_trans]; eassumption.
Qed.

Lemma selectorShape_setPrevState (fullName : string) (state : value)
    (registry : list (string * selectorEntry)) :
  selectorShape (setPrevState fullName state registry) = selectorShape registry.
Proof.
  induction registry as [|[k e] registry IH]; simpl; [reflexivity|].
  destruct (k =? fullName); simpl; [reflexivity|]. f_equal. exact IH.
Qed.

Lemma lookup_selectorShape (name : string) (registry : list (string * selectorEntry)) :
  lookup name (selectorShape registry) = option_map fn (lookup name registry).
Proof.
  induction registry as [|[k e] registry IH]; simpl; [reflexivity|].
  destruct (k =? name); [reflexivity|exact IH].
Qed.

Lemma keys_selectorShape (registry : list (string * selectorEntry)) :
  keys (selectorShape registry) = keys registry.
Proof. unfold keys, selectorShape. rewrite map_map. reflexivity. Qed.

(* ===================================================================== *)
(** ** What every operation keeps                                         *)
(* ===================================================================== *)

(** The operations keep any relation between worlds that is reflexive and
    transitive and that the elementary steps keep: an allocation, the
    update of a memo and, for the operations that dispatch, the
    replacement of the state of the store. *)
Section Invariance.
Variable R : world -> world -> Prop.
Hypothesis R_refl : forall w, R w w.
Hypothesis R_trans : forall w1 w2 w3, R w1 w2 -> R w2 w3 -> R w1 w3.
Hypothesis R_new : forall p w, R w (snd (new p w)).
Hypothesis R_memo : forall fullName state w, R w (snd (writePrevState fullName state w)).
Hypothesis R_store : forall s w, R w (snd (setStore s w)).

Lemma keeps_ret {A : Type} (a : A) : keeps R (ret a).
Proof. intros w. apply R_refl. Qed.

Lemma keeps_lift {A : Type} (r : outcome A) : keeps R (lift r).
Proof. intros w. apply R_refl. Qed.

Lemma keeps_bind {A B : Type} (c : M A) (k : A -> M B) :
  keeps R c -> (forall a, keeps R (k a)) -> keeps R (bind c k).
Proof.
  intros Hc Hk w. unfold bind. specialize (Hc w).
  destruct (c w) as [[a| |] w1]; simpl in *; [|exact Hc|exact Hc].
  eapply R_trans; [exact Hc|apply Hk].
Qed.

Lemma keeps_read (o : value) (k : string) : keeps R (read o k).
Proof. intros w. apply R_refl. Qed.

Lemma keeps_getState : keeps R getState.
Proof. intros w. unfold getState. destruct (_store (this w)); apply R_refl. Qed.

Lemma keeps_new (p : props) : keeps R (new p).
Proof. intros w. apply R_new. Qed.

Lemma keeps_writePrevState (fullName : string) (state : value) :
  keeps R (writePrevState fullName state).
Proof. intros w. apply R_memo. Qed.

Lemma keeps_setStore (s : value) : keeps R (setStore s).
Proof. intros w. apply R_store. Qed.

(** Steps through a computation: split a [bind], look at the world, or
    close the goal with an elementary step. *)
Ltac keeps_bind x :=
  apply keeps_bind; [|intros x].

Ltac keeps_peek w :=
  intros w; cbv beta.

Ltac keeps_basic :=
  solve [ apply keeps_ret | apply keeps_lift | apply keeps_new
        | apply keeps_read | apply keeps_getState
        | apply keeps_setStore | apply keeps_writePrevState | apply R_refl ].

Lemma keeps_createReducer (d : sliceDescriptor) (stateArg action : value) :
  keeps R (_createReducer d stateArg action).
Proof.
  unfold _createReducer. keeps_bind ty; [keeps_basic|].
  destruct ty as [| | | |actionType|]; try keeps_basic.
  keeps_peek w0.
  destruct (negb (knownType (this w0) actionType)); [keeps_basic|].
  destruct (ownedHandler d actionType); [|keeps_basic].
  keeps_bind payload; [keeps_basic|]. keeps_peek w1. keeps_basic.
Qed.

Lemma keeps_combineLoop (reducers : list (string * sliceDescriptor))
    (state action : value) (nextState : props) (hasChanged : bool) :
  keeps R (combineLoop reducers state action nextState hasChanged).
Proof.
  revert nextState hasChanged.
  induction reducers as [|[key d] rest IH]; intros nextState hasChanged; simpl.
  - keeps_basic.
  - keeps_bind prev; [keeps_basic|].
    keeps_bind next; [apply keeps_createReducer|].
    destruct next; try apply IH. keeps_basic.
Qed.

Lemma keeps_combination (reducers : list (string * sliceDescriptor))
    (stateArg action : value) :
  keeps R (combination reducers stateArg action).
Proof.
  unfold combination. keeps_bind state.
  - destruct stateArg; keeps_basic.
  - keeps_bind r; [apply keeps_combineLoop|].
    destruct (snd r); keeps_basic.
Qed.

Lemma keeps_dispatch (action : value) : keeps R (dispatch action).
Proof.
  unfold dispatch. keeps_bind currentState; [keeps_basic|].
  destruct action; try keeps_basic.
  keeps_bind ty; [keeps_basic|].
  destruct ty; try keeps_basic;
    (keeps_peek w0;
     keeps_bind next; [apply keeps_combination|];
     keeps_bind u; keeps_basic).
Qed.

Lemma keeps_createStore : keeps R createStore.
Proof.
  unfold createStore. keeps_bind action; [keeps_basic|].
  keeps_peek w0. keeps_bind next; [apply keeps_combination|keeps_basic].
Qed.

Lemma keeps_createBoundAction (dispatchFn : value -> M value) (type : string)
    (payload meta : value) :
  (forall action, keeps R (dispatchFn action)) ->
  keeps R (_createBoundAction dispatchFn type payload meta).
Proof.
  intros H. unfold _createBoundAction. keeps_peek w0.
  keeps_bind action; [keeps_basic|apply H].
Qed.

Lemma keeps_callAction (a : boundAction) (payload meta : value) :
  keeps R (callAction a payload meta).
Proof. apply keeps_createBoundAction, keeps_dispatch. Qed.

Lemma keeps_strictDispatch (action : value) : keeps R (strictDispatch action).
Proof.
  unfold strictDispatch. keeps_bind ty; [keeps_basic|].
  keeps_peek w0.
  destruct (getAction (this w0) (toString ty)); try keeps_basic.
  keeps_bind payload; [keeps_basic|].
  keeps_bind meta; [keeps_basic|apply keeps_callAction].
Qed.

Lemma keeps_stateSliceFor (f : selectorFunction) (maybeState : value) :
  keeps R (stateSliceFor f maybeState).
Proof.
  unfold stateSliceFor. keeps_bind state.
  - destruct (truthy maybeState); keeps_basic.
  - keeps_peek w0.
    destruct (lookup _ _); [|keeps_basic].
    keeps_bind slice; [keeps_basic|].
    keeps_bind stateSlice.
    + destruct (strict_eq _ _); [keeps_basic|].
      keeps_peek w1. keeps_basic.
    + keeps_bind u; keeps_basic.
Qed.

Section Runner.
Variable run_body : runner.
Hypothesis run_body_keeps : forall c, keeps R (run_body c).

Lemma keeps_callSelector (f : selectorFunction) (options maybeState : value) :
  keeps R (callSelector run_body f options maybeState).
Proof.
  unfold callSelector. keeps_bind stateSlice; [apply keeps_stateSliceFor|].
  apply run_body_keeps.
Qed.

Lemma keeps_selectOne (selectorName : string) (options state : value) :
  keeps R (selectOne run_body selectorName options state).
Proof.
  unfold selectOne. keeps_peek w0.
  destruct (getSelector (this w0) selectorName);
    [apply keeps_callSelector|keeps_basic..].
Qed.

Lemma keeps_selectLoop (selectors : list (string * option selectorFunction))
    (names : list string) (options state acc : value) :
  keeps R (selectLoop run_body selectors names options state acc).
Proof.
  revert acc. induction names as [|name rest IH]; intros acc; simpl.
  - keeps_basic.
  - keeps_bind v.
    + destruct (lookup name selectors) as [[f|]|];
        [apply keeps_callSelector|keeps_basic..].
    + keeps_bind acc'; [|apply IH].
      keeps_peek w0. keeps_basic.
Qed.

Lemma keeps_select (queryString : string) (options state : value) :
  keeps R (select run_body queryString options state).
Proof.
  unfold select. keeps_peek w0.
  destruct (getSelectors (this w0) queryString);
    [|keeps_basic..].
  keeps_bind acc; [keeps_basic|apply keeps_selectLoop].
Qed.
End Runner.

Lemma keeps_run (fuel : nat) (c : code) : keeps R (run fuel c).
Proof.
  revert c. induction fuel as [|fuel IH]; intros c; simpl; [keeps_basic|].
  destruct c.
  - keeps_basic.
  - keeps_basic.
  - keeps_bind v; [keeps_basic|apply IH].
  - keeps_bind v; [apply keeps_selectOne; exact IH|apply IH].
  - keeps_bind v; [apply keeps_select; exact IH|apply IH].
Qed.
End Invariance.

(* ===================================================================== *)
(** ** Every operation keeps the registries and the allocated objects     *)
(* ===================================================================== *)

Lemma evolves_new (p : props) (w : world) : evolves w (snd (new p w)).
Proof. unfold new. simpl. split; [apply extends_alloc|apply sameRegistry_refl]. Qed.

Lemma evolves_memo (fullName : string) (state : value) (w : world) :
  evolves w (snd (writePrevState fullName state w)).
Proof.
  split; [apply extends_refl|]. repeat split. simpl. apply selectorShape_setPrevState.
Qed.

(** [dispatch] replaces the state of the store, which is no part of the
    registries. *)
Lemma evolves_store (s : value) (w : world) : evolves w (snd (setStore s w)).
Proof. split; [apply extends_refl|repeat split]. Qed.

Ltac evolves_facts :=
  first [ exact evolves_refl | exact evolves_trans | exact evolves_new
        | exact evolves_memo | exact evolves_store | assumption ].


Lemma preserves_createReducer (d : sliceDescriptor) (stateArg action : value) :
  preserves (_createReducer d stateArg action).
Proof. apply keeps_createReducer; evolves_facts. Qed.

Lemma preserves_combineLoop (reducers : list (string * sliceDescriptor))
    (state action : value) (nextState : props) (hasChanged : bool) :
  preserves (combineLoop reducers state action nextState hasChanged).
Proof. apply keeps_combineLoop; evolves_facts. Qed.

Lemma preserves_createStore : preserves createStore.
Proof. apply keeps_createStore; evolves_facts. Qed.

Lemma preserves_strictDispatch (action : value) : preserves (strictDispatch action).
Proof. apply keeps_strictDispatch; evolves_facts. Qed.


Lemma preserves_run (fuel : nat) (c : code) : preserves (run fuel c).
Proof. apply keeps_run; evolves_facts. Qed.

Lemma preserves_selectOne (fuel : nat) (selectorName : string) (options state : value) :
  preserves (selectOne (run fuel) selectorName options state).
Proof. apply keeps_selectOne; try evolves_facts. apply preserves_run. Qed.

Lemma preserves_select (fuel : nat) (queryString : string) (options state : value) :
  preserves (select (run fuel) queryString options state).
Proof. apply keeps_select; try evolves_facts. apply preserves_run. Qed.

Lemma evolves_perform (fuel : nat) (c : call) (w : world) :
  evolves w (snd (perform fuel c w)).
Proof.
  destruct c; simpl; try apply evolves_refl.
  - pose proof (preserves_select fuel queryString options state w) as H.
    destruct (select _ _ _ _ w). exact H.
  - pose proof (preserves_selectOne fuel selectorName options state w) as H.
    destruct (selectOne _ _ _ _ w). exact H.
  - pose proof (preserves_strictDispatch action w) as H.
    destruct (strictDispatch _ w). exact H.
  - pose proof (preserves_select fuel queryString componentProps state w) as H.
    unfold createMapStateToProps. destruct (select _ _ _ _ w). exact H.
Qed.

Lemma evolves_performAll (fuel : nat) (calls : list call) (w : world) :
  evolves w (performAll fuel calls w).
Proof.
  unfold performAll. revert w.
  induction calls as [|c calls IH]; intros w; simpl; [apply evolves_refl|].
  eapply evolves_trans; [apply evolves_perform|apply IH].
Qed.

(* ===================================================================== *)
(** ** The registries after construction                                  *)
(* ===================================================================== *)

(** C9.  Whatever sequence of public methods is called on an instance
    ([getSelector], [getSelectors], [select], [selectOne], [getAction],
    [getActions], [strictDispatch], [getActionTypes], and the functions
    made by [createMapStateToProps] and [createMapDispatchToProps]), the
    action-creator registry is the same afterwards, the reducers are the
    same, and the selector registry holds the same names bound to the
    same functions: an entry can differ from what it was only in its
    [prevState] memo.  (The state that Redux keeps inside the store is no
    field of the instance.) *)
Theorem C9_registries_read_only (fuel : nat) (calls : list call) (w : world) :
  let w' := performAll fuel calls w in
  _actionCreators (this w') = _actionCreators (this w) /\
  _reducers (this w') = _reducers (this w) /\
  keys (_selectors (this w')) = keys (_selectors (this w)) /\
  (forall name,
     option_map fn (lookup name (_selectors (this w'))) =
     option_map fn (lookup name (_selectors (this w)))) /\
  selectorShape (_selectors (this w')) = selectorShape (_selectors (this w)).
Proof.
  destruct (evolves_performAll fuel calls w) as [_ (Ha & Hr & Hs)].
  cbv zeta. repeat split; try assumption.
  - rewrite <- !keys_selectorShape. rewrite Hs. reflexivity.
  - intros name. rewrite <- !lookup_selectorShape. rewrite Hs. reflexivity.
Qed.

(* ===================================================================== *)
(** ** Bound actions and strictDispatch                                   *)
(* ===================================================================== *)

Lemma existsb_tl {A : Type} (f : A -> bool) (l : list A) :
  existsb f (tl l) = true -> existsb f l = true.
Proof. destruct l; simpl; [auto|]. intros ->. apply orb_true_r. Qed.

(** The test of [_createBoundAction] on the payload is [instanceof Error]:
    the payload being truthy and its prototype deriving from [Error] add
    nothing to it. *)
Lemma errorTest_instanceof (m : heap) (payload : value) :
  truthy payload && (instanceofError m payload || prototypeInstanceofError m payload)
  = instanceofError m payload.
Proof.
  unfold instanceofError, prototypeInstanceofError.
  destruct (existsb isErrorPrototype (chainOf m payload)) eqn:E.
  - destruct payload; simpl in *; try discriminate. reflexivity.
  - destruct (existsb isErrorPrototype (tl (chainOf m payload))) eqn:E'.
    + apply existsb_tl in E'. congruence.
    + apply andb_false_r.
Qed.

Lemma instanceofError_chain (m : heap) (payload : value) :
  instanceofError m payload = true <->
  exists l o, payload = VObj l /\ nth_error m l = Some o /\ In ErrorPrototype (protoChain o).
Proof.
  unfold instanceofError. rewrite existsb_exists. split.
  - intros [p [Hin Hp]]. destruct p; try discriminate.
    destruct payload; simpl in Hin; try contradiction.
    destruct (nth_error m l) as [o|] eqn:E; [|contradiction].
    exists l, o. auto.
  - intros (l & o & -> & Hn & Hin). exists ErrorPrototype. simpl. rewrite Hn. auto.
Qed.

Lemma actionProps_shape (m : heap) (type : string) (payload meta : value) :
  actionProps m type payload meta =
  [("type", VStr type); ("payload", payload)]
    ++ (if truthy meta then [("meta", meta)] else [])
    ++ (if instanceofError m payload then [("error", VBool true)] else []).
Proof.
  unfold actionProps. rewrite errorTest_instanceof.
  destruct (truthy meta), (instanceofError m payload); reflexivity.
Qed.

(** C6.  A bound action called with [(payload, meta)] builds the object
    [{ type, payload }], to which [meta] is added only when it was given
    (it is left out when it is [undefined], not set to [null] or
    [undefined]) and [error: true] exactly when the payload is an
    instance of [Error], directly or through its prototype chain; that
    object goes at once to [dispatch] of the store behind the registry,
    whose result is the result of the call. *)
Theorem C6_bound_action (dispatchFn : value -> M value) (a : boundAction)
    (type : string) (payload meta : value) (w : world) :
  let action := actionProps (mem w) type payload meta in
  let w1 := {| mem := mem w ++ [plain action]; this := this w |} in
  action =
    [("type", VStr type); ("payload", payload)]
      ++ (if truthy meta then [("meta", meta)] else [])
      ++ (if instanceofError (mem w) payload then [("error", VBool true)] else []) /\
  (meta = VUndefined -> lookup "meta" action = None) /\
  (lookup "meta" action <> None -> lookup "meta" action = Some meta) /\
  (lookup "error" action =
     if instanceofError (mem w) payload then Some (VBool true) else None) /\
  (instanceofError (mem w) payload = true <->
   exists l o, payload = VObj l /\ nth_error (mem w) l = Some o /\
               In ErrorPrototype (protoChain o)) /\
  ownProps (mem w1) (VObj (length (mem w))) = action /\
  _createBoundAction dispatchFn type payload meta w = dispatchFn (VObj (length (mem w))) w1 /\
  callAction a payload meta w =
    dispatch (VObj (length (mem w)))
      {| mem := mem w ++ [plain (actionProps (mem w) (boundType a) payload meta)];
         this := this w |}.
Proof.
  cbv zeta. rewrite actionProps_shape.
  split; [reflexivity|]. split; [intros ->; simpl|split; [|split; [|split]]].
  - destruct (instanceofError (mem w) payload); reflexivity.
  - destruct (truthy meta), (instanceofError (mem w) payload); simpl; congruence.
  - destruct (truthy meta), (instanceofError (mem w) payload); reflexivity.
  - apply instanceofError_chain.
  - split; [apply ownProps_alloc|]. split.
    + unfold _createBoundAction, bind, new. simpl. rewrite actionProps_shape. reflexivity.
    + unfold callAction, _createBoundAction, bind, new. simpl. reflexivity.
Qed.

(* ===================================================================== *)
(** ** Slice reducers                                                     *)
(* ===================================================================== *)



Lemma knownType_true (t : StrictRedux) (actionType : string) :
  knownType t actionType = true <->
  In actionType (keys (_actionCreators t)) \/ startsWith actionType "@@" = true.
Proof. unfold knownType. rewrite orb_true_iff, arrayIncludes_In. reflexivity. Qed.

(** The reducer on an action it applies a handler to. *)
Lemma createReducer_owned (d : sliceDescriptor) (h : handler)
    (stateArg action payload : value) (actionType : string) (w : world) :
  getprop (mem w) action "type" = Ok (VStr actionType) ->
  getprop (mem w) action "payload" = Ok payload ->
  knownType (this w) actionType = true ->
  ownedHandler d actionType = Some h ->
  _createReducer d stateArg action w
  = (Ok (VObj (length (mem w))),
     {| mem := mem w ++ [plain (assign (ownProps (mem w) (stateOrInitial d stateArg))
                                  (h (mem w) (stateOrInitial d stateArg) payload))];
        this := this w |}).
Proof.
  intros Hty Hpay Hknown Hown.
  unfold _createReducer, bind, read. rewrite Hty, Hknown, Hown. simpl.
  rewrite Hpay. reflexivity.
Qed.

(** The reducer on a known action it applies no handler to. *)
Lemma createReducer_not_owned (d : sliceDescriptor)
    (stateArg action : value) (actionType : string) (w : world) :
  getprop (mem w) action "type" = Ok (VStr actionType) ->
  knownType (this w) actionType = true ->
  ownedHandler d actionType = None ->
  _createReducer d stateArg action w = (Ok (stateOrInitial d stateArg), w).
Proof.
  intros Hty Hknown Hown.
  unfold _createReducer, bind, read. rewrite Hty, Hknown, Hown. reflexivity.
Qed.

(** The reducer on an action of unknown type. *)
Lemma createReducer_unknown (d : sliceDescriptor)
    (stateArg action : value) (actionType : string) (w : world) :
  getprop (mem w) action "type" = Ok (VStr actionType) ->
  knownType (this w) actionType = false ->
  _createReducer d stateArg action w
  = (throwError ("Unknown action type " ++ actionType), w).
Proof.
  intros Hty Hknown.
  unfold _createReducer, bind, read. rewrite Hty, Hknown. reflexivity.
Qed.



Lemma getprop_string_allocated (m : heap) (action : value) (k s : string) :
  getprop m action k = Ok (VStr s) ->
  exists l, action = VObj l /\ l < length m.
Proof.
  destruct action; simpl; try discriminate.
  intros H. exists l. split; [reflexivity|].
  destruct (nth_error m l) eqn:E; [|discriminate].
  apply nth_error_Some. congruence.
Qed.

(** [dispatch] of an action of unknown type on a store that has a state
    object and at least one slice: the first slice reducer throws. *)
Lemma dispatch_unknown (action : value) (actionType : string) (l : loc) (w : world) :
  getprop (mem w) action "type" = Ok (VStr actionType) ->
  knownType (this w) actionType = false ->
  _store (this w) = Some (VObj l) ->
  _reducers (this w) <> [] ->
  dispatch action w = (throwError ("Unknown action type " ++ actionType), w).
Proof.
  intros Hty Hknown Hstore Hred.
  destruct (getprop_string_allocated _ _ _ _ Hty) as [la [-> Hla]].
  unfold dispatch, bind, getState, read. rewrite Hstore, Hty.
  unfold combination, bind, ret.
  destruct (_reducers (this w)) as [|[key d] rest]; [contradiction|].
  simpl. unfold bind, read. simpl.
  rewrite (createReducer_unknown d _ (VObj la) actionType w Hty Hknown). reflexivity.
Qed.

(** [dispatch] of an action of unknown type never replaces the state of
    the store. *)
Lemma dispatch_unknown_store (action : value) (actionType : string) (l : loc) (w : world) :
  getprop (mem w) action "type" = Ok (VStr actionType) ->
  knownType (this w) actionType = false ->
  _store (this w) = Some (VObj l) ->
  _store (this (snd (dispatch action w))) = Some (VObj l).
Proof.
  intros Hty Hknown Hstore.
  destruct (_reducers (this w)) as [|kd rest] eqn:Hred.
  - destruct (getprop_string_allocated _ _ _ _ Hty) as [la [-> Hla]].
    unfold dispatch, bind, getState, read. rewrite Hstore, Hty.
    unfold combination, bind, ret. rewrite Hred. reflexivity.
  - rewrite (dispatch_unknown action actionType l w Hty Hknown Hstore); [exact Hstore|].
    rewrite Hred. discriminate.
Qed.

(** C2.  Every slice reducer throws "Unknown action type <type>" on an
    action whose type is neither a key of the action-creator registry nor
    starts with ["@@"].  On a store with a state object, [dispatch] of
    such an action leaves the state of the store as it was, and with at
    least one slice the error comes out of [dispatch] itself, the world
    unchanged: no reducer has returned. *)
Theorem C2_unknown_action_type (d : sliceDescriptor) (stateArg action : value)
    (actionType : string) (l : loc) (w : world) :
  getprop (mem w) action "type" = Ok (VStr actionType) ->
  ~ In actionType (keys (_actionCreators (this w))) ->
  startsWith actionType "@@" = false ->
  _store (this w) = Some (VObj l) ->
  _createReducer d stateArg action w
  = (Throw (Error ("Unknown action type " ++ actionType)), w) /\
  _store (this (snd (dispatch action w))) = Some (VObj l) /\
  (_reducers (this w) <> [] ->
   dispatch action w = (Throw (Error ("Unknown action type " ++ actionType)), w)).
Proof.
  intros Hty Hout Hboot Hstore.
  assert (Hknown : knownType (this w) actionType = false).
  { destruct (knownType (this w) actionType) eqn:E; [|reflexivity].
    apply knownType_true in E as [E|E]; [contradiction|congruence]. }
  split; [|split].
  - apply createReducer_unknown; assumption.
  - eapply dispatch_unknown_store; eassumption.
  - intros Hred. eapply dispatch_unknown; eassumption.
Qed.

Lemma C2_unknown_action_type_witness :
  dispatch (VObj 7) Examples.unknownWorld
  = (Throw (Error "Unknown action type a_nonexistent"), Examples.unknownWorld).
Proof.
  refine (proj2 (proj2 (C2_unknown_action_type Examples.sliceA VUndefined (VObj 7)
                          "a_nonexistent" 6 Examples.unknownWorld eq_refl _ eq_refl eq_refl)) _).
  - simpl. intros [H|[H|[]]]; discriminate.
  - discriminate.
Defined.

(* ===================================================================== *)
(** ** Selectors and the memoization guard                                *)
(* ===================================================================== *)

Lemma lookup_setPrevState_eq (name : string) (state : value)
    (registry : list (string * selectorEntry)) (e : selectorEntry) :
  lookup name registry = Some e ->
  lookup name (setPrevState name state registry)
  = Some {| fn := fn e; prevState := state |}.
Proof.
  induction registry as [|[k e'] registry IH]; simpl; [discriminate|].
  destruct (k =? name) eqn:E; simpl; rewrite E; [congruence|exact IH].
Qed.

Lemma memoOf_memoized (f : selectorFunction) (state memo : value) (w : world) :
  memoOf w f = Some memo -> memoOf (memoized f state w) f = Some state.
Proof.
  unfold memoOf, memoized. simpl.
  destruct (lookup (registeredName f) (_selectors (this w))) as [e|] eqn:E; [|discriminate].
  intros _. rewrite (lookup_setPrevState_eq _ _ _ _ E). reflexivity.
Qed.

(** One call of a selector function, up to the call of the underlying
    selector: the slice of the state itself when the memo is that state,
    a new object with the same properties otherwise; the memo is the
    state afterwards. *)
Lemma stateSliceFor_spec (f : selectorFunction) (maybeState state memo slice : value)
    (w : world) :
  stateSeen maybeState w = Some state ->
  memoOf w f = Some memo ->
  getprop (mem w) state (capturedSliceName f) = Ok slice ->
  stateSliceFor f maybeState w =
  if strict_eq memo state
  then (Ok slice, memoized f state w)
  else (Ok (VObj (length (mem w))),
        memoized f state
          {| mem := mem w ++ [plain (ownProps (mem w) slice)]; this := this w |}).
Proof.
  unfold stateSeen, memoOf, stateSliceFor, registeredName, memoized.
  intros Hseen Hmemo Hslice. unfold bind at 1.
  assert (Hstate : (if truthy maybeState then ret maybeState else getState) w = (Ok state, w)).
  { destruct (truthy maybeState); [injection Hseen as ->; reflexivity|].
    unfold getState. rewrite Hseen. reflexivity. }
  rewrite Hstate.
  destruct (lookup _ (_selectors (this w))) as [e|]; [|discriminate].
  simpl in Hmemo. injection Hmemo as Hmemo. rewrite Hmemo.
  unfold bind, read. rewrite Hslice.
  destruct (strict_eq memo state); reflexivity.
Qed.

Lemma stateSeen_memoized (f : selectorFunction) (state maybeState : value) (w : world) :
  stateSeen maybeState (memoized f state w) = stateSeen maybeState w.
Proof. reflexivity. Qed.

Lemma strict_eq_true (a b : value) : strict_eq a b = true <-> a = b.
Proof.
  destruct a, b; simpl; split; try congruence; try discriminate; intros H.
  - apply Bool.eqb_prop in H. congruence.
  - injection H as ->. apply Bool.eqb_reflx.
  - apply Z.eqb_eq in H. congruence.
  - injection H as ->. apply Z.eqb_refl.
  - apply String.eqb_eq in H. congruence.
  - injection H as ->. apply String.eqb_refl.
  - apply Nat.eqb_eq in H. congruence.
  - injection H as ->. apply Nat.eqb_refl.
Qed.

Lemma stateSliceFor_call (f : selectorFunction) (maybeState state memo slice : value)
    (w : world) :
  stateSeen maybeState w = Some state ->
  memoOf w f = Some memo ->
  getprop (mem w) state (capturedSliceName f) = Ok slice ->
  exists r w',
    stateSliceFor f maybeState w = (Ok r, w') /\
    memoOf w' f = Some state /\
    _store (this w') = _store (this w) /\
    (strict_eq memo state = true -> r = slice /\ mem w' = mem w) /\
    (strict_eq memo state = false ->
     r = VObj (length (mem w)) /\
     mem w' = mem w ++ [plain (ownProps (mem w) slice)]).
Proof.
  intros Hseen Hmemo Hslice.
  rewrite (stateSliceFor_spec f maybeState state memo slice w Hseen Hmemo Hslice).
  destruct (strict_eq memo state); eexists; eexists; (split; [reflexivity|]).
  - split; [eapply memoOf_memoized; exact Hmemo|].
    split; [reflexivity|]. split; [auto|discriminate].
  - split; [eapply (memoOf_memoized f state memo); exact Hmemo|].
    split; [reflexivity|]. split; [discriminate|auto].
Qed.

(** Two calls in a row on the same whole state need not hand the same
    reference on: after construction the first call of [counter_value] on
    the state of the store passes a copy (address 7), the second the slice
    itself (address 0). *)
Lemma C5_memoization_guard_counterexample : ~ sameStateSameSlice.
Proof.
  intros H.
  specialize (H Examples.counterValue (VObj 6) (VObj 7) (VObj 0) Examples.counterWorld
                (snd (stateSliceFor Examples.counterValue (VObj 6) Examples.counterWorld))
                (snd (stateSliceFor Examples.counterValue (VObj 6)
                        (snd (stateSliceFor Examples.counterValue (VObj 6)
                                Examples.counterWorld))))
                eq_refl eq_refl).
  discriminate H.
Qed.

(** An own property is what [o[k]] reads, whatever [o] inherits. *)
Lemma own_property (m : heap) (o : value) (k : string) (v : value) :
  lookup k (ownProps m o) = Some v -> getprop m o k = Ok v /\ allocated m o.
Proof.
  destruct o; simpl; try discriminate. intros H. rewrite H. split; [reflexivity|].
  destruct (nth_error m l) eqn:E; [|discriminate].
  apply nth_error_Some. congruence.
Qed.

(** C5, amended.  For a registered selector and two calls in a row, the
    first on the whole state [s1], the second on [s2], each holding the
    slice, an object, as a property of its own.  Every call sets the
    [prevState] memo to the whole state it worked on.  A call on the
    state the memo holds passes [state[sliceName]] itself and allocates
    nothing; a call on any other state passes a newly allocated object,
    different from [state[sliceName]] and from every object allocated
    before, with the properties of [state[sliceName]], whether or not the
    slice changed.  So when [s2] is the same reference as [s1], the
    second call passes [s2[sliceName]] itself, which is what the first
    call passed only if the memo was [s1] already before it: otherwise
    the first call passed a copy, and the two calls passed different
    references. *)
Theorem C5_memoization_guard (f : selectorFunction)
    (maybeState1 maybeState2 s1 s2 memo : value) (l1 l2 : loc) (w : world) :
  let slice1 := VObj l1 in
  let slice2 := VObj l2 in
  memoOf w f = Some memo ->
  stateSeen maybeState1 w = Some s1 ->
  lookup (capturedSliceName f) (ownProps (mem w) s1) = Some slice1 ->
  stateSeen maybeState2 w = Some s2 ->
  lookup (capturedSliceName f) (ownProps (mem w) s2) = Some slice2 ->
  l1 < length (mem w) ->
  l2 < length (mem w) ->
  exists r1 w1 r2 w2,
    stateSliceFor f maybeState1 w = (Ok r1, w1) /\
    stateSliceFor f maybeState2 w1 = (Ok r2, w2) /\
    memoOf w1 f = Some s1 /\
    memoOf w2 f = Some s2 /\
    (strict_eq memo s1 = true -> r1 = slice1 /\ mem w1 = mem w) /\
    (strict_eq memo s1 = false ->
     r1 = VObj (length (mem w)) /\
     r1 <> slice1 /\
     ~ allocated (mem w) r1 /\
     mem w1 = mem w ++ [plain (ownProps (mem w) slice1)] /\
     ownProps (mem w1) r1 = ownProps (mem w) slice1) /\
    (strict_eq s1 s2 = true ->
     r2 = slice2 /\ mem w2 = mem w1 /\
     (strict_eq memo s1 = true -> r1 = r2) /\
     (strict_eq memo s1 = false -> r1 <> r2)) /\
    (strict_eq s1 s2 = false ->
     r2 = VObj (length (mem w1)) /\
     r2 <> slice2 /\
     r2 <> r1 /\
     ~ allocated (mem w1) r2 /\
     mem w2 = mem w1 ++ [plain (ownProps (mem w1) slice2)] /\
     ownProps (mem w2) r2 = ownProps (mem w) slice2).
Proof.
  intros slice1 slice2 Hmemo Hseen1 Hown1 Hseen2 Hown2 Hsl1 Hsl2.
  change (allocated (mem w) slice1) in Hsl1. change (allocated (mem w) slice2) in Hsl2.
  clearbody slice1 slice2.
  destruct (own_property _ _ _ _ Hown1) as [Hslice1 Hs1].
  destruct (own_property _ _ _ _ Hown2) as [Hslice2 Hs2].
  destruct (stateSliceFor_call f maybeState1 s1 memo slice1 w Hseen1 Hmemo Hslice1)
    as (r1 & w1 & Hcall1 & Hmemo1 & Hstore1 & Hsame1 & Hdiff1).
  assert (Hext : extends (mem w) (mem w1)).
  { destruct (strict_eq memo s1).
    - destruct (Hsame1 eq_refl) as [_ ->]. apply extends_refl.
    - destruct (Hdiff1 eq_refl) as [_ ->]. eexists. reflexivity. }
  pose proof (extends_length _ _ Hext) as Hlen.
  assert (Hr1 : allocated (mem w1) r1).
  { destruct (strict_eq memo s1).
    - destruct (Hsame1 eq_refl) as [-> _]. apply (extends_allocated _ _ _ Hext Hsl1).
    - destruct (Hdiff1 eq_refl) as [-> ->]. simpl. rewrite length_app. simpl. lia. }
  assert (Hseen2' : stateSeen maybeState2 w1 = Some s2).
  { unfold stateSeen in *. rewrite Hstore1. exact Hseen2. }
  assert (Hslice2' : getprop (mem w1) s2 (capturedSliceName f) = Ok slice2).
  { rewrite (extends_getprop _ _ _ _ Hext Hs2). exact Hslice2. }
  destruct (stateSliceFor_call f maybeState2 s2 s1 slice2 w1 Hseen2' Hmemo1 Hslice2')
    as (r2 & w2 & Hcall2 & Hmemo2 & Hstore2 & Hsame2 & Hdiff2).
  exists r1, w1, r2, w2. do 4 (split; [assumption|]).
  split; [exact Hsame1|]. split; [|split].
  - intros E. destruct (Hdiff1 E) as [-> Hmem1].
    split; [reflexivity|]. split; [|split; [|split]].
    + intros <-. simpl in Hsl1. lia.
    + simpl. lia.
    + exact Hmem1.
    + rewrite Hmem1. apply ownProps_alloc.
  - intros E. destruct (Hsame2 E) as [-> ->].
    split; [reflexivity|]. split; [reflexivity|].
    apply strict_eq_true in E. subst s2.
    assert (Esl : slice2 = slice1) by congruence. subst slice2. split.
    + intros E1. destruct (Hsame1 E1) as [-> _]. reflexivity.
    + intros E1. destruct (Hdiff1 E1) as [-> _].
      intros <-. simpl in Hsl1. lia.
  - intros E. destruct (Hdiff2 E) as [-> Hmem2].
    split; [reflexivity|]. split; [|split; [|split; [|split]]].
    + intros <-. simpl in Hsl2. lia.
    + intros <-. simpl in Hr1. lia.
    + simpl. lia.
    + exact Hmem2.
    + rewrite Hmem2, ownProps_alloc. apply extends_ownProps; assumption.
Qed.

(** Two calls right after construction, both on the state of the store
    (the first passes a copy, the second the slice itself), and, after
    two increments, a call on an earlier state followed by a call on the
    state of the store (each passes a copy of its own). *)
Lemma C5_memoization_guard_witness :
  (exists r1 w1 r2 w2,
     stateSliceFor Examples.counterValue VUndefined Examples.counterWorld = (Ok r1, w1) /\
     stateSliceFor Examples.counterValue VUndefined w1 = (Ok r2, w2) /\
     memoOf w1 Examples.counterValue = Some (VObj 6) /\
     memoOf w2 Examples.counterValue = Some (VObj 6) /\
     (strict_eq VUndefined (VObj 6) = true -> r1 = VObj 0 /\ mem w1 = mem Examples.counterWorld) /\
     (strict_eq VUndefined (VObj 6) = false ->
      r1 = VObj (length (mem Examples.counterWorld)) /\
      r1 <> VObj 0 /\
      ~ allocated (mem Examples.counterWorld) r1 /\
      mem w1 = mem Examples.counterWorld ++ [plain (ownProps (mem Examples.counterWorld) (VObj 0))] /\
      ownProps (mem w1) r1 = ownProps (mem Examples.counterWorld) (VObj 0)) /\
     (strict_eq (VObj 6) (VObj 6) = true ->
      r2 = VObj 0 /\ mem w2 = mem w1 /\
      (strict_eq VUndefined (VObj 6) = true -> r1 = r2) /\
      (strict_eq VUndefined (VObj 6) = false -> r1 <> r2)) /\
     (strict_eq (VObj 6) (VObj 6) = false ->
      r2 = VObj (length (mem w1)) /\
      r2 <> VObj 0 /\
      r2 <> r1 /\
      ~ allocated (mem w1) r2 /\
      mem w2 = mem w1 ++ [plain (ownProps (mem w1) (VObj 0))] /\
      ownProps (mem w2) r2 = ownProps (mem Examples.counterWorld) (VObj 0))) /\
  (exists r1 w1 r2 w2,
     stateSliceFor Examples.counterValue (VObj 9) Examples.afterTwoIncrements = (Ok r1, w1) /\
     stateSliceFor Examples.counterValue VUndefined w1 = (Ok r2, w2) /\
     memoOf w1 Examples.counterValue = Some (VObj 9) /\
     memoOf w2 Examples.counterValue = Some (VObj 12) /\
     (strict_eq VUndefined (VObj 9) = true -> r1 = VObj 8 /\ mem w1 = mem Examples.afterTwoIncrements) /\
     (strict_eq VUndefined (VObj 9) = false ->
      r1 = VObj (length (mem Examples.afterTwoIncrements)) /\
      r1 <> VObj 8 /\
      ~ allocated (mem Examples.afterTwoIncrements) r1 /\
      mem w1 = mem Examples.afterTwoIncrements ++ [plain (ownProps (mem Examples.afterTwoIncrements) (VObj 8))] /\
      ownProps (mem w1) r1 = ownProps (mem Examples.afterTwoIncrements) (VObj 8)) /\
     (strict_eq (VObj 9) (VObj 12) = true ->
      r2 = VObj 11 /\ mem w2 = mem w1 /\
      (strict_eq VUndefined (VObj 9) = true -> r1 = r2) /\
      (strict_eq VUndefined (VObj 9) = false -> r1 <> r2)) /\
     (strict_eq (VObj 9) (VObj 12) = false ->
      r2 = VObj (length (mem w1)) /\
      r2 <> VObj 11 /\
      r2 <> r1 /\
      ~ allocated (mem w1) r2 /\
      mem w2 = mem w1 ++ [plain (ownProps (mem w1) (VObj 11))] /\
      ownProps (mem w2) r2 = ownProps (mem Examples.afterTwoIncrements) (VObj 11))).
Proof.
  split.
  - refine (C5_memoization_guard Examples.counterValue VUndefined VUndefined
              (VObj 6) (VObj 6) VUndefined 0 0 Examples.counterWorld
              eq_refl eq_refl eq_refl eq_refl eq_refl _ _); vm_compute; lia.
  - refine (C5_memoization_guard Examples.counterValue (VObj 9) VUndefined
              (VObj 9) (VObj 12) VUndefined 8 11 Examples.afterTwoIncrements
              eq_refl eq_refl eq_refl eq_refl eq_refl _ _); vm_compute; lia.
Defined.


(** The getter made for a key of the initial state returns that property
    of the slice it is given. *)
Lemma run_defaultSelector (k : string) (stateSlice options : value) (fuel : nat) (w : world) :
  run (2 + fuel) (defaultSelector k stateSlice options) w = (getprop (mem w) stateSlice k, w).
Proof.
  simpl. unfold bind, read, ret. destruct (getprop (mem w) stateSlice k); reflexivity.
Qed.

(** The whole selector function made for a default getter, on a state
    whose slice is an object: the property of the slice, both when the
    slice is passed on and when its copy is. *)
Lemma callSelector_default (f : selectorFunction) (k : string)
    (options maybeState state memo : value) (l : loc) (fuel : nat) (w : world) :
  underlying f = defaultSelector k ->
  stateSeen maybeState w = Some state ->
  memoOf w f = Some memo ->
  getprop (mem w) state (capturedSliceName f) = Ok (VObj l) ->
  fst (callSelector (run (2 + fuel)) f options maybeState w)
  = Ok (field (ownProps (mem w) (VObj l)) k).
Proof.
  intros Hf Hseen Hmemo Hslice. unfold callSelector, bind.
  rewrite (stateSliceFor_spec f maybeState state memo (VObj l) w Hseen Hmemo Hslice), Hf.
  destruct (strict_eq memo state); rewrite run_defaultSelector; simpl; [reflexivity|].
  rewrite nth_error_app2, Nat.sub_diag by lia. reflexivity.
Qed.

(** A default getter leaves the world as the first half of the selector
    function left it: two calls of the selector in a row are two runs of
    [stateSliceFor] in a row. *)
Lemma callSelector_after_stateSliceFor (f : selectorFunction) (k : string)
    (options maybeState r : value) (fuel : nat) (w w1 : world) :
  underlying f = defaultSelector k ->
  stateSliceFor f maybeState w = (Ok r, w1) ->
  callSelector (run (2 + fuel)) f options maybeState w = (getprop (mem w1) r k, w1).
Proof.
  intros Hf Hslice. unfold callSelector, bind. rewrite Hslice, Hf.
  apply run_defaultSelector.
Qed.




Lemma lookup_createDefaultSelectors (m : heap) (d : sliceDescriptor) (k : string) :
  lookup k (createDefaultSelectors m d) =
  if in_dec string_dec k (keys (ownProps m (VObj (initialState d))))
  then Some (defaultSelector k)
  else None.
Proof.
  unfold createDefaultSelectors.
  assert (H : forall names (acc : list (string * selectorFn)),
             lookup k (fold_left (fun acc stateProperty =>
                                    set stateProperty (defaultSelector stateProperty) acc)
                         names acc)
             = if in_dec string_dec k names then Some (defaultSelector k) else lookup k acc).
  { induction names as [|n names IH]; intros acc; simpl; [reflexivity|].
    rewrite IH. destruct (string_dec n k) as [->|Hne].
    - destruct (in_dec string_dec k names); [reflexivity|apply lookup_set_eq].
    - destruct (in_dec string_dec k names); [reflexivity|].
      apply lookup_set_ne. exact Hne. }
  rewrite H. reflexivity.
Qed.




(* ===================================================================== *)
(** ** Routing of a dispatched action                                     *)
(* ===================================================================== *)

Lemma startsWith_append (s rest : string) : startsWith (s ++ rest) s = true.
Proof.
  unfold startsWith. induction s as [|c s IH]; simpl.
  - destruct rest; reflexivity.
  - destruct (ascii_dec c c) as [_|H]; [exact IH|contradiction].
Qed.

Lemma split_free (s : string) (c : ascii) : includes s c = false -> split s c = [s].
Proof.
  induction s as [|a s IH]; simpl; [reflexivity|].
  intros H. apply orb_false_elim in H as [Ha Hs]. rewrite Ha, (IH Hs). reflexivity.
Qed.

Lemma split_append (s rest : string) (c : ascii) :
  includes s c = false -> split (s ++ String c rest) c = s :: split rest c.
Proof.
  induction s as [|a s IH]; simpl.
  - intros _. rewrite Ascii.eqb_refl. reflexivity.
  - intros H. apply orb_false_elim in H as [Ha Hs]. rewrite Ha, (IH Hs). reflexivity.
Qed.

Lemma stateOrInitial_defined (d : sliceDescriptor) (v : value) :
  v <> VUndefined -> stateOrInitial d v = v.
Proof. destruct v; simpl; congruence. Qed.

(** The loop of the combined reducer: a key it does not visit keeps what
    [nextState] held, and a slice that applies no handler contributes the
    reference it was given. *)
Lemma combineLoop_frame (actionType : string) (l0 la : loc)
    (reducers : list (string * sliceDescriptor)) :
  forall (nextState : props) (hasChanged : bool) (w w' : world) (r : props * bool),
    getprop (mem w) (VObj la) "type" = Ok (VStr actionType) ->
    l0 < length (mem w) ->
    NoDup (keys reducers) ->
    combineLoop reducers (VObj l0) (VObj la) nextState hasChanged w = (Ok r, w') ->
    (forall key, ~ In key (keys reducers) -> lookup key (fst r) = lookup key nextState) /\
    (forall key d v,
       In (key, d) reducers ->
       ownedHandler d actionType = None ->
       getprop (mem w) (VObj l0) key = Ok v ->
       v <> VUndefined ->
       lookup key (fst r) = Some v).
Proof.
  induction reducers as [|[k d] rest IH]; intros nextState hasChanged w w' r Hty Hl0 Hnd Hrun.
  - simpl in Hrun. injection Hrun as <- <-. split; [reflexivity|intros ? ? ? []].
  - simpl in Hrun. unfold bind at 1, read in Hrun. simpl getprop in Hrun.
    unfold bind at 1 in Hrun.
    pose proof (preserves_createReducer d
                  (match lookup k (ownProps (mem w) (VObj l0)) with
                   | Some v => v
                   | None => VUndefined
                   end) (VObj la) w) as [Hext _].
    destruct (_createReducer d _ (VObj la) w) as [[next| |] w1] eqn:Hred;
      try discriminate.
    simpl in Hext.
    destruct (getprop_string_allocated _ _ _ _ Hty) as [la' [Ela Hla]].
    injection Ela as <-.
    assert (Hty1 : getprop (mem w1) (VObj la) "type" = Ok (VStr actionType)).
    { rewrite (extends_getprop _ _ (VObj la) _ Hext Hla). exact Hty. }
    assert (Hl1 : l0 < length (mem w1)).
    { pose proof (extends_length _ _ Hext). lia. }
    inversion Hnd as [|? ? Hk Hnd']; subst.
    assert (Hrest : combineLoop rest (VObj l0) (VObj la) (set k next nextState)
                      (hasChanged || negb (strict_eq next
                         (match lookup k (ownProps (mem w) (VObj l0)) with
                          | Some v => v
                          | None => VUndefined
                          end))) w1 = (Ok r, w')).
    { destruct next; try exact Hrun. discriminate. }
    destruct (IH _ _ _ _ _ Hty1 Hl1 Hnd' Hrest) as [Hskip Hkeep].
    split.
    + intros key Hout. simpl in Hout.
      rewrite Hskip by tauto. apply lookup_set_ne. tauto.
    + intros key d' v [E|Hin] Hown Hv Hdef.
      * injection E as <- <-. rewrite (Hskip k Hk), lookup_set_eq. f_equal.
        simpl in Hv. injection Hv as Hv. rewrite Hv in Hred.
        destruct (knownType (this w) actionType) eqn:Hknown.
        -- rewrite (createReducer_not_owned d v (VObj la) actionType w Hty Hknown Hown)
             in Hred.
           injection Hred as <- _. apply stateOrInitial_defined. exact Hdef.
        -- rewrite (createReducer_unknown d v (VObj la) actionType w Hty Hknown) in Hred.
           discriminate.
      * apply (Hkeep key d' v Hin Hown); [|exact Hdef].
        rewrite (extends_getprop _ _ (VObj l0) _ Hext Hl0). exact Hv.
Qed.

(** A dispatch that returns: every slice that applies no handler to the
    action has, in the state of the store afterwards, the reference it
    had before. *)
Lemma dispatch_frame (action v r : value) (actionType key : string) (d : sliceDescriptor)
    (l0 : loc) (w w' : world) :
  _store (this w) = Some (VObj l0) ->
  l0 < length (mem w) ->
  getprop (mem w) action "type" = Ok (VStr actionType) ->
  NoDup (keys (_reducers (this w))) ->
  In (key, d) (_reducers (this w)) ->
  ownedHandler d actionType = None ->
  getprop (mem w) (VObj l0) key = Ok v ->
  v <> VUndefined ->
  dispatch action w = (Ok r, w') ->
  exists l1,
    _store (this w') = Some (VObj l1) /\ getprop (mem w') (VObj l1) key = Ok v.
Proof.
  intros Hstore Hl0 Hty Hnd Hin Hown Hv Hdef Hrun.
  destruct (getprop_string_allocated _ _ _ _ Hty) as [la [-> Hla]].
  unfold dispatch, bind, getState, read in Hrun. rewrite Hstore, Hty in Hrun.
  unfold combination, bind, ret in Hrun.
  pose proof (preserves_combineLoop (_reducers (this w)) (VObj l0) (VObj la) [] false w)
    as [Hext _].
  destruct (combineLoop (_reducers (this w)) (VObj l0) (VObj la) [] false w)
    as [[rr| |] w2] eqn:Hloop; try discriminate.
  simpl in Hext.
  destruct (combineLoop_frame actionType l0 la _ _ _ _ _ _ Hty Hl0 Hnd Hloop) as [_ Hkeep].
  specialize (Hkeep key d v Hin Hown Hv Hdef).
  destruct (snd rr).
  - unfold new, setStore in Hrun. simpl in Hrun. injection Hrun as _ <-.
    exists (length (mem w2)). split; [reflexivity|].
    simpl. rewrite nth_error_app2, Nat.sub_diag by lia. simpl.
    rewrite Hkeep. reflexivity.
  - unfold setStore in Hrun. simpl in Hrun. injection Hrun as _ <-.
    exists l0. split; [reflexivity|]. simpl mem.
    rewrite (extends_getprop _ _ (VObj l0) _ Hext Hl0). exact Hv.
Qed.

(** C3.  The routing the claim states fails on the code, at two places
    of the reducer.  It tests the name of the slice by
    [action.type.startsWith(sliceName)]: with the slices [a] and [ab],
    each with a handler [x], the action [ab_x], called with 7, also runs
    the handler [x] of slice [a], whose state, the object [{ x: 1 }] at
    address 1 before, is the new object [{ x: 7 }] at address 8
    afterwards.  And it looks the handler up under
    [action.type.split('_')[1]], not under the portion after the first
    separator: for the slice [s] whose only handler key is [a_b], the
    registered action [s_a_b] is owned by no slice, and calling it
    changes nothing. *)
Theorem C3_routing_failing_inputs :
  let w := Examples.built [Examples.sliceA; Examples.sliceAB] in
  let w' := snd (dispatchNamed "ab_x" (VNum 7) w) in
  let u := Examples.built [Examples.sliceU] in
  (In "ab_x"%string (keys (_actionCreators (this w))) /\
   sliceRef w "a" = Ok (VObj 1) /\
   ownProps (mem w) (VObj 1) = [("x"%string, VNum 1)] /\
   sliceRef w' "a" = Ok (VObj 8) /\
   ownProps (mem w') (VObj 8) = [("x"%string, VNum 7)]) /\
  (keys (_actionCreators (this u)) = ["s_a_b"%string] /\
   ownedHandler Examples.sliceU "s_a_b" = None /\
   sliceRef u "s" = Ok (VObj 1) /\
   sliceRef (snd (dispatchNamed "s_a_b" (VNum 7) u)) "s" = Ok (VObj 1) /\
   _store (this (snd (dispatchNamed "s_a_b" (VNum 7) u))) = _store (this u)) /\
  ~ routesOnlyToOwner /\
  ~ ownershipBySuffix.
Proof.
  cbv zeta. split; [|split; [|split]].
  - vm_compute. repeat split. auto.
  - vm_compute. repeat split.
  - intros H.
    specialize (H [Examples.sliceA; Examples.sliceAB] Examples.heap0
                  Examples.sliceAB Examples.sliceA "x" (VNum 7)).
    assert (E : Ok (VObj 8) = Ok (VObj 1)).
    { apply H; simpl; auto. discriminate. }
    discriminate E.
  - intros H.
    destruct (H Examples.sliceU "s_a_b") as [_ H2].
    apply H2; [|reflexivity].
    split; [reflexivity|]. exists "a_b"%string. simpl. auto.
Qed.

(* ===================================================================== *)
(** ** Queries with an empty clause                                       *)
(* ===================================================================== *)





Lemma lookup_fold_set {A : Type} (g : string -> A) (names : list string)
    (acc : list (string * A)) (k : string) :
  lookup k (fold_left (fun acc name => set name (g name) acc) names acc)
  = if in_dec string_dec k names then Some (g k) else lookup k acc.
Proof.
  revert acc. induction names as [|n names IH]; intros acc; simpl; [reflexivity|].
  rewrite IH. destruct (string_dec n k) as [->|Hne].
  - destruct (in_dec string_dec k names); [reflexivity|apply lookup_set_eq].
  - destruct (in_dec string_dec k names); [reflexivity|].
    apply lookup_set_ne. exact Hne.
Qed.


Section SelectKeys.
Variable run_body : runner.
Hypothesis run_body_preserves : forall c, preserves (run_body c).


End SelectKeys.





(* ===================================================================== *)
(** ** Dispatch returns on known types; construction succeeds             *)
(* ===================================================================== *)

Lemma stateOrInitial_not_undefined (d : sliceDescriptor) (v : value) :
  stateOrInitial d v <> VUndefined.
Proof. destruct v; discriminate. Qed.

(** A reducer returns a defined state on every action of known type, and
    leaves the store alone. *)
Lemma createReducer_known (d : sliceDescriptor) (stateArg : value) (la : loc)
    (actionType : string) (w : world) :
  getprop (mem w) (VObj la) "type" = Ok (VStr actionType) ->
  knownType (this w) actionType = true ->
  exists v w',
    _createReducer d stateArg (VObj la) w = (Ok v, w') /\
    v <> VUndefined /\
    this w' = this w.
Proof.
  intros Hty Hknown. destruct (ownedHandler d actionType) as [h|] eqn:Hown.
  - eexists. eexists. split; [|split].
    + eapply createReducer_owned; try eassumption. reflexivity.
    + discriminate.
    + reflexivity.
  - eexists. eexists. split; [|split].
    + eapply createReducer_not_owned; eassumption.
    + apply stateOrInitial_not_undefined.
    + reflexivity.
Qed.

(** The loop of the combined reducer on an action of known type: it
    returns; every entry of the next state is defined and every reducer
    key has one; when nothing changed, every key already had a defined
    entry in the state. *)
Lemma combineLoop_known (actionType : string) (ls la : loc)
    (reducers : list (string * sliceDescriptor)) :
  forall (nextState : props) (hasChanged : bool) (w : world),
    getprop (mem w) (VObj la) "type" = Ok (VStr actionType) ->
    knownType (this w) actionType = true ->
    ls < length (mem w) ->
    (forall k v, lookup k nextState = Some v -> v <> VUndefined) ->
    exists r w',
      combineLoop reducers (VObj ls) (VObj la) nextState hasChanged w = (Ok r, w') /\
      extends (mem w) (mem w') /\
      this w' = this w /\
      (forall k v, lookup k (fst r) = Some v -> v <> VUndefined) /\
      (forall k, In k (keys reducers) \/ In k (keys nextState) -> In k (keys (fst r))) /\
      (snd r = false ->
       hasChanged = false /\
       forall k, In k (keys reducers) ->
                 exists v, getprop (mem w) (VObj ls) k = Ok v /\ v <> VUndefined).
Proof.
  induction reducers as [|[key d] rest IH]; intros nextState hasChanged w Hty Hknown Hls Hdef.
  - exists (nextState, hasChanged), w. simpl.
    split; [reflexivity|]. split; [apply extends_refl|]. split; [reflexivity|].
    split; [exact Hdef|]. split; [tauto|]. intros ->. split; [reflexivity|tauto].
  - pose (prev := match lookup key (ownProps (mem w) (VObj ls)) with
                  | Some v => v
                  | None => VUndefined
                  end).
    assert (Hread : getprop (mem w) (VObj ls) key = Ok prev) by reflexivity.
    destruct (createReducer_known d prev la actionType w Hty Hknown)
      as (next & w1 & Hred & Hnext & Hthis).
    pose proof (preserves_createReducer d prev (VObj la) w) as Hev.
    rewrite Hred in Hev. simpl in Hev. destruct Hev as [Hext _].
    simpl combineLoop. unfold bind at 1, read. rewrite Hread.
    unfold bind at 1. rewrite Hred.
    destruct (getprop_string_allocated _ _ _ _ Hty) as [la' [Ela Hla]].
    injection Ela as <-.
    assert (Hty1 : getprop (mem w1) (VObj la) "type" = Ok (VStr actionType)).
    { rewrite (extends_getprop _ _ (VObj la) _ Hext Hla). exact Hty. }
    assert (Hknown1 : knownType (this w1) actionType = true) by (rewrite Hthis; exact Hknown).
    assert (Hls1 : ls < length (mem w1)).
    { pose proof (extends_length _ _ Hext). lia. }
    assert (Hdef1 : forall k v, lookup k (set key next nextState) = Some v -> v <> VUndefined).
    { intros k v. destruct (String.eqb_spec key k) as [->|Hne].
      - rewrite lookup_set_eq. congruence.
      - rewrite lookup_set_ne by assumption. apply Hdef. }
    destruct (IH (set key next nextState)
                 (hasChanged || negb (strict_eq next prev)) w1 Hty1 Hknown1 Hls1 Hdef1)
      as (r & w' & Hrun & Hext' & Hthis' & Hall & Hkeys & Hsame).
    exists r, w'. split; [destruct next; try exact Hrun; congruence|].
    split; [eapply extends_trans; eassumption|]. split; [congruence|].
    split; [exact Hall|]. split.
    + intros k Hk. apply Hkeys. rewrite In_keys_set. simpl in Hk. intuition.
    + intros Hfalse. destruct (Hsame Hfalse) as [Hc Hrest].
      apply orb_false_elim in Hc as [Hc Heq]. split; [exact Hc|].
      intros k [<-|Hin].
      * exists prev. split; [reflexivity|].
        apply negb_false_iff, strict_eq_true in Heq. congruence.
      * destruct (Hrest k Hin) as (v & Hv & Hvdef). exists v. split; [|exact Hvdef].
        rewrite <- (extends_getprop _ _ (VObj ls) _ Hext Hls). exact Hv.
Qed.

(** The combined reducer on an action of known type returns a state
    object that has a defined entry for every reducer key. *)
Lemma combination_known (actionType : string) (la : loc)
    (reducers : list (string * sliceDescriptor)) (stateArg : value) (w : world) :
  getprop (mem w) (VObj la) "type" = Ok (VStr actionType) ->
  knownType (this w) actionType = true ->
  (stateArg = VUndefined \/ exists ls, stateArg = VObj ls /\ ls < length (mem w)) ->
  exists l w',
    combination reducers stateArg (VObj la) w = (Ok (VObj l), w') /\
    extends (mem w) (mem w') /\
    this w' = this w /\
    l < length (mem w') /\
    forall k, In k (keys reducers) ->
              exists v, getprop (mem w') (VObj l) k = Ok v /\ v <> VUndefined.
Proof.
  intros Hty Hknown Hstate.
  destruct (getprop_string_allocated _ _ _ _ Hty) as [la' [Ela Hla]].
  injection Ela as <-.
  assert (Hstart : exists ls w0,
             (match stateArg with VUndefined => new [] | _ => ret stateArg end) w
             = (Ok (VObj ls), w0) /\
             extends (mem w) (mem w0) /\ this w0 = this w /\ ls < length (mem w0)).
  { destruct Hstate as [->|(ls & -> & Hls)].
    - exists (length (mem w)), {| mem := mem w ++ [plain []]; this := this w |}.
      split; [reflexivity|]. split; [eexists; reflexivity|]. split; [reflexivity|].
      simpl. rewrite length_app. simpl. lia.
    - exists ls, w. split; [reflexivity|]. split; [apply extends_refl|]. auto. }
  destruct Hstart as (ls & w0 & Hstart & Hext0 & Hthis0 & Hls).
  unfold combination. unfold bind at 1. rewrite Hstart.
  assert (Hty0 : getprop (mem w0) (VObj la) "type" = Ok (VStr actionType)).
  { rewrite (extends_getprop _ _ (VObj la) _ Hext0 Hla). exact Hty. }
  assert (Hknown0 : knownType (this w0) actionType = true) by (rewrite Hthis0; exact Hknown).
  destruct (combineLoop_known actionType ls la reducers [] false w0 Hty0 Hknown0 Hls)
    as (r & w1 & Hrun & Hext1 & Hthis1 & Hall & Hkeys & Hsame); [discriminate|].
  unfold bind. rewrite Hrun. destruct (snd r) eqn:Hchanged.
  - exists (length (mem w1)), {| mem := mem w1 ++ [plain (fst r)]; this := this w1 |}.
    split; [reflexivity|].
    split; [eapply extends_trans; [exact Hext0|];
            eapply extends_trans; [exact Hext1|eexists; reflexivity]|].
    split; [simpl; congruence|].
    split; [simpl; rewrite length_app; simpl; lia|].
    intros k Hk. simpl mem. unfold getprop. rewrite ownProps_alloc.
    specialize (Hkeys k (or_introl Hk)). apply lookup_In_keys in Hkeys.
    destruct (lookup k (fst r)) as [v|] eqn:E; [|congruence].
    exists v. split; [reflexivity|]. eapply Hall. exact E.
  - exists ls, w1. split; [reflexivity|].
    split; [eapply extends_trans; eassumption|]. split; [congruence|].
    split; [pose proof (extends_length _ _ Hext1); lia|].
    intros k Hk. destruct (Hsame eq_refl) as [_ Hrest].
    destruct (Hrest k Hk) as (v & Hv & Hvdef). exists v. split; [|exact Hvdef].
    rewrite (extends_getprop _ _ (VObj ls) _ Hext1 Hls). exact Hv.
Qed.

(** On a world as construction leaves it, [dispatch] of an action of
    known type returns the action and leaves such a world. *)
Lemma dispatch_known (la : loc) (actionType : string) (w : world) :
  ready w ->
  getprop (mem w) (VObj la) "type" = Ok (VStr actionType) ->
  knownType (this w) actionType = true ->
  exists w', dispatch (VObj la) w = (Ok (VObj la), w') /\ ready w'.
Proof.
  intros (l0 & Hstore & Hl0 & Hnd & Hdef) Hty Hknown.
  destruct (combination_known actionType la (_reducers (this w)) (VObj l0) w Hty Hknown)
    as (l1 & w1 & Hrun & Hext & Hthis & Hl1 & Hkeys); [right; eauto|].
  unfold dispatch, bind, getState, read. rewrite Hstore, Hty, Hrun.
  eexists. split; [reflexivity|].
  exists l1. simpl. rewrite Hthis. repeat split; assumption.
Qed.

Lemma registerStateSlice_reducers (d : sliceDescriptor) (w : world) :
  _reducers (this (_registerStateSlice d w)) = set (sliceName d) d (_reducers (this w)) /\
  _store (this (_registerStateSlice d w)) = _store (this w) /\
  mem (_registerStateSlice d w) = mem w.
Proof. repeat split. Qed.

Lemma registered_NoDup (slices : list sliceDescriptor) (w : world) :
  NoDup (keys (_reducers (this w))) ->
  NoDup (keys (_reducers (this (fold_left (fun w' slice => _registerStateSlice slice w')
                                  slices w)))).
Proof.
  revert w. induction slices as [|d slices IH]; intros w Hnd; simpl; [exact Hnd|].
  apply IH. apply NoDup_keys_set. exact Hnd.
Qed.

(** [new StrictRedux(slices)] always succeeds, and leaves a store with a
    state object that has a defined entry for every slice. *)
Lemma construct_ready (slices : list sliceDescriptor) (m : heap) :
  exists w, construct slices m = (Ok tt, w) /\ ready w.
Proof.
  unfold construct, _buildStore.
  set (w0 := fold_left (fun w' slice => _registerStateSlice slice w') slices (blank m)).
  assert (Hnd : NoDup (keys (_reducers (this w0)))) by (apply registered_NoDup; constructor).
  unfold createStore, bind at 1, new. simpl alloc. cbv iota beta.
  set (w1 := {| mem := mem w0 ++ [plain [("type", VStr reduxInit)]]; this := this w0 |}).
  destruct (combination_known reduxInit (length (mem w0)) (_reducers (this w1)) VUndefined w1)
    as (l1 & w2 & Hrun & Hext & Hthis & Hl1 & Hkeys).
  - simpl. rewrite nth_error_app2, Nat.sub_diag by lia. reflexivity.
  - apply knownType_true. right. reflexivity.
  - left. reflexivity.
  - change (exists w,
              (next <- combination (_reducers (this w1)) VUndefined
                         (VObj (length (mem w0))) ;;
               setStore next) w1 = (Ok tt, w) /\ ready w).
    unfold bind. rewrite Hrun. eexists. split; [reflexivity|].
    exists l1. simpl. rewrite Hthis. repeat split; assumption.
Qed.

(** After construction the store has a state object with a defined entry
    for every slice, whatever the slices. *)
Lemma built_ready (slices : list sliceDescriptor) (m : heap) :
  ready (snd (construct slices m)).
Proof.
  destruct (construct_ready slices m) as (w & E & Hready). rewrite E. exact Hready.
Qed.

Lemma ready_new (p : props) (w : world) : ready w -> ready (snd (new p w)).
Proof.
  intros (l & Hstore & Hl & Hnd & Hdef). exists l. simpl.
  split; [exact Hstore|]. split; [rewrite length_app; simpl; lia|].
  split; [exact Hnd|]. intros key Hkey.
  destruct (Hdef key Hkey) as (v & Hv & Hvdef). exists v. split; [|exact Hvdef].
  rewrite <- Hv. apply (extends_getprop (mem w) _ (VObj l)); [eexists; reflexivity|exact Hl].
Qed.

(* ===================================================================== *)
(** ** The worlds an instance can reach                                   *)
(* ===================================================================== *)

Lemma quiet_refl (w : world) : quiet w w.
Proof. split; [apply evolves_refl|reflexivity]. Qed.

Lemma quiet_trans (w1 w2 w3 : world) : quiet w1 w2 -> quiet w2 w3 -> quiet w1 w3.
Proof.
  intros [E1 S1] [E2 S2]. split; [eapply evolves_trans; eassumption|congruence].
Qed.

Lemma quiet_new (p : props) (w : world) : quiet w (snd (new p w)).
Proof. split; [apply evolves_new|reflexivity]. Qed.

Lemma quiet_memo (fullName : string) (state : value) (w : world) :
  quiet w (snd (writePrevState fullName state w)).
Proof. split; [apply evolves_memo|reflexivity]. Qed.

Ltac quiet_facts :=
  first [ exact quiet_refl | exact quiet_trans | exact quiet_new
        | exact quiet_memo | assumption ].

(** Reading through selectors never touches the state of the store. *)
Lemma quiet_run (fuel : nat) (c : code) : keeps quiet (run fuel c).
Proof. apply keeps_run; quiet_facts. Qed.

Lemma quiet_selectOne (fuel : nat) (selectorName : string) (options state : value) :
  keeps quiet (selectOne (run fuel) selectorName options state).
Proof. apply keeps_selectOne; try quiet_facts. apply quiet_run. Qed.

Lemma quiet_select (fuel : nat) (queryString : string) (options state : value) :
  keeps quiet (select (run fuel) queryString options state).
Proof. apply keeps_select; try quiet_facts. apply quiet_run. Qed.

Lemma ready_quiet (w w' : world) : quiet w w' -> ready w -> ready w'.
Proof.
  intros [[Hext (_ & Hred & _)] Hstore] (l & Hs & Hl & Hnd & Hdef).
  exists l. rewrite Hstore, Hred.
  split; [exact Hs|]. split; [pose proof (extends_length _ _ Hext); lia|].
  split; [exact Hnd|]. intros key Hkey.
  destruct (Hdef key Hkey) as (v & Hv & Hvdef). exists v. split; [|exact Hvdef].
  rewrite (extends_getprop _ _ (VObj l) _ Hext Hl). exact Hv.
Qed.

Lemma boundToNames_evolves (w w' : world) :
  evolves w w' -> boundToNames (this w) -> boundToNames (this w').
Proof. intros [_ (Ha & _)] H. unfold boundToNames. rewrite Ha. exact H. Qed.

Lemma getprop_other_key (m : heap) (o v : value) (k k' : string) :
  getprop m o k = Ok v -> exists v', getprop m o k' = Ok v'.
Proof. destruct o; simpl; try discriminate; eauto. Qed.

(** [strictDispatch] on an instance as construction leaves it: whether it
    throws or dispatches, the instance stays so. *)
Lemma strictDispatch_ready (action : value) (w : world) :
  ready w -> boundToNames (this w) -> ready (snd (strictDispatch action w)).
Proof.
  intros Hready Hbound. unfold strictDispatch, bind, read.
  destruct (getprop (mem w) action "type") as [ty| |] eqn:Hty; try exact Hready.
  unfold getAction.
  destruct (lookup (toString ty) (_actionCreators (this w))) as [a|] eqn:Ha;
    [|exact Hready].
  destruct (getprop_other_key _ _ _ _ "payload" Hty) as [payload ->].
  destruct (getprop_other_key _ _ _ _ "meta" Hty) as [meta ->].
  unfold callAction, _createBoundAction, bind, new. simpl alloc. cbv iota beta.
  set (w1 := {| mem := mem w ++ [plain (actionProps (mem w) (boundType a) payload meta)];
                this := this w |}).
  assert (Hready1 : ready w1) by (apply (ready_new _ w Hready)).
  destruct (dispatch_known (length (mem w)) (boundType a) w1 Hready1) as (w' & Hrun & Hready').
  - unfold getprop. subst w1. cbn [mem]. rewrite ownProps_alloc, actionProps_shape.
    reflexivity.
  - apply knownType_true. left. rewrite (Hbound _ _ Ha).
    eapply lookup_Some_In. exact Ha.
  - change (ready (snd (dispatch (VObj (length (mem w))) w1))).
    rewrite Hrun. exact Hready'.
Qed.

Lemma perform_reachable (fuel : nat) (c : call) (w : world) :
  ready w /\ boundToNames (this w) ->
  ready (snd (perform fuel c w)) /\ boundToNames (this (snd (perform fuel c w))).
Proof.
  intros [Hready Hbound].
  split; [|eapply boundToNames_evolves; [apply evolves_perform|exact Hbound]].
  destruct c; simpl; try exact Hready.
  - pose proof (quiet_select fuel queryString options state w) as H.
    destruct (select _ _ _ _ w). eapply ready_quiet; eassumption.
  - pose proof (quiet_selectOne fuel selectorName options state w) as H.
    destruct (selectOne _ _ _ _ w). eapply ready_quiet; eassumption.
  - pose proof (strictDispatch_ready action w Hready Hbound) as H.
    destruct (strictDispatch action w). exact H.
  - pose proof (quiet_select fuel queryString componentProps state w) as H.
    unfold createMapStateToProps. destruct (select _ _ _ _ w).
    eapply ready_quiet; eassumption.
Qed.

Lemma lookup_set_inv {A : Type} (k k' : string) (v a : A) (o : list (string * A)) :
  lookup k' (set k v o) = Some a -> (k' = k /\ a = v) \/ lookup k' o = Some a.
Proof.
  destruct (String.eqb_spec k k') as [->|Hne].
  - rewrite lookup_set_eq. intros [= ->]. auto.
  - rewrite lookup_set_ne by assumption. auto.
Qed.

Lemma registerActions_bound (slice : string) (names : list string)
    (registry : list (string * boundAction)) :
  (forall k a, lookup k registry = Some a -> boundType a = k) ->
  forall k a, lookup k (registerActions slice names registry) = Some a -> boundType a = k.
Proof.
  unfold registerActions. revert registry.
  induction names as [|n names IH]; intros registry H; simpl; [exact H|].
  apply IH. intros k a Hk. apply lookup_set_inv in Hk as [[-> ->]|Hk]; [reflexivity|].
  apply H. exact Hk.
Qed.

Lemma registered_bound (slices : list sliceDescriptor) (w : world) :
  boundToNames (this w) ->
  boundToNames (this (fold_left (fun w' slice => _registerStateSlice slice w') slices w)).
Proof.
  revert w. induction slices as [|d slices IH]; intros w H; simpl; [exact H|].
  apply IH. unfold boundToNames. simpl. apply registerActions_bound. exact H.
Qed.

(** Whatever is called on an instance after [new StrictRedux(slices)],
    the store keeps a state object with a defined entry for every slice,
    and every action creator dispatches the type it is registered
    under. *)
Lemma reachable_ready (slices : list sliceDescriptor) (m : heap)
    (fuel : nat) (calls : list call) :
  ready (performAll fuel calls (snd (construct slices m))) /\
  boundToNames (this (performAll fuel calls (snd (construct slices m)))).
Proof.
  assert (Hstart : ready (snd (construct slices m)) /\
                   boundToNames (this (snd (construct slices m)))).
  { split; [apply built_ready|].
    eapply boundToNames_evolves.
    - unfold construct, _buildStore. apply preserves_createStore.
    - apply registered_bound. intros k a. discriminate. }
  revert Hstart. unfold performAll. generalize (snd (construct slices m)) as w.
  induction calls as [|c calls IH]; intros w H; simpl; [exact H|].
  apply IH, perform_reachable, H.
Qed.

(* ===================================================================== *)
(** ** The registries after construction, name by name                    *)
(* ===================================================================== *)

Lemma construct_registerAll (slices : list sliceDescriptor) (m : heap) :
  construct slices m = createStore (registerAll slices (blank m)).
Proof. reflexivity. Qed.

Lemma registerAll_snoc (slices : list sliceDescriptor) (d : sliceDescriptor) (w : world) :
  registerAll (slices ++ [d]) w = _registerStateSlice d (registerAll slices w).
Proof. unfold registerAll. rewrite fold_left_app. reflexivity. Qed.

Lemma registerAll_mem (slices : list sliceDescriptor) (w : world) :
  mem (registerAll slices w) = mem w.
Proof.
  induction slices as [|d slices IH] using rev_ind; [reflexivity|].
  rewrite registerAll_snoc. exact IH.
Qed.

Lemma registerAll_store (slices : list sliceDescriptor) (w : world) :
  _store (this (registerAll slices w)) = _store (this w).
Proof.
  induction slices as [|d slices IH] using rev_ind; [reflexivity|].
  rewrite registerAll_snoc. exact IH.
Qed.

Lemma sameInstance_createStore (w : world) : sameInstance w (snd (createStore w)).
Proof.
  apply (keeps_createStore sameInstance).
  - intros w0. split; [apply extends_refl|auto].
  - intros w1 w2 w3 (E1 & S1 & R1 & A1) (E2 & S2 & R2 & A2).
    split; [eapply extends_trans; eassumption|]. repeat split; congruence.
  - intros p w0. split; [apply extends_alloc|auto].
  - intros s w0. split; [apply extends_refl|auto].
Qed.







Lemma keys_fold_register (slice : string) (all : list (string * selectorFn))
    (names : list string) (registry : list (string * selectorEntry)) (name : string) :
  (forall key, In key names -> In key (keys all)) ->
  In name (keys (fold_left
                   (fun acc sliceSelectorName =>
                      match lookup sliceSelectorName all with
                      | Some f => set (fullNameOf slice sliceSelectorName)
                                    (freshEntry slice sliceSelectorName f) acc
                      | None => acc
                      end)
                   names registry)) <->
  In name (keys registry) \/ exists key, In key names /\ name = fullNameOf slice key.
Proof.
  revert registry. induction names as [|n names IH]; intros registry Hall; simpl.
  - split; [auto|intros [H|(key & [] & _)]; exact H].
  - rewrite IH by (intros key Hkey; apply Hall; simpl; auto).
    assert (Hn : In n (keys all)) by (apply Hall; simpl; auto).
    apply lookup_In_keys in Hn. destruct (lookup n all) as [f|]; [|congruence].
    rewrite In_keys_set. split.
    + intros [[->|H]|(key & Hkey & ->)]; eauto.
    + intros [H|(key & [<-|Hkey] & ->)]; eauto.
Qed.

Lemma keys_registerSelectors (slice : string) (all : list (string * selectorFn))
    (registry : list (string * selectorEntry)) (name : string) :
  In name (keys (registerSelectors slice all registry)) <->
  In name (keys registry) \/ exists key, In key (keys all) /\ name = fullNameOf slice key.
Proof. unfold registerSelectors. apply keys_fold_register. auto. Qed.

Lemma registerAll_selector_keys (slices : list sliceDescriptor) (w : world) (name : string) :
  In name (keys (_selectors (this (registerAll slices w)))) <->
  In name (keys (_selectors (this w))) \/
  exists d key, In d slices /\ In key (keys (allSelectorsOf (mem w) d)) /\
                name = fullNameOf (sliceName d) key.
Proof.
  induction slices as [|d slices IH] using rev_ind.
  - simpl. split; [auto|intros [H|(d & key & [] & _)]; exact H].
  - rewrite registerAll_snoc. unfold _registerStateSlice, _createSelectors. simpl.
    rewrite keys_registerSelectors, IH, registerAll_mem. split.
    + intros [[H|(d0 & key & Hd & Hkey & ->)]|(key & Hkey & ->)].
      * auto.
      * right. exists d0, key. rewrite in_app_iff. auto.
      * right. exists d, key. rewrite in_app_iff. simpl. auto.
    + intros [H|(d0 & key & Hd & Hkey & ->)]; [auto|].
      apply in_app_iff in Hd as [Hd|[<-|[]]]; [left; right; eauto|right; eauto].
Qed.

Lemma madeFor_more (slices slices' : list sliceDescriptor) (m : heap)
    (registry : list (string * selectorEntry)) :
  incl slices slices' -> madeFor slices m registry -> madeFor slices' m registry.
Proof.
  intros Hincl H name e He. destruct (H name e He) as (d & key & sel & Hd & Hrest).
  exists d, key, sel. split; [apply Hincl; exact Hd|exact Hrest].
Qed.

Lemma madeFor_register (slices : list sliceDescriptor) (m : heap) (d : sliceDescriptor)
    (names : list string) (registry : list (string * selectorEntry)) :
  In d slices ->
  madeFor slices m registry ->
  madeFor slices m
    (fold_left
       (fun acc sliceSelectorName =>
          match lookup sliceSelectorName (allSelectorsOf m d) with
          | Some f => set (fullNameOf (sliceName d) sliceSelectorName)
                        (freshEntry (sliceName d) sliceSelectorName f) acc
          | None => acc
          end)
       names registry).
Proof.
  intros Hd. revert registry. induction names as [|n names IH]; intros registry H; simpl;
    [exact H|].
  apply IH. destruct (lookup n (allSelectorsOf m d)) as [f|] eqn:E; [|exact H].
  intros name e He. apply lookup_set_inv in He as [[-> ->]|He]; [|apply H; exact He].
  exists d, n, f. auto.
Qed.

Lemma registerAll_madeFor (slices : list sliceDescriptor) (m : heap) :
  madeFor slices m (_selectors (this (registerAll slices (blank m)))).
Proof.
  induction slices as [|d slices IH] using rev_ind.
  - intros name e. discriminate.
  - rewrite registerAll_snoc. unfold _registerStateSlice, _createSelectors. simpl.
    rewrite registerAll_mem. simpl. apply madeFor_register.
    + apply in_app_iff. simpl. auto.
    + eapply madeFor_more; [|exact IH]. apply incl_appl, incl_refl.
Qed.






(* ===================================================================== *)
(** ** The state of the store after construction                          *)
(* ===================================================================== *)

Lemma allocates_refl (w : world) : allocates w w.
Proof. split; [apply extends_refl|reflexivity]. Qed.

Lemma allocates_trans (w1 w2 w3 : world) :
  allocates w1 w2 -> allocates w2 w3 -> allocates w1 w3.
Proof. intros [E1 T1] [E2 T2]. split; [eapply extends_trans; eassumption|congruence]. Qed.

Lemma allocates_new (p : props) (w : world) : allocates w (snd (new p w)).
Proof. split; [apply extends_alloc|reflexivity]. Qed.

Lemma allocates_createReducer (d : sliceDescriptor) (stateArg action : value) (w : world) :
  allocates w (snd (_createReducer d stateArg action w)).
Proof.
  apply (keeps_createReducer allocates);
    [exact allocates_refl|exact allocates_trans|exact allocates_new].
Qed.

Lemma strict_eq_refl (v : value) : strict_eq v v = true.
Proof. apply strict_eq_true. reflexivity. Qed.

(** The loop of the combined reducer, key by key: the entry of the next
    state is what the reducer of the slice returned on the entry of the
    previous state. *)
Lemma combineLoop_entry (l0 : loc) (action : value)
    (reducers : list (string * sliceDescriptor)) :
  forall (nextState : props) (hasChanged : bool) (w w' : world) (r : props * bool),
    l0 < length (mem w) ->
    NoDup (keys reducers) ->
    combineLoop reducers (VObj l0) action nextState hasChanged w = (Ok r, w') ->
    allocates w w' /\
    (hasChanged = true -> snd r = true) /\
    (forall key, ~ In key (keys reducers) -> lookup key (fst r) = lookup key nextState) /\
    (forall key d,
       In (key, d) reducers ->
       exists v next w1 w2,
         getprop (mem w) (VObj l0) key = Ok v /\
         allocates w w1 /\
         _createReducer d v action w1 = (Ok next, w2) /\
         allocates w2 w' /\
         lookup key (fst r) = Some next /\
         (strict_eq next v = false -> snd r = true)).
Proof.
  induction reducers as [|[k d] rest IH]; intros nextState hasChanged w w' r Hl0 Hnd Hrun.
  - simpl in Hrun. injection Hrun as <- <-.
    split; [apply allocates_refl|]. split; [auto|]. split; [reflexivity|intros ? ? []].
  - simpl in Hrun. unfold bind at 1, read in Hrun.
    pose (prev := match lookup k (ownProps (mem w) (VObj l0)) with
                  | Some v => v
                  | None => VUndefined
                  end).
    assert (Hread : getprop (mem w) (VObj l0) k = Ok prev) by reflexivity.
    rewrite Hread in Hrun. unfold bind at 1 in Hrun.
    pose proof (allocates_createReducer d prev action w) as Hal.
    destruct (_createReducer d prev action w) as [[next| |] w1] eqn:Hred; try discriminate.
    simpl in Hal.
    assert (Hrest : combineLoop rest (VObj l0) action (set k next nextState)
                      (hasChanged || negb (strict_eq next prev)) w1 = (Ok r, w')).
    { destruct next; try exact Hrun. discriminate. }
    inversion Hnd as [|? ? Hk Hnd']; subst.
    assert (Hl1 : l0 < length (mem w1)).
    { destruct Hal as [Hext _]. pose proof (extends_length _ _ Hext). lia. }
    destruct (IH _ _ _ _ _ Hl1 Hnd' Hrest) as (Hal' & Hmono & Hskip & Hin).
    split; [eapply allocates_trans; eassumption|]. split; [|split].
    + intros ->. apply Hmono. reflexivity.
    + intros key Hout. simpl in Hout. rewrite Hskip by tauto. apply lookup_set_ne. tauto.
    + intros key d' [E|Hkd].
      * injection E as <- <-. exists prev, next, w, w1.
        split; [exact Hread|]. split; [apply allocates_refl|]. split; [exact Hred|].
        split; [exact Hal'|]. split.
        -- rewrite (Hskip k Hk). apply lookup_set_eq.
        -- intros Hne. apply Hmono. rewrite Hne. apply orb_true_r.
      * destruct (Hin key d' Hkd) as (v & nx & wa & wb & Hv & Ha & Hr & Hb & Hl & Hc).
        exists v, nx, wa, wb. split.
        -- rewrite <- Hv. symmetry.
           apply (extends_getprop (mem w) (mem w1) (VObj l0)); [apply Hal|exact Hl0].
        -- split; [eapply allocates_trans; eassumption|]. auto.
Qed.

Lemma getprop_alloc (m : heap) (p : props) (k : string) :
  getprop (m ++ [plain p]) (VObj (length m)) k
  = Ok (match lookup k p with Some v => v | None => VUndefined end).
Proof. unfold getprop. rewrite ownProps_alloc. reflexivity. Qed.

Lemma allocates_getprop (w w' : world) (l : loc) (k : string) :
  allocates w w' -> l < length (mem w) ->
  getprop (mem w') (VObj l) k = getprop (mem w) (VObj l) k.
Proof. intros [Hext _] Hl. apply (extends_getprop _ _ (VObj l)); assumption. Qed.

(** The combined reducer, unfolded: on the first run, and on a state
    object. *)
Lemma combination_first (reducers : list (string * sliceDescriptor)) (action : value)
    (w : world) :
  combination reducers VUndefined action w =
  match combineLoop reducers (VObj (length (mem w))) action [] false
          {| mem := mem w ++ [plain []]; this := this w |} with
  | (Ok r, w') =>
      if snd r
      then (Ok (VObj (length (mem w'))), {| mem := mem w' ++ [plain (fst r)]; this := this w' |})
      else (Ok (VObj (length (mem w))), w')
  | (Throw e, w') => (Throw e, w')
  | (Timeout, w') => (Timeout, w')
  end.
Proof.
  unfold combination, bind, new. simpl.
  destruct (combineLoop _ _ _ _ _ _) as [[r| |] w']; try reflexivity.
  destruct (snd r); reflexivity.
Qed.

Lemma combination_next (reducers : list (string * sliceDescriptor)) (l0 : loc)
    (action : value) (w : world) :
  combination reducers (VObj l0) action w =
  match combineLoop reducers (VObj l0) action [] false w with
  | (Ok r, w') =>
      if snd r
      then (Ok (VObj (length (mem w'))), {| mem := mem w' ++ [plain (fst r)]; this := this w' |})
      else (Ok (VObj l0), w')
  | (Throw e, w') => (Throw e, w')
  | (Timeout, w') => (Timeout, w')
  end.
Proof.
  unfold combination, bind, new, ret. simpl.
  destruct (combineLoop _ _ _ _ _ _) as [[r| |] w']; try reflexivity.
  destruct (snd r); reflexivity.
Qed.

(** Redux's first run of the root reducer: a slice that applies no
    handler to the bootstrap action starts as its [initialState]. *)
Lemma createStore_initial (w0 : world) (key : string) (d : sliceDescriptor) :
  NoDup (keys (_reducers (this w0))) ->
  In (key, d) (_reducers (this w0)) ->
  ownedHandler d reduxInit = None ->
  exists w', createStore w0 = (Ok tt, w') /\ sliceRef w' key = Ok (VObj (initialState d)).
Proof.
  intros Hnd Hin Hown.
  unfold createStore, bind at 1, new. simpl alloc. cbv iota beta.
  set (w1 := {| mem := mem w0 ++ [plain [("type", VStr reduxInit)]]; this := this w0 |}).
  set (la := length (mem w0)).
  change (exists w',
            (next <- combination (_reducers (this w0)) VUndefined (VObj la) ;;
             setStore next) w1 = (Ok tt, w') /\
            sliceRef w' key = Ok (VObj (initialState d))).
  unfold bind. rewrite combination_first.
  set (w2 := {| mem := mem w1 ++ [plain []]; this := this w1 |}).
  assert (Hty2 : getprop (mem w2) (VObj la) "type" = Ok (VStr reduxInit)).
  { subst w2 w1 la. simpl. rewrite nth_error_app1 by (rewrite length_app; simpl; lia).
    rewrite nth_error_app2, Nat.sub_diag by lia. reflexivity. }
  assert (Hknown : knownType (this w2) reduxInit = true).
  { apply knownType_true. right. reflexivity. }
  assert (Hls : length (mem w1) < length (mem w2)).
  { subst w2. simpl. rewrite !length_app. simpl. lia. }
  assert (Hla : la < length (mem w2)).
  { subst w2 w1 la. simpl. rewrite !length_app. simpl. lia. }
  destruct (combineLoop_known reduxInit (length (mem w1)) la (_reducers (this w0)) [] false w2
              Hty2 Hknown Hls) as (r & w3 & Hloop & _); [discriminate|].
  rewrite Hloop.
  destruct (combineLoop_entry _ _ _ _ _ _ _ _ Hls Hnd Hloop) as (Hal & _ & _ & Hentry).
  destruct (Hentry key d Hin) as (v & next & wa & wb & Hv & Ha & Hred & Hb & Hl & Hc).
  assert (Ev : v = VUndefined).
  { subst w2. simpl mem in Hv. rewrite getprop_alloc in Hv. simpl in Hv. congruence. }
  subst v.
  assert (Htya : getprop (mem wa) (VObj la) "type" = Ok (VStr reduxInit)).
  { rewrite (allocates_getprop w2 wa la _ Ha Hla). exact Hty2. }
  assert (Hknowna : knownType (this wa) reduxInit = true).
  { apply knownType_true. right. reflexivity. }
  rewrite (createReducer_not_owned d VUndefined (VObj la) reduxInit wa Htya Hknowna Hown)
    in Hred.
  injection Hred as <- <-. simpl in Hc, Hl.
  rewrite (Hc eq_refl). eexists. split; [reflexivity|].
  unfold sliceRef. simpl.
  rewrite nth_error_app2, Nat.sub_diag by lia. simpl. rewrite Hl. reflexivity.
Qed.

Lemma lookup_In_pair {A : Type} (k : string) (v : A) (o : list (string * A)) :
  lookup k o = Some v -> In (k, v) o.
Proof.
  induction o as [|[k' v'] o IH]; simpl; [discriminate|].
  destruct (String.eqb_spec k' k) as [->|Hne]; [intros [= ->]; auto|auto].
Qed.

Lemma registerAll_reducer (slices : list sliceDescriptor) (w : world) (d : sliceDescriptor) :
  NoDup (map sliceName slices) ->
  In d slices ->
  lookup (sliceName d) (_reducers (this (registerAll slices w))) = Some d.
Proof.
  induction slices as [|d' slices IH] using rev_ind; intros Hnd Hin; [contradiction|].
  rewrite registerAll_snoc. unfold _registerStateSlice, _createSelectors. simpl.
  rewrite map_app in Hnd. simpl in Hnd.
  apply in_app_iff in Hin as [Hin|[<-|[]]]; [|apply lookup_set_eq].
  destruct (string_dec (sliceName d') (sliceName d)) as [E|Hne].
  - exfalso. apply NoDup_remove_2 in Hnd. apply Hnd. rewrite app_nil_r, E.
    apply in_map. exact Hin.
  - rewrite lookup_set_ne by assumption. apply IH; [|exact Hin].
    apply NoDup_remove_1 in Hnd. rewrite app_nil_r in Hnd. exact Hnd.
Qed.



(* ===================================================================== *)
(** ** What a dispatch does to the state of the store                     *)
(* ===================================================================== *)

(** The loop of the combined reducer when no slice applies a handler:
    nothing is allocated and nothing has changed. *)
Lemma combineLoop_idle (actionType : string) (l0 la : loc)
    (reducers : list (string * sliceDescriptor)) :
  forall (nextState : props) (hasChanged : bool) (w : world),
    getprop (mem w) (VObj la) "type" = Ok (VStr actionType) ->
    knownType (this w) actionType = true ->
    (forall key d,
       In (key, d) reducers ->
       ownedHandler d actionType = None /\
       exists v, getprop (mem w) (VObj l0) key = Ok v /\ v <> VUndefined) ->
    exists next,
      combineLoop reducers (VObj l0) (VObj la) nextState hasChanged w
      = (Ok (next, hasChanged), w).
Proof.
  induction reducers as [|[k d] rest IH]; intros nextState hasChanged w Hty Hknown Hall.
  - exists nextState. reflexivity.
  - destruct (Hall k d (or_introl eq_refl)) as (Hown & v & Hv & Hdef).
    simpl combineLoop. unfold bind at 1, read. rewrite Hv. unfold bind at 1.
    rewrite (createReducer_not_owned d v (VObj la) actionType w Hty Hknown Hown).
    rewrite (stateOrInitial_defined d v Hdef), strict_eq_refl, orb_false_r.
    destruct (IH (set k v nextState) hasChanged w Hty Hknown) as [next Hnext].
    { intros key d' Hin. apply Hall. right. exact Hin. }
    exists next. destruct v; try exact Hnext. congruence.
Qed.

(** X4.  On an instance as construction leaves it, the dispatch of an
    action of known type to which no slice applies a handler changes
    nothing: no object is allocated and the store keeps the very state
    object it had.  The segment of the type that the reducers look up is
    taken not to be a name of [Object.prototype], under which every slice
    finds a function whether or not it has such a handler.  With the one
    slice [s] whose only handler key is [a_b], the registered action
    [s_a_b] is such an action. *)
Theorem dispatch_unhandled (la : loc) (actionType : string) (w : world) :
  ready w ->
  getprop (mem w) (VObj la) "type" = Ok (VStr actionType) ->
  knownType (this w) actionType = true ->
  ownName (sliceActionTypeOf actionType) ->
  (forall key d, In (key, d) (_reducers (this w)) -> ownedHandler d actionType = None) ->
  dispatch (VObj la) w = (Ok (VObj la), w).
Proof.
  intros (l0 & Hstore & Hl0 & Hnd & Hdef) Hty Hknown _ Hnone.
  unfold dispatch, bind at 1, getState. rewrite Hstore.
  unfold bind at 1, read. rewrite Hty.
  unfold bind at 1. rewrite combination_next.
  destruct (combineLoop_idle actionType l0 la (_reducers (this w)) [] false w Hty Hknown)
    as [next Hloop].
  { intros key d Hin. split; [eapply Hnone; exact Hin|].
    apply Hdef. apply in_map_iff. exists (key, d). auto. }
  rewrite Hloop. simpl. unfold bind, setStore, ret. simpl.
  destruct w as [m [sels reds acts store]]. simpl in *. subst store. reflexivity.
Qed.

Lemma dispatch_unhandled_witness :
  dispatch (VObj 7) Examples.slipWorld = (Ok (VObj 7), Examples.slipWorld).
Proof.
  apply (dispatch_unhandled 7 "s_a_b" Examples.slipWorld).
  - apply ready_new, built_ready.
  - reflexivity.
  - reflexivity.
  - unfold ownName. simpl. intuition discriminate.
  - simpl. intros key d [[= <- <-]|[]]. reflexivity.
Defined.

(** [dispatch], unfolded, on a store with a state object and an action
    whose type is a string. *)
Lemma dispatch_step (la l0 : loc) (actionType : string) (w : world) :
  _store (this w) = Some (VObj l0) ->
  getprop (mem w) (VObj la) "type" = Ok (VStr actionType) ->
  dispatch (VObj la) w =
  match combination (_reducers (this w)) (VObj l0) (VObj la) w with
  | (Ok next, w') => (Ok (VObj la), snd (setStore next w'))
  | (Throw e, w') => (Throw e, w')
  | (Timeout, w') => (Timeout, w')
  end.
Proof.
  intros Hstore Hty. unfold dispatch, bind at 1, getState. rewrite Hstore.
  unfold bind at 1, read. rewrite Hty. unfold bind, setStore, ret.
  destruct (combination _ _ _ w) as [[next| |] w']; reflexivity.
Qed.

Lemma evolves_dispatch (action : value) (w : world) : evolves w (snd (dispatch action w)).
Proof.
  apply (keeps_dispatch evolves);
    [exact evolves_refl|exact evolves_trans|exact evolves_new|exact evolves_store].
Qed.

Lemma allocated_fresh (m : heap) (v : value) : allocated m v -> v <> VObj (length m).
Proof. intros H ->. simpl in H. lia. Qed.

(** A dispatch on an instance as construction leaves it, seen from a slice
    that applies a handler: the state of the store is a new object, and
    it holds for the slice a new object, the properties the handler
    returned merged over those of the previous state of the slice. *)
Lemma dispatch_owned (la : loc) (actionType key : string) (d : sliceDescriptor)
    (h : handler) (payload v : value) (w : world) :
  ready w ->
  getprop (mem w) (VObj la) "type" = Ok (VStr actionType) ->
  getprop (mem w) (VObj la) "payload" = Ok payload ->
  knownType (this w) actionType = true ->
  In (key, d) (_reducers (this w)) ->
  ownedHandler d actionType = Some h ->
  sliceRef w key = Ok v ->
  allocated (mem w) v ->
  exists w' l m1,
    dispatch (VObj la) w = (Ok (VObj la), w') /\
    ready w' /\
    _store (this w') <> _store (this w) /\
    sliceRef w' key = Ok (VObj l) /\
    length (mem w) <= l /\
    extends (mem w) m1 /\
    ownProps (mem w') (VObj l) = assign (ownProps (mem w) v) (h m1 v payload).
Proof.
  intros Hready Hty Hpay Hknown Hin Hown Hv Hv_alloc.
  destruct (dispatch_known la actionType w Hready Hty Hknown) as (w' & Hrun & Hready').
  destruct Hready as (l0 & Hstore & Hl0 & Hnd & Hdef).
  unfold sliceRef in Hv. rewrite Hstore in Hv.
  assert (Hvdef : v <> VUndefined).
  { destruct (Hdef key) as (v' & Hv' & Hd'); [|congruence].
    apply in_map_iff. exists (key, d). auto. }
  rewrite (dispatch_step la l0 actionType w Hstore Hty), combination_next in Hrun.
  destruct (combineLoop (_reducers (this w)) (VObj l0) (VObj la) [] false w)
    as [[r| |] w3] eqn:Hloop; try discriminate.
  destruct (combineLoop_entry _ _ _ _ _ _ _ _ Hl0 Hnd Hloop) as (Hal & _ & _ & Hentry).
  destruct (Hentry key d Hin) as (v0 & next & wa & wb & Hv0 & Ha & Hred & Hb & Hl & Hc).
  assert (v0 = v) by congruence. subst v0.
  destruct (getprop_string_allocated _ _ _ _ Hty) as [la' [Ela Hla]]. injection Ela as <-.
  assert (Htya : getprop (mem wa) (VObj la) "type" = Ok (VStr actionType)).
  { rewrite (allocates_getprop w wa la _ Ha Hla). exact Hty. }
  assert (Hpaya : getprop (mem wa) (VObj la) "payload" = Ok payload).
  { rewrite (allocates_getprop w wa la _ Ha Hla). exact Hpay. }
  assert (Hknowna : knownType (this wa) actionType = true).
  { destruct Ha as [_ ->]. exact Hknown. }
  rewrite (createReducer_owned d h v (VObj la) payload actionType wa Htya Hpaya Hknowna Hown)
    in Hred.
  injection Hred as <- <-. rewrite (stateOrInitial_defined d v Hvdef) in Hb.
  assert (Hfresh : strict_eq (VObj (length (mem wa))) v = false).
  { destruct (strict_eq (VObj (length (mem wa))) v) eqn:E; [|reflexivity].
    apply strict_eq_true in E. symmetry in E.
    apply allocated_fresh in E; [contradiction|].
    eapply extends_allocated; [apply Ha|exact Hv_alloc]. }
  rewrite (Hc Hfresh) in Hrun. injection Hrun as <-.
  exists (snd (setStore (VObj (length (mem w3)))
                 {| mem := mem w3 ++ [plain (fst r)]; this := this w3 |})),
         (length (mem wa)), (mem wa).
  split.
  { rewrite (dispatch_step la l0 actionType w Hstore Hty), combination_next, Hloop,
      (Hc Hfresh). reflexivity. }
  split; [exact Hready'|]. split; [|split; [|split; [|split]]].
  - simpl. rewrite Hstore. intros [= E]. destruct Hal as [Hext _].
    pose proof (extends_length _ _ Hext). lia.
  - unfold sliceRef. simpl. rewrite nth_error_app2, Nat.sub_diag by lia. simpl.
    rewrite Hl. reflexivity.
  - destruct Ha as [Hext _]. apply extends_length. exact Hext.
  - apply Ha.
  - simpl. destruct Hb as [[extra Hext] _]. simpl in Hext. rewrite Hext.
    rewrite <- !app_assoc. rewrite nth_error_app2, Nat.sub_diag by lia. simpl.
    rewrite (extends_ownProps (mem w) (mem wa) v); [reflexivity|apply Ha|exact Hv_alloc].
Qed.

(** An action creator called on an instance as construction leaves it,
    seen from a slice that applies a handler. *)
Lemma callAction_owned (w : world) (name key : string) (a : boundAction)
    (d : sliceDescriptor) (h : handler) (payload meta v : value) :
  ready w ->
  boundToNames (this w) ->
  getAction (this w) name = Ok a ->
  In (key, d) (_reducers (this w)) ->
  ownedHandler d name = Some h ->
  sliceRef w key = Ok v ->
  allocated (mem w) v ->
  exists w' l m1,
    callAction a payload meta w = (Ok (VObj (length (mem w))), w') /\
    ready w' /\
    evolves w w' /\
    _store (this w') <> _store (this w) /\
    sliceRef w' key = Ok (VObj l) /\
    length (mem w) < l /\
    extends (mem w) m1 /\
    ownProps (mem w') (VObj l) = assign (ownProps (mem w) v) (h m1 v payload).
Proof.
  intros Hready Hbound Hget Hin Hown Hv Hv_alloc.
  unfold getAction in Hget.
  destruct (lookup name (_actionCreators (this w))) as [a'|] eqn:Ha; [|discriminate].
  injection Hget as ->.
  pose proof (Hbound name a Ha) as Hname.
  unfold callAction, _createBoundAction, bind, new. simpl alloc. cbv iota beta.
  set (w1 := {| mem := mem w ++ [plain (actionProps (mem w) (boundType a) payload meta)];
                this := this w |}).
  assert (Hext : extends (mem w) (mem w1)) by (eexists; reflexivity).
  assert (Hty : getprop (mem w1) (VObj (length (mem w))) "type" = Ok (VStr name)).
  { subst w1. simpl mem. rewrite getprop_alloc, actionProps_shape, Hname. reflexivity. }
  assert (Hpay : getprop (mem w1) (VObj (length (mem w))) "payload" = Ok payload).
  { subst w1. simpl mem. rewrite getprop_alloc, actionProps_shape. reflexivity. }
  assert (Hknown : knownType (this w1) name = true).
  { apply knownType_true. left. eapply lookup_Some_In. exact Ha. }
  assert (Hv1 : sliceRef w1 key = Ok v).
  { destruct Hready as (l0 & Hstore & Hl0 & _).
    unfold sliceRef in *. simpl. rewrite Hstore in *.
    rewrite <- Hv. apply (extends_getprop (mem w) (mem w1) (VObj l0)); assumption. }
  destruct (dispatch_owned (length (mem w)) name key d h payload v w1
              (ready_new _ w Hready) Hty Hpay Hknown Hin Hown Hv1
              (extends_allocated _ _ _ Hext Hv_alloc))
    as (w' & l & m1 & Hrun & Hready' & Hstore' & Hslice & Hl & Hm1 & Hprops).
  exists w', l, m1. split; [exact Hrun|]. split; [exact Hready'|]. split.
  { pose proof (evolves_dispatch (VObj (length (mem w))) w1) as Hev.
    rewrite Hrun in Hev. eapply evolves_trans; [|exact Hev]. apply (evolves_new _ w). }
  split; [exact Hstore'|]. split; [exact Hslice|]. split; [|split].
  - subst w1. simpl in Hl. rewrite length_app in Hl. simpl in Hl. lia.
  - eapply extends_trans; eassumption.
  - rewrite Hprops. f_equal. apply extends_ownProps; assumption.
Qed.

(** X5.  On an instance as construction leaves it, calling the action
    creator found under [name] with [(payload, meta)] returns the action
    it built, and for a slice whose reducer applies a handler [h] to
    [name] the store then holds another state object, in which the slice
    is a new object: the properties [h] returned for the previous state
    of the slice and the payload, merged over the properties of that
    previous state. *)
Theorem action_creator_updates_slice (w : world) (name key : string) (a : boundAction)
    (d : sliceDescriptor) (h : handler) (payload meta v : value) :
  ready w ->
  boundToNames (this w) ->
  getAction (this w) name = Ok a ->
  In (key, d) (_reducers (this w)) ->
  ownedHandler d name = Some h ->
  sliceRef w key = Ok v ->
  allocated (mem w) v ->
  exists w' l m1,
    callAction a payload meta w = (Ok (VObj (length (mem w))), w') /\
    ready w' /\
    _store (this w') <> _store (this w) /\
    sliceRef w' key = Ok (VObj l) /\
    length (mem w) < l /\
    extends (mem w) m1 /\
    ownProps (mem w') (VObj l) = assign (ownProps (mem w) v) (h m1 v payload).
Proof.
  intros Hready Hbound Hget Hin Hown Hv Hv_alloc.
  destruct (callAction_owned w name key a d h payload meta v
              Hready Hbound Hget Hin Hown Hv Hv_alloc)
    as (w' & l & m1 & Hcall & Hready' & _ & Hrest).
  exists w', l, m1. auto.
Qed.

Lemma action_creator_updates_slice_witness :
  exists w' l m1,
    callAction {| boundType := "counter_increment"; typeProperty := "counter_increment" |}
      (VNum 5) VUndefined Examples.counterWorld
    = (Ok (VObj (length (mem Examples.counterWorld))), w') /\
    ready w' /\
    _store (this w') <> _store (this Examples.counterWorld) /\
    sliceRef w' "counter" = Ok (VObj l) /\
    length (mem Examples.counterWorld) < l /\
    extends (mem Examples.counterWorld) m1 /\
    ownProps (mem w') (VObj l)
    = assign (ownProps (mem Examples.counterWorld) (VObj 0))
        (Examples.increment m1 (VObj 0) (VNum 5)).
Proof.
  apply (action_creator_updates_slice Examples.counterWorld "counter_increment" "counter"
           _ Examples.counter Examples.increment (VNum 5) VUndefined (VObj 0)).
  - apply built_ready.
  - apply (proj2 (reachable_ready [Examples.counter] Examples.heap0 0 [])).
  - reflexivity.
  - simpl. auto.
  - reflexivity.
  - reflexivity.
  - vm_compute. lia.
Defined.

(* ===================================================================== *)
(** ** Separators in names, and strictDispatch on a registered type       *)
(* ===================================================================== *)

Lemma sliceActionTypeOf_second (a b rest : string) :
  includes a SliceSeparator = false ->
  includes b SliceSeparator = false ->
  sliceActionTypeOf (fullNameOf a (fullNameOf b rest)) = b.
Proof.
  intros Ha Hb. unfold sliceActionTypeOf, fullNameOf.
  rewrite (split_append _ _ _ Ha), (split_append _ _ _ Hb). reflexivity.
Qed.

Lemma sliceActionTypeOf_single (actionType : string) :
  includes actionType SliceSeparator = false ->
  sliceActionTypeOf actionType = "undefined".
Proof. intros H. unfold sliceActionTypeOf. rewrite (split_free _ _ H). reflexivity. Qed.

Lemma fullNameOf_assoc (a b c : string) :
  fullNameOf (fullNameOf a b) c = fullNameOf a (fullNameOf b c).
Proof. unfold fullNameOf. rewrite append_assoc. reflexivity. Qed.

(** X6.  The reducer chooses the handler by the segment between the first
    and the second separator of the action type.  For a type [a_b_rest]
    with [a] and [b] free of the separator, and [b] not a name of
    [Object.prototype], a slice whose name is a prefix of the type applies
    its handler [b], whatever [rest] is, and no handler when it has none
    under [b]: the handler key [b_rest] of a slice [a] is never looked up
    for its own action [a_b_rest], and for a slice named [a_b] the action
    of its key [rest] looks up [b]. *)
Theorem reducer_reads_second_segment (d : sliceDescriptor) (a b rest : string) :
  includes a SliceSeparator = false ->
  includes b SliceSeparator = false ->
  ownName b ->
  ownedHandler d (fullNameOf a (fullNameOf b rest)) =
    (if startsWith (fullNameOf a (fullNameOf b rest)) (sliceName d)
     then lookup b (actionReducers d)
     else None) /\
  (sliceName d = a ->
   ownedHandler d (fullNameOf (sliceName d) (fullNameOf b rest)) = lookup b (actionReducers d)) /\
  (sliceName d = fullNameOf a b ->
   ownedHandler d (fullNameOf (sliceName d) rest) = lookup b (actionReducers d)).
Proof.
  intros Ha Hb _.
  assert (Hgen : forall d0,
             ownedHandler d0 (fullNameOf a (fullNameOf b rest)) =
             if startsWith (fullNameOf a (fullNameOf b rest)) (sliceName d0)
             then lookup b (actionReducers d0)
             else None).
  { intros d0. unfold ownedHandler. rewrite (sliceActionTypeOf_second a b rest Ha Hb).
    reflexivity. }
  split; [apply Hgen|]. split.
  - intros E. rewrite E, Hgen, E. unfold fullNameOf at 1. rewrite startsWith_append.
    reflexivity.
  - intros E. rewrite E, fullNameOf_assoc, Hgen, E, <- fullNameOf_assoc.
    unfold fullNameOf at 1. rewrite startsWith_append. reflexivity.
Qed.

Lemma reducer_reads_second_segment_witness :
  ownedHandler Examples.sliceU "s_a_b" = None.
Proof.
  refine (proj1 (proj2 (reducer_reads_second_segment Examples.sliceU "s" "a" "b"
                          eq_refl eq_refl _)) eq_refl).
  unfold ownName. simpl. intuition discriminate.
Defined.

(** [strictDispatch] of an action whose type is registered, on an
    instance as construction leaves it. *)
Lemma strictDispatch_registered (action : value) (actionType : string)
    (a : boundAction) (w : world) :
  ready w ->
  boundToNames (this w) ->
  getprop (mem w) action "type" = Ok (VStr actionType) ->
  getAction (this w) actionType = Ok a ->
  exists payload meta w',
    getprop (mem w) action "payload" = Ok payload /\
    getprop (mem w) action "meta" = Ok meta /\
    strictDispatch action w = (Ok (VObj (length (mem w))), w') /\
    VObj (length (mem w)) <> action /\
    ownProps (mem w') (VObj (length (mem w))) =
      [("type", VStr actionType); ("payload", payload)]
        ++ (if truthy meta then [("meta", meta)] else [])
        ++ (if instanceofError (mem w) payload then [("error", VBool true)] else []) /\
    ready w'.
Proof.
  intros Hready Hbound Hty Hget.
  destruct (getprop_other_key _ _ _ _ "payload" Hty) as [payload Hpay].
  destruct (getprop_other_key _ _ _ _ "meta" Hty) as [meta Hmeta].
  exists payload, meta.
  unfold strictDispatch, bind at 1, read. rewrite Hty. simpl toString. rewrite Hget.
  unfold bind at 1. rewrite Hpay. unfold bind at 1. rewrite Hmeta.
  unfold getAction in Hget.
  destruct (lookup actionType (_actionCreators (this w))) as [a'|] eqn:Ha; [|discriminate].
  injection Hget as ->. pose proof (Hbound _ _ Ha) as Hname.
  unfold callAction, _createBoundAction, bind, new. simpl alloc. cbv iota beta.
  set (w1 := {| mem := mem w ++ [plain (actionProps (mem w) (boundType a) payload meta)];
                this := this w |}).
  assert (Hty1 : getprop (mem w1) (VObj (length (mem w))) "type" = Ok (VStr actionType)).
  { subst w1. simpl mem. rewrite getprop_alloc, actionProps_shape, Hname. reflexivity. }
  assert (Hknown : knownType (this w1) actionType = true).
  { apply knownType_true. left. eapply lookup_Some_In. exact Ha. }
  destruct (dispatch_known (length (mem w)) actionType w1 (ready_new _ w Hready) Hty1 Hknown)
    as (w' & Hrun & Hready').
  exists w'. split; [reflexivity|]. split; [reflexivity|]. split; [exact Hrun|].
  split; [|split; [|exact Hready']].
  - destruct (getprop_string_allocated _ _ _ _ Hty) as [la [-> Hla]].
    intros [= E]. lia.
  - pose proof (evolves_dispatch (VObj (length (mem w))) w1) as [Hext _].
    rewrite Hrun in Hext. simpl in Hext.
    rewrite (extends_ownProps _ _ (VObj (length (mem w))) Hext).
    + subst w1. simpl mem. rewrite ownProps_alloc, actionProps_shape, Hname. reflexivity.
    + subst w1. simpl. rewrite length_app. simpl. lia.
Qed.

(** X7.  On an instance as construction leaves it, [strictDispatch(action)]
    of an action whose type is registered returns a new action object,
    not the one it was given: it has the type and [action.payload],
    [action.meta] when that is truthy, and [error: true] when the payload
    is an instance of [Error], and no other property of the action it was
    given. *)
Theorem strictDispatch_builds_new_action (action : value) (actionType : string)
    (a : boundAction) (w : world) :
  ready w ->
  boundToNames (this w) ->
  getprop (mem w) action "type" = Ok (VStr actionType) ->
  getAction (this w) actionType = Ok a ->
  exists payload meta w',
    getprop (mem w) action "payload" = Ok payload /\
    getprop (mem w) action "meta" = Ok meta /\
    strictDispatch action w = (Ok (VObj (length (mem w))), w') /\
    VObj (length (mem w)) <> action /\
    ownProps (mem w') (VObj (length (mem w))) =
      [("type", VStr actionType); ("payload", payload)]
        ++ (if truthy meta then [("meta", meta)] else [])
        ++ (if instanceofError (mem w) payload then [("error", VBool true)] else []) /\
    ready w'.
Proof. exact (strictDispatch_registered action actionType a w). Qed.

Lemma strictDispatch_builds_new_action_witness :
  exists payload meta w',
    getprop (mem Examples.incrementWorld) (VObj 7) "payload" = Ok payload /\
    getprop (mem Examples.incrementWorld) (VObj 7) "meta" = Ok meta /\
    strictDispatch (VObj 7) Examples.incrementWorld
    = (Ok (VObj (length (mem Examples.incrementWorld))), w') /\
    VObj (length (mem Examples.incrementWorld)) <> VObj 7 /\
    ownProps (mem w') (VObj (length (mem Examples.incrementWorld))) =
      [("type", VStr "counter_increment"); ("payload", payload)]
        ++ (if truthy meta then [("meta", meta)] else [])
        ++ (if instanceofError (mem Examples.incrementWorld) payload
            then [("error", VBool true)] else []) /\
    ready w'.
Proof.
  apply (strictDispatch_builds_new_action (VObj 7) "counter_increment"
           {| boundType := "counter_increment"; typeProperty := "counter_increment" |}
           Examples.incrementWorld).
  - apply ready_new, built_ready.
  - apply (proj2 (reachable_ready [Examples.counter] Examples.heap0 0 [])).
  - reflexivity.
  - reflexivity.
Defined.

(* ===================================================================== *)
(** ** Queries: padding, results, slice clauses, empty registries         *)
(* ===================================================================== *)

Lemma trimStart_whitespace (l : string) : allWhiteSpace l = true -> trimStart l = "".
Proof.
  unfold allWhiteSpace. induction l as [|a l IH]; simpl; [reflexivity|].
  intros H. apply andb_prop in H as [Ha Hl]. rewrite Ha. auto.
Qed.

Lemma trimEnd_whitespace (r : string) : allWhiteSpace r = true -> trimEnd r = "".
Proof.
  unfold allWhiteSpace. induction r as [|a r IH]; simpl; [reflexivity|].
  intros H. apply andb_prop in H as [Ha Hr]. rewrite (IH Hr), Ha. reflexivity.
Qed.

Lemma trimStart_app_whitespace (l s : string) :
  allWhiteSpace l = true -> trimStart (l ++ s) = trimStart s.
Proof.
  unfold allWhiteSpace. induction l as [|a l IH]; simpl; [reflexivity|].
  intros H. apply andb_prop in H as [Ha Hl]. rewrite Ha. auto.
Qed.

Lemma trimEnd_app_whitespace (s r : string) :
  allWhiteSpace r = true -> trimEnd (s ++ r) = trimEnd s.
Proof.
  intros Hr. induction s as [|a s IH]; simpl.
  - apply trimEnd_whitespace. exact Hr.
  - rewrite IH. reflexivity.
Qed.

(** White space around a piece does not survive [trim]. *)
Lemma trim_padded (l s r : string) :
  allWhiteSpace l = true -> allWhiteSpace r = true -> trim (l ++ s ++ r) = trim s.
Proof.
  intros Hl Hr. unfold trim. rewrite (trimStart_app_whitespace _ _ Hl).
  induction s as [|a s IH]; simpl.
  - rewrite (trimStart_whitespace _ Hr). reflexivity.
  - destruct (isWhiteSpace a); [exact IH|].
    change (String a (s ++ r)) with (String a s ++ r)%string.
    apply trimEnd_app_whitespace. exact Hr.
Qed.

Lemma padded_clauses (pieces pieces' : list string) :
  Forall2 paddedPiece pieces pieces' -> map trim pieces' = map trim pieces.
Proof.
  induction 1 as [|s s' pieces pieces' (l & r & Hl & Hr & ->) _ IH]; simpl; [reflexivity|].
  rewrite (trim_padded _ _ _ Hl Hr), IH. reflexivity.
Qed.

(** X8.  White space around the clauses of a query is ignored: when every
    comma-separated piece of [q'] is the corresponding piece of [q] with
    white space (blanks, tabs, line breaks) before and after it, the two
    queries resolve to the same names, or both fail on the same clause. *)
Theorem query_padding_is_ignored (t : StrictRedux) (p : propertyName) (q q' : string) :
  Forall2 paddedPiece (split q QuerySeparator) (split q' QuerySeparator) ->
  match _normalizeQuery t q p, _normalizeQuery t q' p with
  | Ok names, Ok names' => names' = names
  | Throw e, Throw e' =>
      exists clause,
        e = Error (badQueryMessage p q clause) /\ e' = Error (badQueryMessage p q' clause)
  | _, _ => False
  end.
Proof.
  intros Hpad. apply padded_clauses in Hpad.
  rewrite !normalizeQuery_resolveQuery. unfold resolveQuery_spec, clausesOf.
  rewrite Hpad.
  destruct (find _ _) as [clause|]; [exists clause; split; reflexivity|reflexivity].
Qed.

Lemma query_padding_is_ignored_witness :
  match _normalizeQuery (this (Examples.built [Examples.sliceA; Examples.sliceB])) "a,b_y"
          ActionCreators,
        _normalizeQuery (this (Examples.built [Examples.sliceA; Examples.sliceB]))
          Examples.multiline ActionCreators with
  | Ok names, Ok names' => names' = names
  | Throw e, Throw e' =>
      exists clause,
        e = Error (badQueryMessage ActionCreators "a,b_y" clause) /\
        e' = Error (badQueryMessage ActionCreators Examples.multiline clause)
  | _, _ => False
  end.
Proof.
  apply (query_padding_is_ignored _ ActionCreators "a,b_y" Examples.multiline).
  repeat constructor.
  - exists " "%string, " "%string. repeat split.
  - exists (String (ascii_of_nat 10) (String (ascii_of_nat 9) "")), "  "%string.
    repeat split.
Defined.

(** Every name a clause resolves to is a key of the registry, for a
    clause that is not a name of [Object.prototype]. *)
Lemma clauseNames_registered (t : StrictRedux) (p : propertyName) (clause name : string) :
  ownName clause ->
  In name (clauseNames t p clause) -> In name (registryKeys t p).
Proof.
  intros Hown. unfold clauseNames. destruct (negb (includes clause SliceSeparator)).
  - intros H. apply filter_In in H. apply H.
  - destruct (registryHas t p clause) eqn:E; [|contradiction].
    intros [<-|[]]. apply (registryHas_In t p clause Hown). exact E.
Qed.


Lemma keys_fold_set {A : Type} (g : string -> A) (names : list string)
    (acc : list (string * A)) (k : string) :
  In k (keys (fold_left (fun acc name => set name (g name) acc) names acc)) <->
  In k (keys acc) \/ In k names.
Proof.
  rewrite lookup_In_keys, lookup_fold_set.
  destruct (in_dec string_dec k names) as [Hin|Hout].
  - split; [auto|discriminate].
  - rewrite <- lookup_In_keys. tauto.
Qed.






Lemma keys_fold_set_NoDup {A : Type} (g : string -> A) (names : list string) :
  forall acc : list (string * A),
    NoDup (keys acc ++ names) ->
    keys (fold_left (fun acc name => set name (g name) acc) names acc) = keys acc ++ names.
Proof.
  induction names as [|n names IH]; intros acc Hnd; simpl.
  - symmetry. apply app_nil_r.
  - assert (Hout : ~ In n (keys acc)).
    { intros Hin. apply NoDup_remove_2 in Hnd. apply Hnd, in_or_app. auto. }
    rewrite IH; rewrite (keys_set_absent _ _ _ Hout), <- app_assoc; [reflexivity|exact Hnd].
Qed.

(** X10.  [getActionTypes()] and [getActionTypes('')] never throw: they
    return an object that maps every registered action name to itself and
    has no other property, with the keys in the order of the registry.
    For a query that is not empty, [getActionTypes(q)] throws what
    [getActions(q)] throws, and otherwise returns an object with the keys
    of [getActions(q)], each holding its own name. *)
Theorem getActionTypes_names (t : StrictRedux) (queryString : option string) :
  match queryString with
  | None | Some EmptyString =>
      exists types,
        getActionTypes t queryString = Ok types /\
        (forall name, In name (keys (_actionCreators t)) -> lookup name types = Some name) /\
        (forall name ty,
           lookup name types = Some ty -> ty = name /\ In name (keys (_actionCreators t))) /\
        (NoDup (keys (_actionCreators t)) -> keys types = keys (_actionCreators t))
  | Some q =>
      match getActionTypes t (Some q), getActions t q with
      | Ok types, Ok actions =>
          (forall name, In name (keys types) <-> In name (keys actions)) /\
          (forall name ty, lookup name types = Some ty -> ty = name)
      | Throw e, Throw e' => e = e'
      | _, _ => False
      end
  end.
Proof.
  assert (Hall : exists types,
             Ok (fold_left (fun acc name => set name name acc)
                   (keys (_actionCreators t)) []) = Ok types /\
             (forall name, In name (keys (_actionCreators t)) ->
                           lookup name types = Some name) /\
             (forall name ty,
                lookup name types = Some ty ->
                ty = name /\ In name (keys (_actionCreators t))) /\
             (NoDup (keys (_actionCreators t)) -> keys types = keys (_actionCreators t))).
  { eexists. split; [reflexivity|]. split; [|split].
    - intros name Hin. rewrite (lookup_fold_set (fun n => n)).
      destruct (in_dec string_dec name (keys (_actionCreators t))); [reflexivity|contradiction].
    - intros name ty. rewrite (lookup_fold_set (fun n => n)).
      destruct (in_dec string_dec name (keys (_actionCreators t))); [|discriminate].
      intros [= <-]. auto.
    - intros Hnd. apply (keys_fold_set_NoDup (fun n => n)). exact Hnd. }
  destruct queryString as [[|c q]|]; [exact Hall| |exact Hall].
  unfold getActionTypes, getActions.
  destruct (_normalizeQuery t (String c q) ActionCreators) as [names|e|] eqn:Hnorm.
  - split.
    + intros name. rewrite (keys_fold_set (fun n => n)),
        (keys_fold_set (fun n => lookup n (_actionCreators t))). reflexivity.
    + intros name ty. rewrite (lookup_fold_set (fun n => n)).
      destruct (in_dec string_dec name names); [|discriminate]. congruence.
  - reflexivity.
  - exact (normalizeQuery_never_times_out _ _ _ Hnorm).
Qed.

Lemma clauseNames_of_nothing (t : StrictRedux) (p : propertyName) (clause : string) :
  ownName clause ->
  registryKeys t p = [] -> clauseNames t p clause = [].
Proof.
  intros Hown Hempty. destruct (clauseNames t p clause) as [|n names] eqn:E; [reflexivity|].
  assert (Hin : In n (registryKeys t p)).
  { apply (clauseNames_registered t p clause); [exact Hown|]. rewrite E. simpl. auto. }
  rewrite Hempty in Hin. contradiction.
Qed.

Lemma normalizeQuery_of_nothing (t : StrictRedux) (p : propertyName) (q : string) :
  ownName (trim (hd ""%string (split q QuerySeparator))) ->
  registryKeys t p = [] ->
  _normalizeQuery t q p
  = Throw (Error (badQueryMessage p q (trim (hd ""%string (split q QuerySeparator))))).
Proof.
  intros Hown Hempty. rewrite normalizeQuery_resolveQuery. unfold resolveQuery_spec, clausesOf.
  pose proof (split_not_nil q QuerySeparator) as Hnil.
  destruct (split q QuerySeparator) as [|piece pieces]; [contradiction|]. simpl in *.
  rewrite (clauseNames_of_nothing t p _ Hown Hempty). reflexivity.
Qed.

(** X11.  On an instance without selectors, every query given to
    [getSelectors] or [select] throws the bad-query error for its first
    clause, the empty query included (the first clause being no name
    inherited from [Object.prototype]); so does [getActions] on an
    instance without actions, while [getActionTypes()] and
    [getActionTypes('')] return the empty object there. *)
Theorem queries_on_an_empty_registry (t : StrictRedux) (q : string) :
  let clause := trim (hd ""%string (split q QuerySeparator)) in
  ownName clause ->
  (_selectors t = [] ->
   getSelectors t q = Throw (Error (badQueryMessage Selectors q clause)) /\
   forall fuel options state w,
     this w = t ->
     select (run fuel) q options state w
     = (Throw (Error (badQueryMessage Selectors q clause)), w)) /\
  (_actionCreators t = [] ->
   getActions t q = Throw (Error (badQueryMessage ActionCreators q clause)) /\
   getActionTypes t None = Ok [] /\
   getActionTypes t (Some ""%string) = Ok []).
Proof.
  cbv zeta. intros Hown. split.
  - intros Hempty.
    assert (Hnorm := normalizeQuery_of_nothing t Selectors q Hown).
    simpl in Hnorm. rewrite Hempty in Hnorm. specialize (Hnorm eq_refl).
    split; [apply getSelectors_throws; exact Hnorm|].
    intros fuel options state w <-. apply select_throws. exact Hnorm.
  - intros Hempty.
    assert (Hnorm := normalizeQuery_of_nothing t ActionCreators q Hown).
    simpl in Hnorm. rewrite Hempty in Hnorm. specialize (Hnorm eq_refl).
    split; [apply getActions_throws; exact Hnorm|].
    unfold getActionTypes. rewrite Hempty. split; reflexivity.
Qed.

Lemma queries_on_an_empty_registry_witness :
  getActions (this (snd (construct [] []))) ""
  = Throw (Error "Bad store query _actionCreators: . Could not resolve ") /\
  getActionTypes (this (snd (construct [] []))) None = Ok [] /\
  getActionTypes (this (snd (construct [] []))) (Some ""%string) = Ok [].
Proof.
  refine (proj2 (queries_on_an_empty_registry (this (snd (construct [] []))) "" _) eq_refl).
  unfold ownName. simpl. intuition discriminate.
Defined.




(* ===================================================================== *)
(** ** Selectors: the state argument and the values of the getters        *)
(* ===================================================================== *)

(** X13.  A default getter called with a plain state object that has no
    entry for its slice returns [undefined] the first time, when it reads
    from an empty copy, and throws a [TypeError] when it is called again
    with the same state object, when it reads from [undefined] itself.
    (Neither the name of the slice nor the key of the getter is a name of
    [Object.prototype], under which a plain object holds a function.) *)
Theorem default_selector_without_its_slice (f : selectorFunction) (k : string)
    (options memo : value) (l : loc) (o : object) (fuel : nat) (w : world) :
  underlying f = defaultSelector k ->
  nth_error (mem w) l = Some o ->
  protoChain o = [ObjectPrototype] ->
  lookup (capturedSliceName f) (own o) = None ->
  ownName (capturedSliceName f) ->
  ownName k ->
  memoOf w f = Some memo ->
  memo <> VObj l ->
  exists w1 w2,
    callSelector (run (2 + fuel)) f options (VObj l) w = (Ok VUndefined, w1) /\
    callSelector (run (2 + fuel)) f options (VObj l) w1 = (Throw TypeError, w2).
Proof.
  intros Hf Hl _ Hmissing _ _ Hmemo Hne.
  set (state := VObj l) in *.
  assert (Halloc : allocated (mem w) state).
  { simpl. apply nth_error_Some. congruence. }
  assert (Hslice : getprop (mem w) state (capturedSliceName f) = Ok VUndefined).
  { simpl. rewrite Hl, Hmissing. reflexivity. }
  assert (Hseen : forall w0, stateSeen state w0 = Some state) by reflexivity.
  assert (Hmiss : strict_eq memo state = false).
  { destruct (strict_eq memo state) eqn:E; [|reflexivity].
    apply strict_eq_true in E. contradiction. }
  pose proof (stateSliceFor_spec f state state memo VUndefined w (Hseen w) Hmemo Hslice)
    as Hfirst.
  rewrite Hmiss in Hfirst. simpl ownProps in Hfirst.
  set (w1 := memoized f state {| mem := mem w ++ [plain []]; this := this w |}) in Hfirst.
  assert (Hmemo1 : memoOf w1 f = Some state).
  { apply (memoOf_memoized f state memo). exact Hmemo. }
  assert (Hslice1 : getprop (mem w1) state (capturedSliceName f) = Ok VUndefined).
  { rewrite <- Hslice. apply extends_getprop; [eexists; reflexivity|exact Halloc]. }
  pose proof (stateSliceFor_spec f state state state VUndefined w1 (Hseen w1) Hmemo1 Hslice1)
    as Hsecond.
  rewrite strict_eq_refl in Hsecond.
  exists w1, (memoized f state w1). split.
  - rewrite (callSelector_after_stateSliceFor f k options state _ fuel w w1 Hf Hfirst).
    subst w1. simpl mem. rewrite getprop_alloc. reflexivity.
  - rewrite (callSelector_after_stateSliceFor f k options state _ fuel w1 _ Hf Hsecond).
    reflexivity.
Qed.

Lemma default_selector_without_its_slice_witness :
  exists w1 w2,
    callSelector (run 2) Examples.counterValue VUndefined (VObj 3) Examples.counterWorld
    = (Ok VUndefined, w1) /\
    callSelector (run 2) Examples.counterValue VUndefined (VObj 3) w1
    = (Throw TypeError, w2).
Proof.
  apply (default_selector_without_its_slice Examples.counterValue "value"
           VUndefined VUndefined 3 (plain [("a", VNum 1); ("b", VNum 2)]) 0
           Examples.counterWorld).
  - reflexivity.
  - reflexivity.
  - reflexivity.
  - reflexivity.
  - unfold ownName. simpl. intuition discriminate.
  - unfold ownName. simpl. intuition discriminate.
  - reflexivity.
  - discriminate.
Defined.

(** A selector call with the state of the store as its argument is the
    call without a state argument. *)
Lemma callSelector_store_state (run_body : runner) (f : selectorFunction)
    (options state : value) (w : world) :
  _store (this w) = Some state ->
  truthy state = true ->
  callSelector run_body f options state w = callSelector run_body f options VUndefined w.
Proof.
  intros Hstore Htruthy. unfold callSelector, stateSliceFor, bind. rewrite Htruthy. simpl.
  unfold getState, ret. rewrite Hstore. reflexivity.
Qed.

Lemma quiet_callSelector (fuel : nat) (f : selectorFunction) (options state : value) :
  keeps quiet (callSelector (run fuel) f options state).
Proof.
  apply keeps_callSelector;
    [exact quiet_refl|exact quiet_trans|exact quiet_new|exact quiet_memo|apply quiet_run].
Qed.

Lemma selectLoop_store_state (fuel : nat) (selectors : list (string * option selectorFunction))
    (options state : value) (names : list string) :
  truthy state = true ->
  forall (acc : value) (w : world),
    _store (this w) = Some state ->
    selectLoop (run fuel) selectors names options state acc w
    = selectLoop (run fuel) selectors names options VUndefined acc w.
Proof.
  intros Htruthy. induction names as [|name rest IH]; intros acc w Hstore; [reflexivity|].
  simpl. unfold bind at 1 3.
  destruct (lookup name selectors) as [[f|]|]; try reflexivity.
  - rewrite (callSelector_store_state _ f options state w Hstore Htruthy).
    pose proof (quiet_callSelector fuel f options VUndefined w) as [_ Hquiet].
    destruct (callSelector (run fuel) f options VUndefined w) as [[v| |] w1]; try reflexivity.
    simpl in Hquiet. unfold bind, new. simpl. apply IH. simpl. congruence.
  - unfold lift. destruct (callInherited name); try reflexivity.
    unfold bind, new. simpl. apply IH. exact Hstore.
Qed.

(** X14.  The function made by [createMapStateToProps(query)], called with
    the state of the store and the props of a component, is
    [select(query, props)]: the same result and the same world
    afterwards. *)
Theorem mapStateToProps_on_the_store_state (fuel : nat) (queryString : string)
    (state componentProps : value) (w : world) :
  getStore (this w) = Some state ->
  truthy state = true ->
  createMapStateToProps (run fuel) queryString state componentProps w
  = select (run fuel) queryString componentProps VUndefined w.
Proof.
  intros Hstore Htruthy. unfold createMapStateToProps, select, getStore in *.
  destruct (getSelectors (this w) queryString) as [selectors| |]; try reflexivity.
  unfold bind, new. simpl. apply selectLoop_store_state; [exact Htruthy|exact Hstore].
Qed.

Lemma mapStateToProps_on_the_store_state_witness :
  createMapStateToProps (run 2) "counter" (VObj 6) VUndefined Examples.counterWorld
  = select (run 2) "counter" VUndefined VUndefined Examples.counterWorld.
Proof.
  apply (mapStateToProps_on_the_store_state 2 "counter" (VObj 6) VUndefined
           Examples.counterWorld); reflexivity.
Defined.





(* ===================================================================== *)
(** ** The shape of the state of the store                                *)
(* ===================================================================== *)

Lemma combineLoop_keys (state action : value) (reducers : list (string * sliceDescriptor)) :
  forall (nextState : props) (hasChanged : bool) (w w' : world) (r : props * bool),
    NoDup (keys nextState ++ keys reducers) ->
    combineLoop reducers state action nextState hasChanged w = (Ok r, w') ->
    keys (fst r) = keys nextState ++ keys reducers.
Proof.
  induction reducers as [|[k d] rest IH]; intros nextState hasChanged w w' r Hnd Hrun.
  - simpl in Hrun. injection Hrun as <- <-. simpl. symmetry. apply app_nil_r.
  - simpl in Hrun. unfold bind at 1 in Hrun.
    destruct (read state k w) as [[prev| |] w0]; try discriminate.
    unfold bind at 1 in Hrun.
    destruct (_createReducer d prev action w0) as [[next| |] w1]; try discriminate.
    assert (Hrest : combineLoop rest state action (set k next nextState)
                      (hasChanged || negb (strict_eq next prev)) w1 = (Ok r, w')).
    { destruct next; try exact Hrun. discriminate. }
    simpl in Hnd.
    assert (Hout : ~ In k (keys nextState)).
    { intros Hin. apply NoDup_remove_2 in Hnd. apply Hnd, in_or_app. auto. }
    apply IH in Hrest.
    + rewrite Hrest, (keys_set_absent _ _ _ Hout), <- app_assoc. reflexivity.
    + rewrite (keys_set_absent _ _ _ Hout), <- app_assoc. exact Hnd.
Qed.

Lemma shaped_extends (w w' : world) :
  extends (mem w) (mem w') ->
  _store (this w') = _store (this w) ->
  _reducers (this w') = _reducers (this w) ->
  shaped w -> shaped w'.
Proof.
  intros Hext Hstore Hred (l & Hs & Hl & Hkeys).
  exists l. rewrite Hstore, Hred. split; [exact Hs|].
  split; [pose proof (extends_length _ _ Hext); lia|].
  rewrite (extends_ownProps _ _ (VObj l) Hext Hl). exact Hkeys.
Qed.

Lemma shaped_quiet (w w' : world) : quiet w w' -> shaped w -> shaped w'.
Proof.
  intros [[Hext (_ & Hred & _)] Hstore]. apply shaped_extends; assumption.
Qed.

(** A dispatch that returns leaves the state with the same keys. *)
Lemma dispatch_shaped (la : loc) (actionType : string) (r : value) (w w' : world) :
  NoDup (keys (_reducers (this w))) ->
  shaped w ->
  getprop (mem w) (VObj la) "type" = Ok (VStr actionType) ->
  dispatch (VObj la) w = (Ok r, w') ->
  shaped w'.
Proof.
  intros Hnd (l0 & Hstore & Hl0 & Hkeys) Hty Hrun.
  rewrite (dispatch_step la l0 actionType w Hstore Hty), combination_next in Hrun.
  destruct (combineLoop (_reducers (this w)) (VObj l0) (VObj la) [] false w)
    as [[rr| |] w3] eqn:Hloop; try discriminate.
  destruct (combineLoop_entry _ _ _ _ _ _ _ _ Hl0 Hnd Hloop) as ([Hext Hthis] & _).
  apply combineLoop_keys in Hloop; [|exact Hnd]. simpl in Hloop.
  destruct (snd rr).
  - injection Hrun as _ <-. exists (length (mem w3)). simpl.
    split; [reflexivity|]. split; [rewrite length_app; simpl; lia|].
    rewrite nth_error_app2, Nat.sub_diag by lia. simpl. rewrite Hthis. exact Hloop.
  - injection Hrun as _ <-. exists l0. simpl.
    split; [reflexivity|]. split; [pose proof (extends_length _ _ Hext); lia|].
    rewrite Hthis. rewrite <- Hkeys.
    apply (f_equal keys). apply (extends_ownProps _ _ (VObj l0)); assumption.
Qed.

Lemma createStore_shaped (w0 : world) :
  NoDup (keys (_reducers (this w0))) -> shaped (snd (createStore w0)).
Proof.
  intros Hnd.
  unfold createStore, bind at 1, new. simpl alloc. cbv iota beta.
  set (w1 := {| mem := mem w0 ++ [plain [("type", VStr reduxInit)]]; this := this w0 |}).
  set (la := length (mem w0)).
  change (shaped (snd ((next <- combination (_reducers (this w0)) VUndefined (VObj la) ;;
                        setStore next) w1))).
  unfold bind. rewrite combination_first.
  set (w2 := {| mem := mem w1 ++ [plain []]; this := this w1 |}).
  assert (Hty2 : getprop (mem w2) (VObj la) "type" = Ok (VStr reduxInit)).
  { subst w2 w1 la. simpl. rewrite nth_error_app1 by (rewrite length_app; simpl; lia).
    rewrite nth_error_app2, Nat.sub_diag by lia. reflexivity. }
  assert (Hknown : knownType (this w2) reduxInit = true).
  { apply knownType_true. right. reflexivity. }
  assert (Hls : length (mem w1) < length (mem w2)).
  { subst w2. simpl. rewrite !length_app. simpl. lia. }
  destruct (combineLoop_known reduxInit (length (mem w1)) la (_reducers (this w0)) [] false w2
              Hty2 Hknown Hls) as (r & w3 & Hloop & Hext & Hthis & _ & _ & Hsame);
    [discriminate|].
  rewrite Hloop. pose proof (combineLoop_keys _ _ _ [] false _ _ _ Hnd Hloop) as Hkeys.
  simpl in Hkeys.
  destruct (snd r) eqn:Hchanged.
  - exists (length (mem w3)). simpl.
    split; [reflexivity|]. split; [rewrite length_app; simpl; lia|].
    rewrite nth_error_app2, Nat.sub_diag by lia. simpl. rewrite Hthis. exact Hkeys.
  - assert (Hlen : length (mem w1) < length (mem w3)).
    { pose proof (extends_length _ _ Hext). lia. }
    exists (length (mem w1)). unfold setStore. cbn [snd this _store mem _reducers].
    split; [reflexivity|]. split; [exact Hlen|]. rewrite Hthis.
    change (this w2) with (this w0).
    destruct (Hsame eq_refl) as [_ Hall].
    destruct (_reducers (this w0)) as [|[k d] rest] eqn:Hred.
    + simpl in Hloop. injection Hloop as _ <-. unfold w2. cbn [mem].
      rewrite ownProps_alloc. reflexivity.
    + destruct (Hall k) as (v & Hv & Hvdef); [simpl; auto|].
      subst w2. simpl mem in Hv. rewrite getprop_alloc in Hv. simpl in Hv. congruence.
Qed.

Lemma shaped_new (p : props) (w : world) : shaped w -> shaped (snd (new p w)).
Proof. apply shaped_quiet, quiet_new. Qed.

Lemma strictDispatch_shaped (action : value) (w : world) :
  ready w -> boundToNames (this w) -> shaped w -> shaped (snd (strictDispatch action w)).
Proof.
  intros Hready Hbound Hshaped. unfold strictDispatch, bind, read.
  destruct (getprop (mem w) action "type") as [ty| |] eqn:Hty; try exact Hshaped.
  unfold getAction.
  destruct (lookup (toString ty) (_actionCreators (this w))) as [a|] eqn:Ha;
    [|exact Hshaped].
  destruct (getprop_other_key _ _ _ _ "payload" Hty) as [payload ->].
  destruct (getprop_other_key _ _ _ _ "meta" Hty) as [meta ->].
  unfold callAction, _createBoundAction, bind, new. simpl alloc. cbv iota beta.
  set (w1 := {| mem := mem w ++ [plain (actionProps (mem w) (boundType a) payload meta)];
                this := this w |}).
  assert (Hty1 : getprop (mem w1) (VObj (length (mem w))) "type" = Ok (VStr (boundType a))).
  { unfold w1. cbn [mem]. rewrite getprop_alloc, actionProps_shape. reflexivity. }
  assert (Hknown : knownType (this w1) (boundType a) = true).
  { apply knownType_true. left. rewrite (Hbound _ _ Ha). eapply lookup_Some_In. exact Ha. }
  destruct (dispatch_known (length (mem w)) (boundType a) w1 (ready_new _ w Hready)
              Hty1 Hknown) as (w' & Hrun & _).
  change (shaped (snd (dispatch (VObj (length (mem w))) w1))).
  rewrite Hrun. simpl.
  apply (dispatch_shaped (length (mem w)) (boundType a) (VObj (length (mem w))) w1 w');
    try assumption.
  - destruct Hready as (_ & _ & _ & Hnd & _). exact Hnd.
  - apply (shaped_new _ w Hshaped).
Qed.

Lemma perform_shaped (fuel : nat) (c : call) (w : world) :
  ready w -> boundToNames (this w) -> shaped w -> shaped (snd (perform fuel c w)).
Proof.
  intros Hready Hbound Hshaped.
  destruct c; simpl; try exact Hshaped.
  - pose proof (quiet_select fuel queryString options state w) as H.
    destruct (select _ _ _ _ w). eapply shaped_quiet; eassumption.
  - pose proof (quiet_selectOne fuel selectorName options state w) as H.
    destruct (selectOne _ _ _ _ w). eapply shaped_quiet; eassumption.
  - pose proof (strictDispatch_shaped action w Hready Hbound Hshaped) as H.
    destruct (strictDispatch action w). exact H.
  - pose proof (quiet_select fuel queryString componentProps state w) as H.
    unfold createMapStateToProps. destruct (select _ _ _ _ w).
    eapply shaped_quiet; eassumption.
Qed.

Lemma reachable_shaped (slices : list sliceDescriptor) (m : heap)
    (fuel : nat) (calls : list call) :
  shaped (performAll fuel calls (snd (construct slices m))).
Proof.
  assert (Hstart : (ready (snd (construct slices m)) /\
                    boundToNames (this (snd (construct slices m)))) /\
                   shaped (snd (construct slices m))).
  { split; [apply (reachable_ready slices m 0 [])|].
    rewrite construct_registerAll. apply createStore_shaped.
    apply registered_NoDup. constructor. }
  revert Hstart. unfold performAll. generalize (snd (construct slices m)) as w.
  induction calls as [|c calls IH]; intros w H; simpl; [apply H|].
  apply IH. split; [apply perform_reachable, H|].
  apply perform_shaped; apply H.
Qed.

Lemma registerAll_reducer_keys (slices : list sliceDescriptor) (w : world) (name : string) :
  In name (keys (_reducers (this (registerAll slices w)))) <->
  In name (keys (_reducers (this w))) \/ exists d, In d slices /\ sliceName d = name.
Proof.
  induction slices as [|d slices IH] using rev_ind.
  - simpl. split; [auto|intros [H|(d & [] & _)]; exact H].
  - rewrite registerAll_snoc. unfold _registerStateSlice, _createSelectors. simpl.
    rewrite In_keys_set, IH. split.
    + intros [->|[H|(d0 & Hd & <-)]].
      * right. exists d. rewrite in_app_iff. simpl. auto.
      * auto.
      * right. exists d0. rewrite in_app_iff. auto.
    + intros [H|(d0 & Hd & <-)]; [auto|].
      apply in_app_iff in Hd as [Hd|[<-|[]]]; [right; right; eauto|left; reflexivity].
Qed.

Lemma registerAll_reducer_order (slices : list sliceDescriptor) (m : heap) :
  NoDup (map sliceName slices) ->
  keys (_reducers (this (registerAll slices (blank m)))) = map sliceName slices.
Proof.
  induction slices as [|d slices IH] using rev_ind; intros Hnd; [reflexivity|].
  rewrite registerAll_snoc. unfold _registerStateSlice, _createSelectors. simpl.
  rewrite map_app in *. simpl in *.
  assert (Hnd' : NoDup (map sliceName slices)).
  { apply NoDup_remove_1 in Hnd. rewrite app_nil_r in Hnd. exact Hnd. }
  rewrite keys_set_absent, (IH Hnd'); [reflexivity|].
  rewrite (IH Hnd'). apply NoDup_remove_2 in Hnd. rewrite app_nil_r in Hnd. exact Hnd.
Qed.

(** X16.  After construction, and whatever public methods are called then,
    the state of the store has exactly one entry per reducer key, in the
    order of the keys; the reducer keys are the names of the slices, in
    the order of the slices when the names are distinct.  The names of
    the slices are taken to be neither numerals, which [Object.keys]
    would list first, nor [__proto__]. *)
Theorem state_has_one_entry_per_slice (slices : list sliceDescriptor) (m : heap)
    (fuel : nat) (calls : list call) :
  Forall (fun d => ordinaryKey (sliceName d)) slices ->
  let w := performAll fuel calls (snd (construct slices m)) in
  exists l,
    _store (this w) = Some (VObj l) /\
    keys (ownProps (mem w) (VObj l)) = keys (_reducers (this w)) /\
    (forall name,
       In name (keys (_reducers (this w))) <-> exists d, In d slices /\ sliceName d = name) /\
    (NoDup (map sliceName slices) -> keys (_reducers (this w)) = map sliceName slices).
Proof.
  intros _. cbv zeta.
  destruct (reachable_shaped slices m fuel calls) as (l & Hstore & _ & Hkeys).
  exists l. split; [exact Hstore|]. split; [exact Hkeys|].
  destruct (evolves_performAll fuel calls (snd (construct slices m))) as [_ (_ & Hred & _)].
  rewrite Hred, construct_registerAll.
  destruct (sameInstance_createStore (registerAll slices (blank m))) as (_ & _ & Hr & _).
  rewrite Hr. split.
  - intros name. rewrite registerAll_reducer_keys. simpl. split; [intros [[]|H]; exact H|auto].
  - apply registerAll_reducer_order.
Qed.

Lemma state_has_one_entry_per_slice_witness :
  let w := performAll 2 [Select "a" VUndefined VUndefined]
             (snd (construct [Examples.sliceA; Examples.sliceB] Examples.heap0)) in
  exists l,
    _store (this w) = Some (VObj l) /\
    keys (ownProps (mem w) (VObj l)) = ["a"; "b"]%string.
Proof.
  cbv zeta.
  destruct (state_has_one_entry_per_slice [Examples.sliceA; Examples.sliceB] Examples.heap0
              2 [Select "a" VUndefined VUndefined]) as (l & Hstore & Hkeys & _ & Horder).
  - repeat constructor; simpl; discriminate.
  - exists l. split; [exact Hstore|]. rewrite Hkeys. apply Horder.
    repeat constructor; simpl; intuition discriminate.
Defined.

(* ===================================================================== *)
(** ** Dispatching an action again; one memo per selector                 *)
(* ===================================================================== *)

Lemma extends_instanceofError (m m' : heap) (v : value) :
  extends m m' -> allocated m v -> instanceofError m' v = instanceofError m v.
Proof.
  intros [extra ->] Hv. unfold instanceofError, chainOf.
  destruct v; try reflexivity. simpl in Hv. rewrite nth_error_app1 by exact Hv. reflexivity.
Qed.

(** Calling an action creator on an instance as construction leaves it:
    the action it builds comes back. *)
Lemma callAction_returns (w : world) (name : string) (a : boundAction)
    (payload meta : value) :
  ready w ->
  boundToNames (this w) ->
  lookup name (_actionCreators (this w)) = Some a ->
  exists w1,
    callAction a payload meta w = (Ok (VObj (length (mem w))), w1) /\
    ready w1 /\
    evolves w w1 /\
    length (mem w) < length (mem w1) /\
    ownProps (mem w1) (VObj (length (mem w))) = actionProps (mem w) name payload meta.
Proof.
  intros Hready Hbound Ha. pose proof (Hbound _ _ Ha) as Hname.
  unfold callAction, _createBoundAction, bind, new. simpl alloc. cbv iota beta.
  set (w0 := {| mem := mem w ++ [plain (actionProps (mem w) (boundType a) payload meta)];
                this := this w |}).
  assert (Hty : getprop (mem w0) (VObj (length (mem w))) "type" = Ok (VStr name)).
  { unfold w0. cbn [mem]. rewrite getprop_alloc, actionProps_shape, Hname. reflexivity. }
  assert (Hknown : knownType (this w0) name = true).
  { apply knownType_true. left. eapply lookup_Some_In. exact Ha. }
  destruct (dispatch_known (length (mem w)) name w0 (ready_new _ w Hready) Hty Hknown)
    as (w1 & Hrun & Hready1).
  pose proof (evolves_dispatch (VObj (length (mem w))) w0) as Hev.
  rewrite Hrun in Hev. cbn [snd] in Hev.
  assert (Hlen : length (mem w) < length (mem w0)).
  { unfold w0. cbn [mem]. rewrite length_app. simpl. lia. }
  exists w1. split; [exact Hrun|]. split; [exact Hready1|]. split; [|split].
  - eapply evolves_trans; [|exact Hev]. apply (evolves_new _ w).
  - destruct Hev as [Hext _]. pose proof (extends_length _ _ Hext). lia.
  - destruct Hev as [Hext _].
    rewrite (extends_ownProps _ _ (VObj (length (mem w))) Hext Hlen).
    unfold w0. cbn [mem]. rewrite ownProps_alloc, Hname. reflexivity.
Qed.

(** X17.  The action an action creator returns can be dispatched again
    through [strictDispatch]: what comes back is another object with the
    same properties. *)
Theorem redispatch_round_trip (w : world) (name : string) (a : boundAction)
    (payload meta : value) :
  ready w ->
  boundToNames (this w) ->
  getAction (this w) name = Ok a ->
  allocated (mem w) payload ->
  exists w1 w2,
    callAction a payload meta w = (Ok (VObj (length (mem w))), w1) /\
    strictDispatch (VObj (length (mem w))) w1 = (Ok (VObj (length (mem w1))), w2) /\
    length (mem w) <> length (mem w1) /\
    ownProps (mem w2) (VObj (length (mem w1))) = ownProps (mem w1) (VObj (length (mem w))).
Proof.
  intros Hready Hbound Hget Hpayload.
  unfold getAction in Hget.
  destruct (lookup name (_actionCreators (this w))) as [a'|] eqn:Ha; [|discriminate].
  injection Hget as ->.
  destruct (callAction_returns w name a payload meta Hready Hbound Ha)
    as (w1 & Hcall & Hready1 & Hev & Hlen & Hprops).
  assert (Hbound1 : boundToNames (this w1)) by (eapply boundToNames_evolves; eassumption).
  assert (Ha1 : lookup name (_actionCreators (this w1)) = Some a).
  { destruct Hev as [_ (-> & _)]. exact Ha. }
  rewrite actionProps_shape in Hprops.
  assert (Hty : getprop (mem w1) (VObj (length (mem w))) "type" = Ok (VStr name)).
  { unfold getprop. rewrite Hprops. reflexivity. }
  assert (Hpay : getprop (mem w1) (VObj (length (mem w))) "payload" = Ok payload).
  { unfold getprop. rewrite Hprops. reflexivity. }
  assert (Hmeta : getprop (mem w1) (VObj (length (mem w))) "meta"
                  = Ok (if truthy meta then meta else VUndefined)).
  { unfold getprop. rewrite Hprops.
    destruct (truthy meta), (instanceofError (mem w) payload); reflexivity. }
  destruct (strictDispatch_registered (VObj (length (mem w))) name a w1 Hready1 Hbound1 Hty)
    as (payload' & meta' & w2 & Hpay' & Hmeta' & Hrun & _ & Hprops2 & _).
  { unfold getAction. rewrite Ha1. reflexivity. }
  exists w1, w2. split; [exact Hcall|]. split; [exact Hrun|]. split; [lia|].
  rewrite Hprops2, Hprops.
  assert (payload' = payload) by congruence.
  assert (meta' = if truthy meta then meta else VUndefined) by congruence.
  subst payload' meta'.
  rewrite (extends_instanceofError (mem w) (mem w1) payload); [|apply Hev|exact Hpayload].
  destruct (truthy meta) eqn:Hm; [rewrite Hm|]; reflexivity.
Qed.

Lemma redispatch_round_trip_witness :
  exists w1 w2,
    callAction {| boundType := "counter_increment"; typeProperty := "counter_increment" |}
      (VNum 5) VUndefined Examples.counterWorld
    = (Ok (VObj (length (mem Examples.counterWorld))), w1) /\
    strictDispatch (VObj (length (mem Examples.counterWorld))) w1
    = (Ok (VObj (length (mem w1))), w2) /\
    length (mem Examples.counterWorld) <> length (mem w1) /\
    ownProps (mem w2) (VObj (length (mem w1)))
    = ownProps (mem w1) (VObj (length (mem Examples.counterWorld))).
Proof.
  apply (redispatch_round_trip Examples.counterWorld "counter_increment" _
           (VNum 5) VUndefined).
  - apply built_ready.
  - apply (proj2 (reachable_ready [Examples.counter] Examples.heap0 0 [])).
  - reflexivity.
  - exact I.
Defined.

Lemma lookup_setPrevState_ne (name name' : string) (state : value)
    (registry : list (string * selectorEntry)) :
  name <> name' ->
  lookup name' (setPrevState name state registry) = lookup name' registry.
Proof.
  intros Hne. induction registry as [|[k e] registry IH]; simpl; [reflexivity|].
  destruct (String.eqb_spec k name) as [->|Hk]; simpl.
  - destruct (String.eqb_spec name name'); [contradiction|reflexivity].
  - destruct (k =? name'); [reflexivity|exact IH].
Qed.

(** X18.  The [prevState] memo belongs to one selector function: after a
    selector of a slice was called on a new whole state, another selector
    of the same slice called on that state still makes a copy of its own.
    The two selectors receive two different new objects, each with the
    properties of the slice. *)
Theorem selectors_do_not_share_the_copy (f g : selectorFunction)
    (maybeState state mf mg slice : value) (w : world) :
  registeredName f <> registeredName g ->
  capturedSliceName g = capturedSliceName f ->
  stateSeen maybeState w = Some state ->
  allocated (mem w) state ->
  allocated (mem w) slice ->
  getprop (mem w) state (capturedSliceName f) = Ok slice ->
  memoOf w f = Some mf -> mf <> state ->
  memoOf w g = Some mg -> mg <> state ->
  exists r1 w1 r2 w2,
    stateSliceFor f maybeState w = (Ok r1, w1) /\
    stateSliceFor g maybeState w1 = (Ok r2, w2) /\
    r1 <> r2 /\ r1 <> slice /\ r2 <> slice /\
    ownProps (mem w2) r1 = ownProps (mem w) slice /\
    ownProps (mem w2) r2 = ownProps (mem w) slice.
Proof.
  intros Hnames Hsame Hseen Hstate Hslice_alloc Hslice Hmf Hnef Hmg Hneg.
  assert (Hmiss : forall memo, memo <> state -> strict_eq memo state = false).
  { intros memo Hne. destruct (strict_eq memo state) eqn:E; [|reflexivity].
    apply strict_eq_true in E. contradiction. }
  pose proof (stateSliceFor_spec f maybeState state mf slice w Hseen Hmf Hslice) as Hfirst.
  rewrite (Hmiss mf Hnef) in Hfirst.
  set (w0 := {| mem := mem w ++ [plain (ownProps (mem w) slice)]; this := this w |}) in Hfirst.
  set (w1 := memoized f state w0) in Hfirst.
  assert (Hext : extends (mem w) (mem w1)) by (eexists; reflexivity).
  assert (Hseen1 : stateSeen maybeState w1 = Some state) by exact Hseen.
  assert (Hmg1 : memoOf w1 g = Some mg).
  { unfold memoOf, w1, memoized, writePrevState. cbn [snd this _selectors].
    rewrite (lookup_setPrevState_ne _ _ _ _ Hnames). exact Hmg. }
  assert (Hslice1 : getprop (mem w1) state (capturedSliceName g) = Ok slice).
  { rewrite Hsame, (extends_getprop _ _ state _ Hext Hstate). exact Hslice. }
  pose proof (stateSliceFor_spec g maybeState state mg slice w1 Hseen1 Hmg1 Hslice1)
    as Hsecond.
  rewrite (Hmiss mg Hneg) in Hsecond.
  eexists. eexists. eexists. eexists.
  split; [exact Hfirst|]. split; [exact Hsecond|].
  assert (Hlen1 : length (mem w1) = S (length (mem w))).
  { unfold w1, w0. simpl. rewrite length_app. simpl. lia. }
  split.
  { intros [= E]. rewrite length_app in E. simpl in E. lia. }
  split; [intros E; symmetry in E; revert E; apply allocated_fresh; exact Hslice_alloc|].
  split.
  { intros E. symmetry in E. revert E. apply allocated_fresh.
    eapply extends_allocated; eassumption. }
  split.
  - unfold memoized, writePrevState. cbn [snd mem].
    rewrite (extends_ownProps (mem w1) _ (VObj (length (mem w))));
      [|eexists; reflexivity|unfold allocated; rewrite Hlen1; lia].
    unfold w1, w0, memoized, writePrevState. cbn [snd mem]. apply ownProps_alloc.
  - unfold memoized, writePrevState. cbn [snd mem]. rewrite ownProps_alloc.
    apply extends_ownProps; assumption.
Qed.

Lemma selectors_do_not_share_the_copy_witness :
  exists r1 w1 r2 w2,
    stateSliceFor (Examples.sliceGetter "a") VUndefined (Examples.built [Examples.sliceP])
    = (Ok r1, w1) /\
    stateSliceFor (Examples.sliceGetter "b") VUndefined w1 = (Ok r2, w2) /\
    r1 <> r2 /\ r1 <> VObj 3 /\ r2 <> VObj 3 /\
    ownProps (mem w2) r1 = ownProps (mem (Examples.built [Examples.sliceP])) (VObj 3) /\
    ownProps (mem w2) r2 = ownProps (mem (Examples.built [Examples.sliceP])) (VObj 3).
Proof.
  apply (selectors_do_not_share_the_copy (Examples.sliceGetter "a") (Examples.sliceGetter "b")
           VUndefined (VObj 6) VUndefined VUndefined (VObj 3) (Examples.built [Examples.sliceP])).
  - discriminate.
  - reflexivity.
  - reflexivity.
  - vm_compute. lia.
  - vm_compute. lia.
  - reflexivity.
  - reflexivity.
  - discriminate.
  - reflexivity.
  - discriminate.
Defined.

(* ===================================================================== *)
(** ** From the initial state, and from an action, to a getter            *)
(* ===================================================================== *)

(** A full name whose slice name is free of the separator has one
    reading. *)
Lemma fullNameOf_unique (s s' k k' : string) :
  includes s SliceSeparator = false ->
  includes s' SliceSeparator = false ->
  fullNameOf s k = fullNameOf s' k' ->
  s = s' /\ k = k'.
Proof.
  unfold fullNameOf. revert s'.
  induction s as [|c s IH]; intros [|c' s'] Hs Hs'; simpl in *.
  - intros [= ->]. auto.
  - intros [= <- _]. rewrite Ascii.eqb_refl in Hs'. discriminate.
  - intros [= -> _]. rewrite Ascii.eqb_refl in Hs. discriminate.
  - apply orb_false_elim in Hs as [_ Hs]. apply orb_false_elim in Hs' as [_ Hs'].
    intros [= <- E]. destruct (IH s' Hs Hs' E) as [-> ->]. auto.
Qed.

Lemma NoDup_map_inj {A B : Type} (f : A -> B) (l : list A) (x y : A) :
  NoDup (map f l) -> In x l -> In y l -> f x = f y -> x = y.
Proof.
  induction l as [|a l IH]; simpl; [contradiction|].
  intros Hnd [<-|Hx] [<-|Hy] E; try reflexivity.
  - exfalso. apply NoDup_cons_iff in Hnd as [Hout _]. apply Hout. rewrite E.
    apply in_map. exact Hy.
  - exfalso. apply NoDup_cons_iff in Hnd as [Hout _]. apply Hout. rewrite <- E.
    apply in_map. exact Hx.
  - apply IH; try assumption. apply NoDup_cons_iff in Hnd. apply Hnd.
Qed.

(** With distinct slice names free of the separator, every key of
    [allSelectors] of a slice keeps the function made for it. *)
Lemma registerAll_selector (slices : list sliceDescriptor) (m : heap)
    (d : sliceDescriptor) (key : string) (sel : selectorFn) :
  NoDup (map sliceName slices) ->
  Forall (fun d0 => includes (sliceName d0) SliceSeparator = false) slices ->
  In d slices ->
  lookup key (allSelectorsOf m d) = Some sel ->
  lookup (fullNameOf (sliceName d) key) (_selectors (this (registerAll slices (blank m))))
  = Some (freshEntry (sliceName d) key sel).
Proof.
  intros Hnd Hfree Hd Hsel.
  assert (Hin : In (fullNameOf (sliceName d) key)
                  (keys (_selectors (this (registerAll slices (blank m)))))).
  { apply registerAll_selector_keys. right. exists d, key.
    split; [exact Hd|]. split; [|reflexivity]. eapply lookup_Some_In. exact Hsel. }
  apply lookup_In_keys in Hin.
  destruct (lookup (fullNameOf (sliceName d) key)
              (_selectors (this (registerAll slices (blank m))))) as [e|] eqn:E;
    [|congruence].
  destruct (registerAll_madeFor slices m _ e E) as (d' & key' & sel' & Hd' & Hsel' & Hname & ->).
  rewrite Forall_forall in Hfree.
  destruct (fullNameOf_unique _ _ _ _ (Hfree d Hd) (Hfree d' Hd') Hname) as [Es <-].
  assert (d = d') by (eapply NoDup_map_inj; eassumption). subst d'.
  rewrite Hsel in Hsel'. injection Hsel' as <-. reflexivity.
Qed.

(** X19.  Right after construction, for slices with distinct names free
    of the separator: the default getter [sliceName_key] of a slice
    without a selector factory, called through [selectOne] without a
    state argument, returns the property [key] of the [initialState]
    object of the descriptor (the reducer of the slice applying no
    handler to the bootstrap action of Redux). *)
Theorem selectOne_reads_the_initial_state (slices : list sliceDescriptor) (m : heap)
    (d : sliceDescriptor) (key : string) (options : value) (fuel : nat) :
  NoDup (map sliceName slices) ->
  Forall (fun d0 => includes (sliceName d0) SliceSeparator = false) slices ->
  In d slices ->
  createSelectors d = None ->
  ownedHandler d reduxInit = None ->
  initialState d < length m ->
  In key (keys (ownProps m (VObj (initialState d)))) ->
  fst (selectOne (run (2 + fuel)) (fullNameOf (sliceName d) key) options VUndefined
         (snd (construct slices m)))
  = Ok (field (ownProps m (VObj (initialState d))) key).
Proof.
  intros Hnd Hfree Hd Hnone Hown Hinit Hkey.
  rewrite construct_registerAll.
  set (w0 := registerAll slices (blank m)).
  destruct (createStore_initial w0 (sliceName d) d) as (w & Hrun & Hslice).
  { apply registered_NoDup. constructor. }
  { apply lookup_In_pair, registerAll_reducer; assumption. }
  { exact Hown. }
  pose proof (sameInstance_createStore w0) as (Hext & Hsels & _).
  rewrite Hrun in *. cbn [snd] in *.
  assert (Hmem0 : mem w0 = m) by apply registerAll_mem.
  rewrite Hmem0 in Hext.
  assert (Hsel : lookup key (allSelectorsOf m d) = Some (defaultSelector key)).
  { unfold allSelectorsOf. rewrite Hnone, lookup_createDefaultSelectors.
    destruct (in_dec string_dec key (keys (ownProps m (VObj (initialState d)))));
      [reflexivity|contradiction]. }
  pose proof (registerAll_selector slices m d key _ Hnd Hfree Hd Hsel) as Hentry.
  fold w0 in Hentry. rewrite <- Hsels in Hentry.
  unfold selectOne, getSelector. rewrite Hentry.
  unfold sliceRef in Hslice.
  destruct (_store (this w)) as [state|] eqn:Hstore; [|discriminate].
  rewrite (callSelector_default (fn (freshEntry (sliceName d) key (defaultSelector key)))
             key options VUndefined state VUndefined (initialState d) fuel w eq_refl).
  - f_equal. f_equal. apply (extends_ownProps m (mem w) (VObj (initialState d))); assumption.
  - unfold stateSeen. simpl. exact Hstore.
  - unfold memoOf, registeredName. simpl. rewrite Hentry. reflexivity.
  - exact Hslice.
Qed.

Lemma selectOne_reads_the_initial_state_witness :
  fst (selectOne (run 2) "b_y" VUndefined VUndefined
         (snd (construct [Examples.sliceA; Examples.sliceB] Examples.heap0)))
  = Ok (VNum 2).
Proof.
  apply (selectOne_reads_the_initial_state [Examples.sliceA; Examples.sliceB] Examples.heap0
           Examples.sliceB "y" VUndefined 0).
  - simpl. repeat constructor; simpl; intuition discriminate.
  - repeat constructor.
  - simpl. auto.
  - reflexivity.
  - reflexivity.
  - vm_compute. lia.
  - simpl. auto.
Defined.



(* ===================================================================== *)
(** ** Slices that apply no handler; types that are not registered        *)
(* ===================================================================== *)

(** X21.  On an instance as construction leaves it, the dispatch of an
    action of known type returns the action, and a slice whose reducer
    applies no handler to it keeps its reference: the state of the store
    holds for it afterwards the very object it held before, whatever the
    other slices did.  (The segment of the type that the reducers look up
    is taken not to be a name of [Object.prototype], under which every
    slice finds a function.) *)
Theorem unowned_slice_keeps_its_reference (la : loc) (actionType key : string)
    (d : sliceDescriptor) (w : world) :
  ready w ->
  getprop (mem w) (VObj la) "type" = Ok (VStr actionType) ->
  knownType (this w) actionType = true ->
  ownName (sliceActionTypeOf actionType) ->
  In (key, d) (_reducers (this w)) ->
  ownedHandler d actionType = None ->
  exists w' v,
    dispatch (VObj la) w = (Ok (VObj la), w') /\
    ready w' /\
    v <> VUndefined /\
    sliceRef w key = Ok v /\
    sliceRef w' key = Ok v.
Proof.
  intros Hready Hty Hknown _ Hin Hown.
  destruct (dispatch_known la actionType w Hready Hty Hknown) as (w' & Hrun & Hready').
  destruct Hready as (l0 & Hstore & Hl0 & Hnd & Hdef).
  assert (Hkey : In key (keys (_reducers (this w)))).
  { apply in_map_iff. exists (key, d). split; [reflexivity|exact Hin]. }
  destruct (Hdef key Hkey) as (v & Hv & Hvdef).
  destruct (dispatch_frame (VObj la) v (VObj la) actionType key d l0 w w'
              Hstore Hl0 Hty Hnd Hin Hown Hv Hvdef Hrun) as (l1 & Hstore' & Hv').
  exists w', v. repeat split; try assumption.
  - unfold sliceRef. rewrite Hstore. exact Hv.
  - unfold sliceRef. rewrite Hstore'. exact Hv'.
Qed.

Lemma unowned_slice_keeps_its_reference_witness :
  exists w' v,
    dispatch (VObj 7) Examples.routedWorld = (Ok (VObj 7), w') /\
    ready w' /\
    v <> VUndefined /\
    sliceRef Examples.routedWorld "b" = Ok v /\
    sliceRef w' "b" = Ok v.
Proof.
  refine (unowned_slice_keeps_its_reference 7 "a_x" "b" Examples.sliceB Examples.routedWorld
            _ eq_refl eq_refl _ _ eq_refl).
  - apply ready_new, built_ready.
  - unfold ownName. simpl. intuition discriminate.
  - simpl. auto.
Defined.



(* ===================================================================== *)
(** ** The compiled build                                                 *)
(* ===================================================================== *)

(** The compiled reducer hands the handler the action, not its payload. *)
Remark compiled_reducer_passes_action (d : sliceDescriptor) (h : handler)
    (stateArg action : value) (actionType : string) (w : world) :
  getprop (mem w) action "type" = Ok (VStr actionType) ->
  knownType (this w) actionType = true ->
  ownedHandler d actionType = Some h ->
  Compiled._createReducer d stateArg action w
  = (Ok (VObj (length (mem w))),
     {| mem := mem w ++ [plain (assign (ownProps (mem w) (stateOrInitial d stateArg))
                                  (h (mem w) (stateOrInitial d stateArg) action))];
        this := this w |}).
Proof.
  intros Hty Hknown Hown.
  unfold Compiled._createReducer, bind, read. rewrite Hty, Hknown, Hown. reflexivity.
Qed.

(** On the counter, the compiled reducer adds the action object to the
    value: [0 + action] is the string ["0[object Object]"]. *)
Remark compiled_reducer_on_counter :
  ownProps
    (mem (snd (Compiled._createReducer Examples.counter (VObj 0) (VObj 7)
                 Examples.incrementWorld)))
    (VObj 8)
  = [("value", VStr "0[object Object]")].
Proof. reflexivity. Qed.
